(** * Versioned persistence engine: record store, version ledger,
      persistence queue and backup manager

    A shallow embedding of [src/core/memory_db.py], [src/services/versioning.py],
    [src/services/persistence.py] and [src/services/backup.py], with the
    properties of the specification stated and proved over it.

    Conventions.
    - Python [int] is [Z]; [str] is [string]; [Optional[T]] is [option T];
      [float] is an IEEE 754 binary64 number, [spec_float] of the standard
      library with a 53 bit mantissa.
    - A Python call either returns or raises: [result A].
    - SQLite tables are lists of rows in rowid order; AUTOINCREMENT keys come
      from a per-table sequence counter that is never decreased.
    - [CURRENT_TIMESTAMP] / [datetime.now()] is read from an explicit clock
      argument [now]. *)

From Stdlib Require Import ZArith List Bool Lia Ascii String Sorted SpecFloat.
From stdpp Require Import base option list strings pretty gmap.

Local Open Scope string_scope.
Local Open Scope list_scope.
Local Open Scope Z_scope.

(** ** Python results *)

Inductive exn : Type :=
  | ValueError (msg : string)
  | UnboundLocalError (name : string)
  | NameError (name : string)
  | AttributeError
  | OperationalError
  | DatabaseError
  | IntegrityError
  | FileNotFoundError
  | IsADirectoryError
  | SameFileError
  | OverflowError
  | TimeoutError (msg : string).

Inductive result (A : Type) : Type :=
  | Ok (a : A)
  | Raise (e : exn).
Arguments Ok {A} a.
Arguments Raise {A} e.

Definition is_ok {A} (r : result A) : bool :=
  match r with Ok _ => true | Raise _ => false end.

(** ** JSON documents

    [content] is a [Dict[str, Any]]; it is stored as
    [json.dumps(content, ensure_ascii=False)] and read back with
    [json.loads].  On documents with string keys and JSON values the
    composition is the identity, so a [content] column is modelled by the
    document it encodes. *)

#[local] Unset Elimination Schemes.
Inductive jvalue : Type :=
  | JNull
  | JBool (b : bool)
  | JInt (z : Z)
  | JStr (s : string)
  | JList (l : list jvalue)
  | JDict (d : list (string * jvalue)).
#[local] Set Elimination Schemes.

Definition Content : Type := list (string * jvalue).

Definition json_dumps (c : Content) : Content := c.
Definition json_loads (t : Content) : Content := t.

(** Python truthiness of a dict ([if not content]). *)
Definition truthy_dict (c : Content) : bool :=
  match c with [] => false | _ :: _ => true end.

(** Python truthiness of a string ([if backup_type], [if row['tags']]). *)
Definition truthy_str (s : string) : bool :=
  match s with EmptyString => false | String _ _ => true end.

Definition truthy_opt_str (s : option string) : bool :=
  match s with Some s => truthy_str s | None => false end.

(** [','.join(tags)] *)
Fixpoint join_comma (l : list string) : string :=
  match l with
  | [] => ""
  | [s] => s
  | s :: rest => s +:+ "," +:+ join_comma rest
  end.

(** [s.split(',')] *)
Fixpoint split_comma_aux (cur : string) (s : string) : list string :=
  match s with
  | EmptyString => [String.rev cur]
  | String c rest =>
      if Ascii.eqb c ","%char
      then String.rev cur :: split_comma_aux "" rest
      else split_comma_aux (String c cur) rest
  end.
Definition split_comma (s : string) : list string := split_comma_aux "" s.

(** ** Rows and tables (the schema of [MemoryDB.create_tables]) *)

Record MemoryRow : Type := mkMemoryRow {
  m_id : Z;
  m_memory_type : string;
  m_session_id : option string;
  m_date : option string;
  m_content : Content;
  m_importance : Z;
  m_tags : option string;
  m_created_at : Z;
  m_updated_at : Z;
  m_is_deleted : Z
}.

Record VersionRow : Type := mkVersionRow {
  v_id : Z;
  v_memory_id : Z;
  v_version : Z;
  v_content : Content;
  v_changed_by : string;
  v_change_reason : option string;
  v_created_at : Z
}.

(** [b_description] is only meaningful in a database whose [backups] table has
    the [description] column (see [has_description] below). *)
Record BackupRow : Type := mkBackupRow {
  b_id : Z;
  b_backup_type : string;
  b_file_path : string;
  b_size_bytes : option Z;
  b_checksum : option string;
  b_status : string;
  b_created_at : Z;
  b_description : option string
}.

(** The database: three tables, their AUTOINCREMENT counters
    ([sqlite_sequence]), and whether the [backups] table carries the
    [description] column.  [MemoryDB.create_tables] creates [backups] without
    it; [CREATE TABLE IF NOT EXISTS] keeps a table made elsewhere. *)
Record DB : Type := mkDB {
  memories : list MemoryRow;
  versions : list VersionRow;
  backups : list BackupRow;
  seq_memories : Z;
  seq_versions : Z;
  seq_backups : Z;
  has_description : bool
}.

Definition empty_db : DB := mkDB [] [] [] 0 0 0 false.

Definition set_memories (d : DB) (ms : list MemoryRow) (s : Z) : DB :=
  mkDB ms (versions d) (backups d) s (seq_versions d) (seq_backups d)
       (has_description d).
Definition set_versions (d : DB) (vs : list VersionRow) (s : Z) : DB :=
  mkDB (memories d) vs (backups d) (seq_memories d) s (seq_backups d)
       (has_description d).
Definition set_backups (d : DB) (bs : list BackupRow) (s : Z) : DB :=
  mkDB (memories d) (versions d) bs (seq_memories d) (seq_versions d) s
       (has_description d).

(** ** ORDER BY

    A stable insertion sort on an integer key; rows with equal keys keep
    their rowid order. *)
Section OrderBy.
Context {A : Type} (key : A → Z).

Fixpoint insert_by (x : A) (l : list A) : list A :=
  match l with
  | [] => [x]
  | y :: l' => if key x <=? key y then x :: l else y :: insert_by x l'
  end.

Fixpoint order_by (l : list A) : list A :=
  match l with
  | [] => []
  | x :: l' => insert_by x (order_by l')
  end.
End OrderBy.

(** [ORDER BY key DESC] *)
Definition order_by_desc {A} (key : A → Z) (l : list A) : list A :=
  order_by (λ x, - key x) l.

(** [LIMIT n]: a negative limit means no limit. *)
Definition sql_limit {A} (n : Z) (l : list A) : list A :=
  if n <? 0 then l else take (Z.to_nat n) l.

(** [SELECT MAX(col)]: NULL on no rows. *)
Definition sql_max (l : list Z) : option Z :=
  match l with
  | [] => None
  | x :: l' => Some (fold_left Z.max l' x)
  end.

(** ** The store monad: a call runs on the tables and returns or raises *)

Definition M (A : Type) : Type := DB → result A * DB.

Definition ret {A} (a : A) : M A := λ d, (Ok a, d).
Definition raise {A} (e : exn) : M A := λ d, (Raise e, d).
Definition bind {A B} (m : M A) (k : A → M B) : M B :=
  λ d, match m d with
       | (Ok a, d') => k a d'
       | (Raise e, d') => (Raise e, d')
       end.

Declare Scope store_scope.
Delimit Scope store_scope with store.
Notation "x <- m ;; k" := (bind m (λ x, k))
  (at level 100, m at next level, right associativity) : store_scope.

(** [with self.transaction() as cursor:] commits when the body returns and
    rolls back, then re-raises, when it raises. *)
Definition transaction {A} (body : M A) : M A :=
  λ d, match body d with
       | (Ok a, d') => (Ok a, d')
       | (Raise e, _) => (Raise e, d)
       end.

(** [INSERT INTO memories (...)]; returns [cursor.lastrowid]. *)
Definition insert_memory (memory_type : string) (session_id date : option string)
    (content : Content) (importance : Z) (tags : option string) (now : Z) : M Z :=
  λ d, let id := seq_memories d + 1 in
       (Ok id,
        set_memories d
          (memories d ++
             [mkMemoryRow id memory_type session_id date content importance tags
                          now now 0])
          id).

(** [INSERT INTO versions (...)] *)
Definition insert_version (memory_id version : Z) (content : Content)
    (changed_by : string) (change_reason : option string) (now : Z) : M unit :=
  λ d, let id := seq_versions d + 1 in
       (Ok tt,
        set_versions d
          (versions d ++
             [mkVersionRow id memory_id version content changed_by change_reason now])
          id).

Definition valid_memory_type (t : string) : bool :=
  bool_decide (t ∈ ["session"; "daily"; "longterm"]).

(** ** Files, the connection, and the platform

    The backup code works on the database *file*.  A file holds either a
    database image, identified with the tables it encodes, or other bytes.
    The 0-byte file is the empty database (no tables). *)

Inductive data : Type :=
  | Image (d : DB)
  | Raw (bytes : list Z).

Inductive node : Type :=
  | File (c : data)
  | Dir.

(** What an open [sqlite3.Connection] sees; it includes changes that are not
    committed to the file yet. *)
Inductive view : Type :=
  | Tables (d : DB)
  | NoTables
  | NotADatabase.

(** Library functions the code calls and whose results are not computed here:
    [hashlib.md5(bytes).hexdigest()], [os.path.getsize],
    [datetime.strftime("%Y-%m-%d_%H-%M-%S")], [str(e)] and
    [PY_TIMEOUT_MAX], the longest timeout of a lock in microseconds
    ([threading.TIMEOUT_MAX] is this constant in whole seconds). *)
Class OS : Type := mkOS {
  md5 : data → string;
  getsize : data → Z;
  strftime : Z → string;
  str_exn : exn → string;
  PY_TIMEOUT_MAX : Z
}.

Record World : Type := mkWorld {
  fs : gmap string node;
  db_path : string;       (* MemoryDB.db_path *)
  backup_dir : string;    (* BackupService.backup_dir *)
  conn : option view;     (* MemoryDB.conn *)
  locks : list bool       (* every threading.Lock object alive; true = held *)
}.

Definition set_fs (w : World) (f : gmap string node) : World :=
  mkWorld f (db_path w) (backup_dir w) (conn w) (locks w).
Definition set_conn (w : World) (c : option view) : World :=
  mkWorld (fs w) (db_path w) (backup_dir w) c (locks w).
Definition set_locks (w : World) (l : list bool) : World :=
  mkWorld (fs w) (db_path w) (backup_dir w) (conn w) l.

(** *** [os.path] and [shutil] *)

Definition starts_with_slash (s : string) : bool :=
  match s with String c _ => Ascii.eqb c "/"%char | EmptyString => false end.

Fixpoint ends_with_slash (s : string) : bool :=
  match s with
  | EmptyString => false
  | String c EmptyString => Ascii.eqb c "/"%char
  | String _ rest => ends_with_slash rest
  end.

(** [os.path.join(a, b)] *)
Definition path_join (a b : string) : string :=
  if starts_with_slash b then b
  else if negb (truthy_str a) || ends_with_slash a then a +:+ b
  else a +:+ "/" +:+ b.

(** [os.path.basename(p)] *)
Fixpoint basename_aux (cur : string) (p : string) : string :=
  match p with
  | EmptyString => String.rev cur
  | String c rest =>
      if Ascii.eqb c "/"%char then basename_aux "" rest
      else basename_aux (String c cur) rest
  end.
Definition basename (p : string) : string := basename_aux "" p.

(** [os.path.exists(p)] *)
Definition path_exists (f : gmap string node) (p : string) : bool :=
  match f !! p with Some _ => true | None => false end.

Definition path_isdir (f : gmap string node) (p : string) : bool :=
  match f !! p with Some Dir => true | _ => false end.

(** [open(p, 'rb').read()] *)
Definition read_file (f : gmap string node) (p : string) : result data :=
  match f !! p with
  | Some (File c) => Ok c
  | Some Dir => Raise IsADirectoryError
  | None => Raise FileNotFoundError
  end.

(** [os.unlink(p)] *)
Definition unlink (p : string) (f : gmap string node) : result unit * gmap string node :=
  match f !! p with
  | Some (File _) => (Ok tt, delete p f)
  | Some Dir => (Raise IsADirectoryError, f)
  | None => (Raise FileNotFoundError, f)
  end.

(** [shutil.copy2(src, dst)]; two paths name the same file when they are
    equal. *)
Definition copy2 (src dst : string) (f : gmap string node)
    : result unit * gmap string node :=
  let dst := if path_isdir f dst then path_join dst (basename src) else dst in
  if path_exists f src && String.eqb src dst then (Raise SameFileError, f)
  else
    match read_file f src with
    | Raise e => (Raise e, f)
    | Ok c =>
        if path_isdir f dst then (Raise IsADirectoryError, f)
        else (Ok tt, <[dst := File c]> f)
    end.

(** *** The connection *)

(** What a connection reads from a file. *)
Definition view_of (c : data) : view :=
  match c with
  | Image d => Tables d
  | Raw [] => NoTables
  | Raw (_ :: _) => NotADatabase
  end.

(** [MemoryDB.connect]: [sqlite3.connect(db_path)] unless a connection is
    open; a missing file is created empty. *)
Definition connect (w : World) : result unit * World :=
  match conn w with
  | Some _ => (Ok tt, w)
  | None =>
      match fs w !! db_path w with
      | Some (File c) => (Ok tt, set_conn w (Some (view_of c)))
      | Some Dir => (Raise OperationalError, w)
      | None =>
          (Ok tt, set_conn (set_fs w (<[db_path w := File (Raw [])]> (fs w)))
                    (Some NoTables))
      end
  end.

(** [MemoryDB.close] *)
Definition close (w : World) : World := set_conn w None.

(** [self.db.conn.commit()] on an open connection. *)
Definition commit (w : World) : World :=
  match conn w with
  | Some (Tables d) => set_fs w (<[db_path w := File (Image d)]> (fs w))
  | _ => w
  end.

(** Running a statement on the tables through [self.db.conn]. *)
Definition the_tables (w : World) : result DB :=
  match conn w with
  | None => Raise AttributeError
  | Some (Tables d) => Ok d
  | Some NoTables => Raise OperationalError
  | Some NotADatabase => Raise DatabaseError
  end.

(** *** Numbers and the clock of the interpreter

    The [timeout] of [create_backup_with_lock] is a [float]; Python does not
    check the annotation, so an [int] can be passed as well.  The interpreter
    turns either into a count of nanoseconds, an [int64]
    ([_PyTime_FromSecondsObject] with [_PyTime_ROUND_TIMEOUT], which rounds
    away from zero). *)
Inductive number : Type :=
  | PyInt (z : Z)
  | PyFloat (x : spec_float).

(** The float of value [m * 2 ^ e]. *)
Definition float_of (m e : Z) : spec_float := binary_normalize 53 1024 m e false.

(** [x * y] on floats. *)
Definition float_mul (x y : spec_float) : spec_float := SFmul 53 1024 x y.

(** [1e9] *)
Definition SEC_TO_NS : spec_float := S754_finite false 8388608000000000 (-23).

(** [ceil(d)] for a positive [d] and [floor(d)] for a negative one, as an
    integer; nothing for an infinity or a NaN. *)
Definition round_away (d : spec_float) : option Z :=
  match d with
  | S754_zero _ => Some 0
  | S754_finite s m e =>
      let n := if 0 <=? e then Z.pos m * 2 ^ e
               else (Z.pos m + 2 ^ (- e) - 1) / 2 ^ (- e) in
      Some (if s then - n else n)
  | S754_infinity _ => None
  | S754_nan => None
  end.

Definition PyTime_MIN : Z := - 2 ^ 63.
Definition PyTime_MAX : Z := 2 ^ 63 - 1.

(** [d = value * 1e9; d = round(d)]; the result has to fit an [int64]. *)
Definition pytime_from_double (value : spec_float) : result Z :=
  match round_away (float_mul value SEC_TO_NS) with
  | Some d => if (PyTime_MIN <=? d) && (d <? - PyTime_MIN) then Ok d
              else Raise OverflowError
  | None => Raise OverflowError
  end.

Definition _PyTime_FromSecondsObject (obj : number) : result Z :=
  match obj with
  | PyFloat d =>
      match d with
      | S754_nan => Raise (ValueError "Invalid value NaN (not a number)")
      | _ => pytime_from_double d
      end
  | PyInt sec =>
      (* PyLong_AsLongLong, then the multiplication with its overflow check *)
      if (sec <? PyTime_MIN) || (PyTime_MAX <? sec) then Raise OverflowError
      else
        let ns := sec * 1000000000 in
        if (ns <? PyTime_MIN) || (PyTime_MAX <? ns) then Raise OverflowError
        else Ok ns
  end.

(** [_PyTime_AsMicroseconds(t, _PyTime_ROUND_TIMEOUT)], away from zero. *)
Definition _PyTime_AsMicroseconds (t : Z) : Z :=
  if 0 <=? t then (t + 999) / 1000 else - ((- t + 999) / 1000).

(** [_PyTime_FromSeconds(-1)]: no timeout was given. *)
Definition unset_timeout : Z := -1000000000.

(** *** [threading.Lock] *)

(** [lock.acquire(timeout=t)] on a lock in state [held]: the argument check of
    the interpreter comes first.  The timeout is converted to nanoseconds; a
    timeout that converts to [-1] second means wait without bound, any other
    negative one is refused, and one of more than [PY_TIMEOUT_MAX]
    microseconds overflows.  A free lock is taken at once; a held one makes
    the caller wait, until the timeout if there is one. *)
Inductive acquired : Type :=
  | Acquired
  | TimedOut
  | WaitsForever.

Definition lock_acquire {os : OS} (timeout : number) (held : bool) : result acquired :=
  match _PyTime_FromSecondsObject timeout with
  | Raise e => Raise e
  | Ok timeout =>
      if (timeout <? 0) && negb (timeout =? unset_timeout) then
        Raise (ValueError "timeout value must be a non-negative number")
      else if negb (timeout =? unset_timeout)
              && (PY_TIMEOUT_MAX <? _PyTime_AsMicroseconds timeout) then
        Raise OverflowError
      else if negb held then Ok Acquired
      else if timeout =? unset_timeout then Ok WaitsForever
      else Ok TimedOut
  end.

(** More library functions whose results are not computed here:
    [os.makedirs(path, exist_ok=True)], [datetime.now().isoformat()], and
    whether [datetime.strptime(date, "%Y-%m-%d")] accepts a string. *)
Class Lib : Type := mkLib {
  makedirs : string → gmap string node → result unit * gmap string node;
  isoformat : Z → string;
  strptime_ok : string → bool
}.

(** [OFFSET n]: a negative offset is no offset. *)
Definition sql_offset {A} (n : Z) (l : list A) : list A := drop (Z.to_nat n) l.

(** [column = ?] on a nullable column: NULL equals nothing. *)
Definition sql_eq (column : option string) (param : string) : bool :=
  match column with
  | Some v => String.eqb v param
  | None => false
  end.

(** An optional filter, [if param: query += " AND column = ?"]. *)
Definition sql_filter (param : option string) (column : option string) : bool :=
  if truthy_opt_str param then sql_eq column (default "" param) else true.

(** [d.get(key)] on a document. *)
Fixpoint dict_get (key : string) (d : Content) : option jvalue :=
  match d with
  | [] => None
  | (k, v) :: d' => if String.eqb k key then Some v else dict_get key d'
  end.

(** [d.get(key)] as a JSON value: a missing key gives [None]. *)
Definition get_or_null (key : string) (d : Content) : jvalue :=
  default JNull (dict_get key d).

(** [d.get(key) == s] for a string [s]. *)
Definition get_is_str (key : string) (d : Content) (s : string) : bool :=
  match dict_get key d with
  | Some (JStr x) => String.eqb x s
  | _ => false
  end.

(** Python truthiness of a JSON value. *)
Definition truthy_value (v : jvalue) : bool :=
  match v with
  | JNull => false
  | JBool b => b
  | JInt z => negb (z =? 0)
  | JStr s => truthy_str s
  | JList l => match l with [] => false | _ :: _ => true end
  | JDict d => truthy_dict d
  end.

(** [needle in hay] for strings. *)
Fixpoint str_contains (needle hay : string) : bool :=
  String.prefix needle hay
  || match hay with
     | EmptyString => false
     | String _ rest => str_contains needle rest
     end.

(** [l[:n]] *)
Definition py_slice_to {A} (n : Z) (l : list A) : list A :=
  if n <? 0 then take (length l - Z.to_nat (- n)) l else take (Z.to_nat n) l.

(** ** [MemoryDB]: the record store ([src/core/memory_db.py]) *)

Module MemoryDB.
Local Open Scope store_scope.

(** The dict returned by [get_memory]. *)
Record Memory : Type := mkMemory {
  id : Z;
  memory_type : string;
  session_id : option string;
  date : option string;
  content : Content;
  importance : Z;
  tags : list string;
  created_at : Z;
  updated_at : Z
}.

Definition save_memory (memory_type : string) (content : Content)
    (session_id date : option string) (importance : Z)
    (tags : option (list string)) (now : Z) : M Z :=
  if negb (truthy_dict content) then
    raise (ValueError "记忆内容不能为空")
  else if negb (valid_memory_type memory_type) then
    raise (ValueError ("无效的记忆类型: " +:+ memory_type))
  else if (importance <? 0) || (importance >? 10) then
    raise (ValueError "重要性评分必须在 0-10 之间")
  else
    let content_json := json_dumps content in
    let tags_str :=
      match tags with
      | Some (t :: ts) => Some (join_comma (t :: ts))
      | _ => None
      end in
    memory_id <- transaction (
      memory_id <- insert_memory memory_type session_id date content_json
                                 importance tags_str now ;;
      _ <- insert_version memory_id 1 content_json "system"
                          (Some "Initial creation") now ;;
      ret memory_id) ;;
    ret memory_id.

(** [SELECT ... FROM memories WHERE id = ? AND is_deleted = 0], [fetchone]. *)
Definition live_row (memory_id : Z) (r : MemoryRow) : bool :=
  (m_id r =? memory_id) && (m_is_deleted r =? 0).

Definition get_memory (memory_id : Z) : M (option Memory) :=
  λ d,
    match List.find (live_row memory_id) (memories d) with
    | None => (Ok None, d)
    | Some row =>
        (Ok (Some
           (mkMemory (m_id row) (m_memory_type row) (m_session_id row)
              (m_date row) (json_loads (m_content row)) (m_importance row)
              (match m_tags row with
               | Some t => if truthy_str t then split_comma t else []
               | None => []
               end)
              (m_created_at row) (m_updated_at row))), d)
    end.

(** [SELECT MAX(version) FROM versions WHERE memory_id = ?] *)
Definition select_max_version (memory_id : Z) : M (option Z) :=
  λ d, (Ok (sql_max (map v_version
               (List.filter (λ v, v_memory_id v =? memory_id) (versions d)))), d).

(** [UPDATE memories SET content = ?, updated_at = CURRENT_TIMESTAMP
     WHERE id = ? AND is_deleted = 0]; returns [cursor.rowcount]. *)
Definition set_content (content_json : Content) (now : Z) (r : MemoryRow) : MemoryRow :=
  mkMemoryRow (m_id r) (m_memory_type r) (m_session_id r) (m_date r) content_json
              (m_importance r) (m_tags r) (m_created_at r) now (m_is_deleted r).

Definition update_content (memory_id : Z) (content_json : Content) (now : Z) : M Z :=
  λ d,
    (Ok (Z.of_nat (length (List.filter (live_row memory_id) (memories d)))),
     set_memories d
       (map (λ r, if live_row memory_id r then set_content content_json now r else r)
            (memories d))
       (seq_memories d)).

Definition update_memory (memory_id : Z) (content : Content)
    (changed_by : string) (change_reason : option string) (now : Z) : M bool :=
  if negb (truthy_dict content) then
    raise (ValueError "更新内容不能为空")
  else
    result0 <- select_max_version memory_id ;;
    (* (result[0] or 0) + 1 *)
    let new_version := default 0 result0 + 1 in
    let content_json := json_dumps content in
    transaction (
      rowcount <- update_content memory_id content_json now ;;
      if rowcount =? 0 then ret false
      else
        _ <- insert_version memory_id new_version content_json changed_by
                            change_reason now ;;
        ret true).

(** [SELECT ... FROM versions WHERE memory_id = ? ORDER BY version ASC];
    each returned dict carries the columns of the row, with the content
    decoded. *)
Definition get_versions (memory_id : Z) : M (list VersionRow) :=
  λ d,
    (Ok (map (λ row, mkVersionRow (v_id row) (v_memory_id row) (v_version row)
                       (json_loads (v_content row)) (v_changed_by row)
                       (v_change_reason row) (v_created_at row))
           (order_by v_version
              (List.filter (λ v, v_memory_id v =? memory_id) (versions d)))), d).

Definition restore_version (version_id : Z) (now : Z) : M bool :=
  λ d,
    match List.find (λ v, v_id v =? version_id) (versions d) with
    | None => (Ok false, d)
    | Some row =>
        let memory_id := v_memory_id row in
        let content := v_content row in
        update_memory memory_id (json_loads content) "system"
          (Some ("Restored from version " +:+ pretty version_id)) now d
    end.

(** [delete_memory]: the soft-delete branch uses [cursor], a local that is
    only bound by the [with] statement of the other branch. *)
Definition delete_memory (memory_id : Z) (permanent : bool) : M bool :=
  if permanent then
    rowcount <- transaction (λ d,
      let d1 := set_versions d
                  (List.filter (λ v, negb (v_memory_id v =? memory_id)) (versions d))
                  (seq_versions d) in
      (Ok (Z.of_nat (length (List.filter (λ r, m_id r =? memory_id) (memories d1)))),
       set_memories d1
         (List.filter (λ r, negb (m_id r =? memory_id)) (memories d1))
         (seq_memories d1))) ;;
    ret (rowcount >? 0)
  else
    raise (UnboundLocalError "cursor").

(** [MemoryDB.restore_backup]: runs on the files as well as the tables. *)
Definition restore_backup {os : OS} (backup_id : Z) (w : World) : result bool * World :=
  match connect w with
  | (Raise e, w) => (Raise e, w)
  | (Ok _, w) =>
      match the_tables w with
      | Raise e => (Raise e, w)
      | Ok d =>
          match List.find (λ b, b_id b =? backup_id) (backups d) with
          | None => (Ok false, w)
          | Some row =>
              let backup_path := b_file_path row in
              if negb (path_exists (fs w) backup_path) then (Ok false, w)
              else
                match read_file (fs w) backup_path with
                | Raise e => (Raise e, w)
                | Ok bytes =>
                    let checksum := md5 bytes in
                    let expected := b_checksum row in
                    if negb (bool_decide (Some checksum = expected)) then
                      (Ok false, w)
                    else
                      let w := close w in
                      match copy2 backup_path (db_path w) (fs w) with
                      | (Raise e, f) => (Raise e, set_fs w f)
                      | (Ok _, f) =>
                          match connect (set_fs w f) with
                          | (Raise e, w) => (Raise e, w)
                          | (Ok _, w) => (Ok true, w)
                          end
                      end
                end
          end
      end
  end.

(** The dict that [get_memory] and [get_memories] build from a row. *)
Definition memory_of_row (row : MemoryRow) : Memory :=
  mkMemory (m_id row) (m_memory_type row) (m_session_id row) (m_date row)
    (json_loads (m_content row)) (m_importance row)
    (match m_tags row with
     | Some t => if truthy_str t then split_comma t else []
     | None => []
     end)
    (m_created_at row) (m_updated_at row).

(** The WHERE clause of [get_memories]. *)
Definition selected (memory_type session_id date : option string) (r : MemoryRow)
    : bool :=
  (m_is_deleted r =? 0)
  && sql_filter memory_type (Some (m_memory_type r))
  && sql_filter session_id (m_session_id r)
  && sql_filter date (m_date r).

Definition get_memories (memory_type session_id date : option string)
    (limit offset : Z) : M (list Memory) :=
  λ d,
    (Ok (map memory_of_row
           (sql_limit limit
              (sql_offset offset
                 (order_by_desc m_created_at
                    (List.filter (selected memory_type session_id date)
                                 (memories d)))))), d).

(** [create_tables]: every statement is [CREATE ... IF NOT EXISTS]; the three
    tables are created together on an empty database and left alone
    otherwise. *)
Definition create_tables (w : World) : result unit * World :=
  match connect w with
  | (Raise e, w) => (Raise e, w)
  | (Ok _, w) =>
      match conn w with
      | Some NoTables => (Ok tt, commit (set_conn w (Some (Tables empty_db))))
      | Some (Tables _) => (Ok tt, commit w)
      | Some NotADatabase => (Raise DatabaseError, w)
      | None => (Raise AttributeError, w)
      end
  end.

(** [INSERT INTO backups (backup_type, file_path, size_bytes, checksum, status)
    VALUES (?, ?, ?, ?, 'completed')] *)
Definition insert_completed (backup_type file_path : string) (size_bytes : Z)
    (checksum : string) (now : Z) (w : World) : result Z * World :=
  match the_tables w with
  | Raise e => (Raise e, w)
  | Ok d =>
      if negb (bool_decide (backup_type ∈ ["scheduled"; "manual"; "auto"]))
      then (Raise IntegrityError, w)
      else
        let id := seq_backups d + 1 in
        (Ok id,
         set_conn w (Some (Tables
           (set_backups d
              (backups d ++
                 [mkBackupRow id backup_type file_path (Some size_bytes)
                    (Some checksum) "completed" now None])
              id))))
  end.

(** [MemoryDB.create_backup] *)
Definition create_backup {os : OS} {lib : Lib} (backup_type : string) (now : Z)
    (w : World) : result Z * World :=
  match connect w with
  | (Raise e, w) => (Raise e, w)
  | (Ok _, w) =>
      (* SELECT COUNT( * ) FROM memories / versions *)
      match the_tables w with
      | Raise e => (Raise e, w)
      | Ok _ =>
          let timestamp := strftime now in
          let backup_dir := "data/backups" in
          match makedirs backup_dir (fs w) with
          | (Raise e, f) => (Raise e, set_fs w f)
          | (Ok _, f) =>
              let w := set_fs w f in
              let backup_path :=
                path_join backup_dir ("backup_" +:+ timestamp +:+ ".db") in
              match copy2 (db_path w) backup_path (fs w) with
              | (Raise e, f) => (Raise e, set_fs w f)
              | (Ok _, f) =>
                  let w := set_fs w f in
                  match read_file (fs w) backup_path with
                  | Raise e => (Raise e, w)
                  | Ok c =>
                      let checksum := md5 c in
                      let size_bytes := getsize c in
                      match insert_completed backup_type backup_path size_bytes
                              checksum now w with
                      | (Raise e, w) => (Raise e, w)
                      | (Ok backup_id, w) => (Ok backup_id, commit w)
                      end
                  end
              end
          end
      end
  end.
End MemoryDB.

(** ** [VersioningService] ([src/services/versioning.py]) *)

Module VersioningService.
Local Open Scope store_scope.

Definition get_version_history (memory_id : Z) : M (list VersionRow) :=
  MemoryDB.get_versions memory_id.

Definition rollback_to_version (memory_id version : Z) (now : Z) : M bool :=
  versions <- MemoryDB.get_versions memory_id ;;
  let target := List.find (λ v, v_version v =? version) versions in
  match target with
  | None => ret false
  | Some target => MemoryDB.restore_version (v_id target) now
  end.

Definition get_change_log (memory_id : Z) (changed_by : option string)
    : M (list VersionRow) :=
  versions <- MemoryDB.get_versions memory_id ;;
  if truthy_opt_str changed_by
  then ret (List.filter (λ v, String.eqb (v_changed_by v) (default "" changed_by))
                        versions)
  else ret versions.

(** An entry of [get_latest_versions]: the version dict itself when ids are
    given, a dict around it otherwise. *)
Inductive Latest : Type :=
  | LatestOf (version : VersionRow)
  | LatestIn (memory_id : Z) (version : VersionRow) (memory_type : string)
             (importance : Z).

(** [for mid in ids: versions = get_versions(mid); if versions:
    results.append(versions[-1])] *)
Fixpoint latest_of_ids (ids : list Z) (d : DB) : list Latest :=
  match ids with
  | [] => []
  | mid :: rest =>
      match fst (MemoryDB.get_versions mid d) with
      | Ok versions =>
          match last versions with
          | Some v => LatestOf v :: latest_of_ids rest d
          | None => latest_of_ids rest d
          end
      | Raise _ => latest_of_ids rest d
      end
  end.

Fixpoint latest_of_memories (ms : list MemoryDB.Memory) (d : DB) : list Latest :=
  match ms with
  | [] => []
  | m :: rest =>
      match fst (MemoryDB.get_versions (MemoryDB.id m) d) with
      | Ok versions =>
          match last versions with
          | Some v =>
              LatestIn (MemoryDB.id m) v (MemoryDB.memory_type m)
                       (MemoryDB.importance m)
              :: latest_of_memories rest d
          | None => latest_of_memories rest d
          end
      | Raise _ => latest_of_memories rest d
      end
  end.

Definition get_latest_versions (memory_ids : option (list Z)) (limit : Z)
    : M (list Latest) :=
  match memory_ids with
  | Some (mid :: ids) =>
      λ d, (Ok (latest_of_ids (py_slice_to limit (mid :: ids)) d), d)
  | _ =>
      memories <- MemoryDB.get_memories None None None (limit * 2) 0 ;;
      λ d, (Ok (py_slice_to limit (latest_of_memories memories d)), d)
  end.
End VersioningService.

(** ** [PersistenceService] ([src/services/persistence.py]) *)

Module PersistenceService.

(** [**kwargs] forwarded to [save_memory]; an absent key takes the default
    of [save_memory]. *)
Record Kwargs : Type := mkKwargs {
  k_session_id : option string;
  k_date : option string;
  k_importance : option Z;
  k_tags : option (list string)
}.

Record Item : Type := mkItem {
  i_memory_type : string;
  i_content : Content;
  i_kwargs : Kwargs;
  i_timestamp : Z
}.

Record Service : Type := mkService {
  max_queue_size : Z;
  queue : list Item;
  running : bool;
  last_flush : option Z;
  flush_count : Z;
  error_count : Z;
  total_saves : Z;
  total_queues : Z
}.

(** [PersistenceService(db, max_queue_size=...)] *)
Definition init (max_queue_size : Z) : Service :=
  mkService max_queue_size [] false None 0 0 0 0.

Definition save_item (item : Item) (now : Z) : M Z :=
  MemoryDB.save_memory (i_memory_type item) (i_content item)
    (k_session_id (i_kwargs item)) (k_date (i_kwargs item))
    (default 0 (k_importance (i_kwargs item))) (k_tags (i_kwargs item)) now.

(** The body of the [try]: [for item in items: save_memory(...); flushed += 1].
    Returns the exception that left the loop, if any, and [flushed]. *)
Fixpoint save_items (items : list Item) (flushed : Z) (now : Z) (d : DB)
    : option exn * Z * DB :=
  match items with
  | [] => (None, flushed, d)
  | item :: rest =>
      match save_item item now d with
      | (Ok _, d') => save_items rest (flushed + 1) now d'
      | (Raise e, d') => (Some e, flushed, d')
      end
  end.

Definition force_flush (now : Z) (s : Service) (d : DB) : Z * Service * DB :=
  (* drain: get_nowait until Empty *)
  let items := queue s in
  let s0 := mkService (max_queue_size s) [] (running s) (last_flush s)
              (flush_count s) (error_count s) (total_saves s) (total_queues s) in
  match items with
  | [] => (0, s0, d)
  | _ :: _ =>
      match save_items items 0 now d with
      | (None, flushed, d') =>
          (flushed,
           mkService (max_queue_size s0) (queue s0) (running s0) (Some now)
             (flush_count s0 + flushed) (error_count s0) (total_saves s0)
             (total_queues s0),
           d')
      | (Some _, flushed, d') =>
          (flushed,
           mkService (max_queue_size s0) (queue s0 ++ items) (running s0)
             (last_flush s0) (flush_count s0) (error_count s0 + 1)
             (total_saves s0) (total_queues s0),
           d')
      end
  end.

Definition queue_save (memory_type : string) (content : Content)
    (kwargs : Kwargs) (now : Z) (s : Service) (d : DB) : bool * Service * DB :=
  let '(s1, d1) :=
    if Z.of_nat (length (queue s)) >=? max_queue_size s
    then let '(_, s', d') := force_flush now s d in (s', d')
    else (s, d) in
  (true,
   mkService (max_queue_size s1)
     (queue s1 ++ [mkItem memory_type content kwargs now])
     (running s1) (last_flush s1) (flush_count s1) (error_count s1)
     (total_saves s1) (total_queues s1 + 1),
   d1).

Definition save_immediately (memory_type : string) (content : Content)
    (kwargs : Kwargs) (now : Z) (s : Service) (d : DB) : result Z * Service * DB :=
  let s1 := mkService (max_queue_size s) (queue s) (running s) (last_flush s)
              (flush_count s) (error_count s) (total_saves s + 1) (total_queues s) in
  match save_item (mkItem memory_type content kwargs now) now d with
  | (Ok memory_id, d') =>
      (Ok memory_id,
       mkService (max_queue_size s1) (queue s1) (running s1) (Some now)
         (flush_count s1) (error_count s1) (total_saves s1) (total_queues s1),
       d')
  | (Raise e, d') =>
      (Raise e,
       mkService (max_queue_size s1) (queue s1) (running s1) (last_flush s1)
         (flush_count s1) (error_count s1 + 1) (total_saves s1) (total_queues s1),
       d')
  end.

(** [start] and [stop], for a service built with [auto_flush=False]: the
    flush thread of [auto_flush=True] is outside this sequential model. *)
Definition start (s : Service) : Service :=
  if running s then s
  else mkService (max_queue_size s) (queue s) true (last_flush s) (flush_count s)
         (error_count s) (total_saves s) (total_queues s).

Definition stop (now : Z) (s : Service) (d : DB) : Service * DB :=
  if negb (running s) then (s, d)
  else
    let s1 := mkService (max_queue_size s) (queue s) false (last_flush s)
                (flush_count s) (error_count s) (total_saves s) (total_queues s) in
    let '(_, s2, d2) := force_flush now s1 d in
    (s2, d2).

Definition get_queue_size (s : Service) : Z := Z.of_nat (length (queue s)).
End PersistenceService.

(** ** [BackupService] ([src/services/backup.py]) *)

Module BackupService.

Definition _generate_backup_filename {os : OS} (now : Z) : string :=
  "backup_" +:+ strftime now.

Definition _calculate_checksum {os : OS} (f : gmap string node) (filepath : string)
    : result string :=
  match read_file f filepath with
  | Ok c => Ok (md5 c)
  | Raise e => Raise e
  end.

Definition valid_backup_type (t : string) : bool :=
  bool_decide (t ∈ ["scheduled"; "manual"; "auto"]).

(** [self.db.conn.execute("INSERT INTO backups (..., description) ...")]:
    refused when the table has no [description] column or the CHECK on
    [backup_type] fails; returns [lastrowid]. *)
Definition insert_backup (backup_type file_path : string) (size_bytes : option Z)
    (checksum : option string) (status : string) (description : option string)
    (now : Z) (w : World) : result Z * World :=
  match the_tables w with
  | Raise e => (Raise e, w)
  | Ok d =>
      if negb (has_description d) then (Raise OperationalError, w)
      else if negb (valid_backup_type backup_type) then (Raise IntegrityError, w)
      else
        let id := seq_backups d + 1 in
        (Ok id,
         set_conn w (Some (Tables
           (set_backups d
              (backups d ++
                 [mkBackupRow id backup_type file_path size_bytes checksum status
                              now description])
              id))))
  end.

(** The body of the [try] of [create_backup]. *)
Definition create_backup_try {os : OS} (backup_type : string)
    (description : option string) (backup_path : string) (now : Z) (w : World)
    : result Z * World :=
  let w := commit w in
  match copy2 (db_path w) backup_path (fs w) with
  | (Raise e, f) => (Raise e, set_fs w f)
  | (Ok _, f) =>
      let w := set_fs w f in
      match _calculate_checksum (fs w) backup_path with
      | Raise e => (Raise e, w)
      | Ok checksum =>
          match read_file (fs w) backup_path with
          | Raise e => (Raise e, w)
          | Ok c =>
              let size_bytes := getsize c in
              match insert_backup backup_type backup_path (Some size_bytes)
                      (Some checksum) "completed" description now w with
              | (Raise e, w) => (Raise e, w)
              | (Ok backup_id, w) => (Ok backup_id, commit w)
              end
          end
      end
  end.

Definition create_backup {os : OS} (backup_type : string) (description : option string)
    (now : Z) (w : World) : result Z * World :=
  let filename := _generate_backup_filename now in
  let backup_path := path_join (backup_dir w) (filename +:+ ".db") in
  match create_backup_try backup_type description backup_path now w with
  | (Ok backup_id, w) => (Ok backup_id, w)
  | (Raise e, w) =>
      (* except Exception as e: record the failed backup, then re-raise *)
      let w :=
        match conn w with
        | Some _ =>
            match insert_backup backup_type backup_path None None "failed"
                    (Some (str_exn e)) now w with
            | (Ok _, w') => commit w'
            | (Raise _, _) => w
            end
        | None => w
        end in
      (Raise e, w)
  end.

(** [create_backup_with_lock]; [None] when the call never returns. *)
Definition create_backup_with_lock {os : OS} (backup_type : string)
    (description : option string) (timeout : number) (now : Z) (w : World)
    : option (result Z * World) :=
  (* lock = threading.Lock() *)
  let lock := length (locks w) in
  let w := set_locks w (locks w ++ [false]) in
  match lock_acquire timeout (default false (locks w !! lock)) with
  | Raise e => Some (Raise e, w)
  | Ok WaitsForever => None
  | Ok TimedOut => Some (Raise (TimeoutError "获取备份锁超时"), w)
  | Ok Acquired =>
      let w := set_locks w (<[lock := true]> (locks w)) in
      let '(r, w) := create_backup backup_type description now w in
      (* finally: lock.release() *)
      Some (r, set_locks w (<[lock := false]> (locks w)))
  end.

(** [a, b, c = s] for a string [s]. *)
Definition unpack3 (s : string) : result (string * string * string) :=
  match s with
  | String a (String b (String c EmptyString)) =>
      Ok (String a "", String b "", String c "")
  | String _ (String _ (String _ (String _ _))) =>
      Raise (ValueError "too many values to unpack (expected 3)")
  | _ =>
      Raise (ValueError ("not enough values to unpack (expected 3, got "
                           +:+ pretty (Z.of_nat (String.length s)) +:+ ")"))
  end.

Definition restore_backup {os : OS} (backup_id : Z) (w : World) : result bool * World :=
  match the_tables w with
  | Raise e => (Raise e, w)
  | Ok d =>
      match List.find (λ b, b_id b =? backup_id) (backups d) with
      | None => (Ok false, w)
      | Some row =>
          (* backup_path, expected_checksum, status = row[0] *)
          match unpack3 (b_file_path row) with
          | Raise e => (Raise e, w)
          | Ok (backup_path, expected_checksum, status) =>
              if negb (String.eqb status "completed") then (Ok false, w)
              else if negb (path_exists (fs w) backup_path) then (Ok false, w)
              else
                match _calculate_checksum (fs w) backup_path with
                | Raise e => (Raise e, w)
                | Ok actual_checksum =>
                    if negb (String.eqb actual_checksum expected_checksum) then
                      (* the log message names [actual], which is not bound *)
                      (Raise (NameError "actual"), w)
                    else
                      let w := close w in
                      match copy2 backup_path (db_path w) (fs w) with
                      | (Ok _, f) =>
                          match connect (set_fs w f) with
                          | (Ok _, w) => (Ok true, w)
                          | (Raise _, w) =>
                              (* except: try to reconnect, return False *)
                              (Ok false, snd (connect w))
                          end
                      | (Raise _, f) => (Ok false, snd (connect (set_fs w f)))
                      end
                end
          end
      end
  end.

(** The rows of [backup_type] when one is given, all rows otherwise. *)
Definition in_scope (backup_type : option string) (b : BackupRow) : bool :=
  match backup_type with
  | Some t => if truthy_str t then String.eqb (b_backup_type b) t else true
  | None => true
  end.

(** The inner query: [SELECT id FROM backups WHERE 1=1 [AND backup_type = ?]
    ORDER BY created_at DESC LIMIT keep_count]. *)
Definition kept_ids (keep_count : Z) (backup_type : option string) (d : DB) : list Z :=
  map b_id
    (sql_limit keep_count
       (order_by_desc b_created_at (List.filter (in_scope backup_type) (backups d)))).

(** The outer query: the rows to delete, [ORDER BY created_at ASC]. *)
Definition rows_to_delete (keep_count : Z) (backup_type : option string) (d : DB)
    : list BackupRow :=
  order_by b_created_at
    (List.filter
       (λ b, in_scope backup_type b
             && negb (bool_decide (b_id b ∈ kept_ids keep_count backup_type d)))
       (backups d)).

(** [DELETE FROM backups WHERE id = ?] *)
Definition delete_backup_row (backup_id : Z) (w : World) : result unit * World :=
  match the_tables w with
  | Raise e => (Raise e, w)
  | Ok d =>
      (Ok tt,
       set_conn w (Some (Tables
         (set_backups d (List.filter (λ b, negb (b_id b =? backup_id)) (backups d))
                      (seq_backups d)))))
  end.

(** The loop of [cleanup_old_backups]: an exception in one iteration is
    logged and the loop goes on. *)
Fixpoint delete_each (to_delete : list (Z * string)) (deleted : Z) (w : World)
    : Z * World :=
  match to_delete with
  | [] => (deleted, w)
  | (backup_id, file_path) :: rest =>
      let '(r, w1) :=
        if path_exists (fs w) file_path then
          let '(r, f) := unlink file_path (fs w) in (r, set_fs w f)
        else (Ok tt, w) in
      match r with
      | Raise _ => delete_each rest deleted w1
      | Ok _ =>
          match delete_backup_row backup_id w1 with
          | (Raise _, w2) => delete_each rest deleted w2
          | (Ok _, w2) => delete_each rest (deleted + 1) w2
          end
      end
  end.

Definition cleanup_old_backups (keep_count : Z) (backup_type : option string)
    (w : World) : result Z * World :=
  match the_tables w with
  | Raise e => (Raise e, w)
  | Ok d =>
      let to_delete :=
        map (λ b, (b_id b, b_file_path b)) (rows_to_delete keep_count backup_type d) in
      let '(deleted, w) := delete_each to_delete 0 w in
      (Ok deleted, commit w)
  end.

(** The dict returned by [verify_backup]: the bare error of an unknown id, or
    a report on the row.  [checksums], the expected and the actual one, is
    there once the file has been read. *)
Inductive VerifyResult : Type :=
  | VerifyUnknown (valid : bool) (error : string)
  | VerifyReport (backup_id : Z) (file_path : string) (status : string)
      (size_bytes : option Z) (created_at : Z) (valid : bool)
      (error : option string) (checksums : option (option string * string)).

Definition vr_valid (r : VerifyResult) : bool :=
  match r with
  | VerifyUnknown valid _ => valid
  | VerifyReport _ _ _ _ _ valid _ _ => valid
  end.

Definition vr_error (r : VerifyResult) : option string :=
  match r with
  | VerifyUnknown _ error => Some error
  | VerifyReport _ _ _ _ _ _ error _ => error
  end.

Definition verify_backup {os : OS} (backup_id : Z) (w : World)
    : result VerifyResult * World :=
  match the_tables w with
  | Raise e => (Raise e, w)
  | Ok d =>
      match List.find (λ b, b_id b =? backup_id) (backups d) with
      | None => (Ok (VerifyUnknown false "备份不存在"), w)
      | Some row =>
          let backup_path := b_file_path row in
          let expected_checksum := b_checksum row in
          let report := VerifyReport backup_id backup_path (b_status row)
                          (b_size_bytes row) (b_created_at row) in
          if negb (path_exists (fs w) backup_path) then
            (Ok (report false (Some "文件不存在") None), w)
          else
            match _calculate_checksum (fs w) backup_path with
            | Raise e => (Raise e, w)
            | Ok actual_checksum =>
                if bool_decide (Some actual_checksum = expected_checksum) then
                  (Ok (report true None (Some (expected_checksum, actual_checksum))), w)
                else
                  (Ok (report false (Some "校验和不匹配")
                         (Some (expected_checksum, actual_checksum))), w)
            end
      end
  end.

(** [list_backups]: the query names the [description] column. *)
Definition list_backups (backup_type status : option string) (limit : Z) (w : World)
    : result (list BackupRow) * World :=
  match the_tables w with
  | Raise e => (Raise e, w)
  | Ok d =>
      if negb (has_description d) then (Raise OperationalError, w)
      else
        (Ok (sql_limit limit
               (order_by_desc b_created_at
                  (List.filter
                     (λ b, sql_filter backup_type (Some (b_backup_type b))
                           && sql_filter status (Some (b_status b)))
                     (backups d)))), w)
  end.

Definition get_latest_backup (w : World) : result (option BackupRow) * World :=
  match list_backups None None 1 w with
  | (Raise e, w) => (Raise e, w)
  | (Ok backups, w) => (Ok (head backups), w)
  end.
End BackupService.

(** ** [LongtermMemory] ([src/core/longterm_memory.py]) *)

Module LongtermMemory.
Local Open Scope store_scope.

Definition ARCHIVE_THRESHOLD : Z := 8.

Definition save_longterm_memory (content : Content) (importance : Z)
    (tags : option (list string)) (source : option string) (now : Z) : M Z :=
  let memory : Content :=
    [("type", JStr "longterm_memory");
     ("content", JDict content);
     ("source", match source with Some s => JStr s | None => JNull end);
     ("archived_at", JNull)] in
  MemoryDB.save_memory "longterm" memory None None importance
    (* tags or [] *)
    (Some (match tags with Some (t :: ts) => t :: ts | _ => [] end)) now.

(** The dict [extracted] built from a daily event. *)
Definition extracted {lib : Lib} (log_id : Z) (m : MemoryDB.Memory) (now : Z) : Content :=
  let content := MemoryDB.content m in
  [("type", JStr "extracted_memory");
   ("original_event_type", get_or_null "event_type" content);
   ("title", get_or_null "title" content);
   ("description", get_or_null "description" content);
   ("details", default (JDict []) (dict_get "details" content));
   ("original_id", JInt log_id);
   ("importance", JInt (MemoryDB.importance m));
   ("extracted_at", JStr (isoformat now))].

(** The loop of [extract_and_archive]. *)
Fixpoint archive_each {lib : Lib} (daily_log_ids : list Z) (threshold : Z)
    (archived_count : Z) (now : Z) : M Z :=
  match daily_log_ids with
  | [] => ret archived_count
  | log_id :: rest =>
      memory <- MemoryDB.get_memory log_id ;;
      match memory with
      | None => archive_each rest threshold archived_count now
      | Some m =>
          if negb (get_is_str "type" (MemoryDB.content m) "daily_event") then
            archive_each rest threshold archived_count now
          else if MemoryDB.importance m <? threshold then
            archive_each rest threshold archived_count now
          else
            _ <- save_longterm_memory (extracted log_id m now)
                   (MemoryDB.importance m) (Some (MemoryDB.tags m))
                   (Some ("daily_log_" +:+ pretty log_id)) now ;;
            archive_each rest threshold (archived_count + 1) now
      end
  end.

Definition extract_and_archive {lib : Lib} (daily_log_ids : list Z)
    (threshold : option Z) (now : Z) : M Z :=
  let threshold := default ARCHIVE_THRESHOLD threshold in
  archive_each daily_log_ids threshold 0 now.

(** [add_tag]: [new_tags] is computed and dropped; the update carries the
    content already stored. *)
Definition add_tag (memory_id : Z) (tag : string) (now : Z) : M bool :=
  memory <- MemoryDB.get_memory memory_id ;;
  match memory with
  | None => ret false
  | Some m =>
      MemoryDB.update_memory memory_id (MemoryDB.content m) "user"
        (Some ("Added tag: " +:+ tag)) now
  end.

Definition remove_tag (memory_id : Z) (tag : string) : M bool :=
  memory <- MemoryDB.get_memory memory_id ;;
  match memory with
  | None => ret false
  | Some _ => ret false
  end.
End LongtermMemory.

(** ** [DailyLogger] ([src/core/daily_logger.py]) *)

Module DailyLogger.
Local Open Scope store_scope.

Definition EVENT_TYPES : list string :=
  ["milestone"; "task"; "decision"; "insight"; "problem"; "solution";
   "learning"; "note"; "reminder"; "achievement"].

(** [_validate_date] *)
Definition _validate_date {lib : Lib} (date : string) : M unit :=
  if strptime_ok date then ret tt
  else raise (ValueError ("无效的日期格式: " +:+ date +:+ "，期望 YYYY-MM-DD")).

Definition log_event {lib : Lib} (date event_type : string) (content : Content)
    (importance : Z) (tags : option (list string)) (now : Z) : M Z :=
  let event_type :=
    if bool_decide (event_type ∈ EVENT_TYPES) then event_type else "note" in
  _ <- _validate_date date ;;
  let event : Content :=
    [("type", JStr "daily_event");
     ("event_type", JStr event_type);
     ("title", default (JStr "无标题") (dict_get "title" content));
     ("description", default (JStr "") (dict_get "description" content));
     ("details", default (JDict []) (dict_get "details" content));
     ("date", JStr date);
     ("logged_at", JStr (isoformat now))] in
  MemoryDB.save_memory "daily" event None (Some date) importance
    (* tags or [event_type] *)
    (Some (match tags with Some (t :: ts) => t :: ts | _ => [event_type] end)) now.

(** An entry of [get_daily_log]. *)
Record Event : Type := mkEvent {
  e_id : Z;
  e_event_type : jvalue;
  e_title : jvalue;
  e_description : jvalue;
  e_details : jvalue;
  e_importance : Z;
  e_tags : list string;
  e_created_at : Z
}.

Definition event_of (m : MemoryDB.Memory) : Event :=
  let content := MemoryDB.content m in
  mkEvent (MemoryDB.id m) (get_or_null "event_type" content)
    (get_or_null "title" content) (get_or_null "description" content)
    (default (JDict []) (dict_get "details" content))
    (MemoryDB.importance m) (MemoryDB.tags m) (MemoryDB.created_at m).

Definition get_daily_log {lib : Lib} (date : string) : M (list Event) :=
  _ <- _validate_date date ;;
  memories <- MemoryDB.get_memories (Some "daily") None (Some date) 1000 0 ;;
  let events :=
    map event_of
      (List.filter (λ m, get_is_str "type" (MemoryDB.content m) "daily_event")
                   memories) in
  (* sorted(events, key=created_at) *)
  ret (order_by e_created_at events).
End DailyLogger.

(** ** [SessionManager] ([src/core/session_manager.py]) *)

Module SessionManager.
Local Open Scope store_scope.

(** [max(0, min(10, importance))] *)
Definition clamp (importance : Z) : Z := Z.max 0 (Z.min 10 importance).

Definition truthy_key (key : string) (context : Content) : bool :=
  match dict_get key context with
  | Some v => truthy_value v
  | None => false
  end.

Definition _calculate_importance (context : Content) : Z :=
  let importance := 5 in
  let importance :=
    if truthy_key "important_topics" context then importance + 2 else importance in
  let importance :=
    if truthy_key "pending_actions" context then importance + 1 else importance in
  let importance :=
    if truthy_key "mood" context then importance + 1 else importance in
  clamp importance.

Definition important_keywords : list string :=
  ["重要"; "记住"; "关键"; "里程碑"; "目标"; "永久"].

Definition _calculate_conversation_importance (user_message : string) : Z :=
  let importance := 3 in
  let importance :=
    if existsb (λ keyword, str_contains keyword user_message) important_keywords
    then importance + 2 else importance in
  clamp importance.

Definition save_conversation {lib : Lib} (session_id user_message
    assistant_response : string) (timestamp : option string) (now : Z) : M Z :=
  let conversation : Content :=
    [("type", JStr "conversation");
     ("user_message", JStr user_message);
     ("assistant_response", JStr assistant_response);
     ("timestamp",
      JStr (if truthy_opt_str timestamp then default "" timestamp
            else isoformat now))] in
  MemoryDB.save_memory "session" conversation (Some session_id) None
    (_calculate_conversation_importance user_message) None now.

(** An entry of [get_conversation_history]. *)
Record Conversation : Type := mkConversation {
  c_id : Z;
  c_session_id : option string;
  c_user_message : jvalue;
  c_assistant_response : jvalue;
  c_timestamp : jvalue;
  c_created_at : Z
}.

Definition conversation_of (m : MemoryDB.Memory) : Conversation :=
  let content := MemoryDB.content m in
  mkConversation (MemoryDB.id m) (MemoryDB.session_id m)
    (get_or_null "user_message" content)
    (get_or_null "assistant_response" content)
    (get_or_null "timestamp" content) (MemoryDB.created_at m).

Definition get_conversation_history (session_id : option string) (limit : Z)
    : M (list Conversation) :=
  memories <- MemoryDB.get_memories (Some "session") session_id None limit 0 ;;
  ret (map conversation_of
         (List.filter (λ m, get_is_str "type" (MemoryDB.content m) "conversation")
                      memories)).
End SessionManager.

(** * Specification vocabulary

    The notions the properties are stated with, and the stores and worlds
    used as examples. *)

(** The order of [ORDER BY key ASC]. *)
Definition key_le {A} (key : A → Z) (a b : A) : Prop := key a ≤ key b.

(** The version rows of one record, in rowid order. *)
Definition versions_of (memory_id : Z) (d : DB) : list VersionRow :=
  List.filter (λ v, v_memory_id v =? memory_id) (versions d).

(** The largest version number of a record; 0 when it has none. *)
Definition max_version (memory_id : Z) (d : DB) : Z :=
  default 0 (sql_max (map v_version (versions_of memory_id d))).

(** The current row of a record, if it is live. *)
Definition live (memory_id : Z) (d : DB) : option MemoryRow :=
  List.find (MemoryDB.live_row memory_id) (memories d).

(** Invariants of the schema (primary keys, the foreign key of [versions])
    and of the write paths (version numbers are not reused, stored content is
    never empty). *)
Definition wf (d : DB) : Prop :=
  Forall (λ r, m_id r ≤ seq_memories d) (memories d) ∧
  NoDup (map m_id (memories d)) ∧
  Forall (λ v, v_id v ≤ seq_versions d) (versions d) ∧
  NoDup (map v_id (versions d)) ∧
  Forall (λ v, v_memory_id v ∈ map m_id (memories d)) (versions d) ∧
  NoDup (map (λ v, (v_memory_id v, v_version v)) (versions d)) ∧
  Forall (λ v, truthy_dict (v_content v) = true) (versions d).

#[global] Instance wf_dec d : Decision (wf d).
Proof. unfold wf. apply _. Defined.

Definition valid_create (memory_type : string) (content : Content) (importance : Z) : Prop :=
  truthy_dict content = true ∧ valid_memory_type memory_type = true ∧
  0 ≤ importance ≤ 10.

(** The state left by a successful [save_memory]. *)
Definition created (memory_type : string) (content : Content)
    (session_id date : option string) (importance : Z)
    (tags : option (list string)) (now : Z) (d : DB) : DB :=
  mkDB
    (memories d ++
       [mkMemoryRow (seq_memories d + 1) memory_type session_id date content
          importance
          (match tags with Some (t :: ts) => Some (join_comma (t :: ts)) | _ => None end)
          now now 0])
    (versions d ++
       [mkVersionRow (seq_versions d + 1) (seq_memories d + 1) 1 content "system"
          (Some "Initial creation") now])
    (backups d) (seq_memories d + 1) (seq_versions d + 1) (seq_backups d)
    (has_description d).

(** The state left by an [update_memory] that found the record. *)
Definition updated (memory_id : Z) (content : Content) (changed_by : string)
    (change_reason : option string) (now : Z) (d : DB) : DB :=
  mkDB
    (map (λ r, if MemoryDB.live_row memory_id r
               then MemoryDB.set_content content now r else r) (memories d))
    (versions d ++
       [mkVersionRow (seq_versions d + 1) memory_id (max_version memory_id d + 1)
          content changed_by change_reason now])
    (backups d) (seq_memories d) (seq_versions d + 1) (seq_backups d)
    (has_description d).

(** One [update] call on a record: its arguments and the clock. *)
Record UpdateCall : Type := mkUpdateCall {
  u_content : Content;
  u_changed_by : string;
  u_change_reason : option string;
  u_now : Z
}.

(** A sequence of [update] calls on one record, each of which returns
    [True]; [None] as soon as one does not. *)
Fixpoint run_updates (memory_id : Z) (us : list UpdateCall) (d : DB) : option DB :=
  match us with
  | [] => Some d
  | u :: us' =>
      match MemoryDB.update_memory memory_id (u_content u) (u_changed_by u)
              (u_change_reason u) (u_now u) d with
      | (Ok true, d') => run_updates memory_id us' d'
      | _ => None
      end
  end.

Definition doc (title : string) : Content := [("title", JStr title)].

(** A store with one record and two versions of it. *)
Definition store_v2 : DB :=
  updated 1 (doc "b") "user" None 2
    (created "daily" (doc "a") None None 0 None 1 empty_db).


(** One [queue_save] call. *)
Record SaveCall : Type := mkSaveCall {
  q_memory_type : string;
  q_content : Content;
  q_kwargs : PersistenceService.Kwargs;
  q_now : Z
}.

Definition item_of (q : SaveCall) : PersistenceService.Item :=
  PersistenceService.mkItem (q_memory_type q) (q_content q) (q_kwargs q) (q_now q).

Definition queue_call (q : SaveCall) (s : PersistenceService.Service) (d : DB)
    : bool * PersistenceService.Service * DB :=
  PersistenceService.queue_save (q_memory_type q) (q_content q) (q_kwargs q)
    (q_now q) s d.

(** [queue_save] called once per element, in order. *)
Fixpoint queue_all (calls : list SaveCall) (s : PersistenceService.Service) (d : DB)
    : PersistenceService.Service * DB :=
  match calls with
  | [] => (s, d)
  | q :: rest => let '(_, s', d') := queue_call q s d in queue_all rest s' d'
  end.

(** What a record row holds of the request that created it. *)
Record Payload : Type := mkPayload {
  p_memory_type : string;
  p_content : Content;
  p_session_id : option string;
  p_date : option string;
  p_importance : Z;
  p_tags : option string
}.

Definition payload_of_row (r : MemoryRow) : Payload :=
  mkPayload (m_memory_type r) (m_content r) (m_session_id r) (m_date r)
            (m_importance r) (m_tags r).

Definition payload_of_item (i : PersistenceService.Item) : Payload :=
  let k := PersistenceService.i_kwargs i in
  mkPayload (PersistenceService.i_memory_type i) (PersistenceService.i_content i)
    (PersistenceService.k_session_id k) (PersistenceService.k_date k)
    (default 0 (PersistenceService.k_importance k))
    (match PersistenceService.k_tags k with
     | Some (t :: ts) => Some (join_comma (t :: ts))
     | _ => None
     end).

(** The items on which [save_memory] does not raise. *)
Definition valid_item (i : PersistenceService.Item) : Prop :=
  valid_create (PersistenceService.i_memory_type i) (PersistenceService.i_content i)
    (default 0 (PersistenceService.k_importance (PersistenceService.i_kwargs i))).

Definition payloads (d : DB) : list Payload := map payload_of_row (memories d).

Definition call (title : string) (at_ : Z) : SaveCall :=
  mkSaveCall "session" (doc title)
    (PersistenceService.mkKwargs None None None None) at_.

(** A stand-in platform for the examples; the theorems hold for every
    platform. *)
Definition example_md5 (c : data) : string :=
  match c with
  | Image d => "db-" +:+ pretty (Z.of_nat (length (memories d)))
               +:+ "-" +:+ pretty (Z.of_nat (length (backups d)))
  | Raw bytes => "raw-" +:+ pretty (Z.of_nat (length bytes))
  end.

Definition example_os : OS :=
  mkOS example_md5
       (λ c, match c with Image _ => 4096 | Raw bytes => Z.of_nat (length bytes) end)
       (λ now, pretty now)
       (λ _, "error")
       9223372036854775.

(** The world left by a successful restore of a file holding [c]. *)
Definition restored (c : data) (w : World) : World :=
  mkWorld (<[db_path w := File c]> (fs w)) (db_path w) (backup_dir w)
          (Some (view_of c)) (locks w).

(** A catalogue with one completed backup, recorded with the digest of an
    empty database. *)
Definition backup1 : BackupRow :=
  mkBackupRow 1 "manual" "backups/b1.db" (Some 4096) (Some "db-0-0") "completed" 5 None.

Definition catalogue1 : DB := mkDB [] [] [backup1] 0 0 1 false.

Definition world_with (backup_file : option node) : World :=
  mkWorld
    (match backup_file with
     | Some n => <["backups/b1.db" := n]> {["live.db" := File (Image catalogue1)]}
     | None => {["live.db" := File (Image catalogue1)]}
     end)
    "live.db" "backups" (Some (Tables catalogue1)) [].

(** The backup file of [backup1] intact, and with other bytes in it. *)
Definition world_intact : World := world_with (Some (File (Image empty_db))).
Definition world_corrupt : World := world_with (Some (File (Raw [1; 2; 3]))).
Definition world_missing : World := world_with None.

(** The timeouts that [Lock.acquire] accepts: those that are, in the
    nanoseconds of the interpreter, [-1] second or between 0 and
    [PY_TIMEOUT_MAX] microseconds. *)
Definition accepted_timeout {os : OS} (timeout : number) : Prop :=
  ∃ t, _PyTime_FromSecondsObject timeout = Ok t
       ∧ (t = unset_timeout ∨ 0 ≤ t ∧ _PyTime_AsMicroseconds t ≤ PY_TIMEOUT_MAX).

(** The exceptions of the argument check of [Lock.acquire]. *)
Definition refusal (e : exn) : Prop :=
  (∃ msg, e = ValueError msg) ∨ e = OverflowError.

(** [30.0], the default timeout, and some other timeouts. *)
Definition default_timeout : number := PyFloat (float_of 30 0).
Definition minus_two : number := PyFloat (float_of (-2) 0).
Definition nearly_minus_one : number :=
  PyFloat (S754_finite true 9007199253840272 (-53)).

(** A store whose [backups] table has the [description] column, with its
    file, and no backup yet. *)
Definition catalogue0 : DB := mkDB [] [] [] 0 0 0 true.

Definition world0 : World :=
  mkWorld {["live.db" := File (Image catalogue0)]} "live.db" "backups"
          (Some (Tables catalogue0)) [true; true].











(** Two completed backups and a more recent failed one. *)
Definition catalogue_failed : DB :=
  mkDB [] []
    [mkBackupRow 1 "manual" "backups/b1.db" (Some 4096) (Some "db-0-0") "completed" 10 None;
     mkBackupRow 2 "manual" "backups/b2.db" (Some 4096) (Some "db-0-1") "completed" 20 None;
     mkBackupRow 3 "manual" "backups/b3.db" None None "failed" 30 (Some "error")]
    0 0 3 true.

Definition world_failed : World :=
  mkWorld
    (<["backups/b1.db" := File (Image catalogue0)]>
       (<["backups/b2.db" := File (Image catalogue0)]>
          {["live.db" := File (Image catalogue_failed)]}))
    "live.db" "backups" (Some (Tables catalogue_failed)) [].

(** ** Vocabulary of the further properties *)

(** Whether a tag holds the separator of the [tags] column. *)
Fixpoint has_comma (s : string) : bool :=
  match s with
  | EmptyString => false
  | String c rest => Ascii.eqb c ","%char || has_comma rest
  end.

(** A call of one of the write paths of the record store. *)
Inductive Op : Type :=
  | OpSave (memory_type : string) (content : Content)
           (session_id date : option string) (importance : Z)
           (tags : option (list string)) (now : Z)
  | OpUpdate (memory_id : Z) (content : Content) (changed_by : string)
             (change_reason : option string) (now : Z)
  | OpDelete (memory_id : Z) (permanent : bool)
  | OpRestore (version_id : Z) (now : Z)
  | OpRollback (memory_id version : Z) (now : Z).

(** The store after the call, whether it returned or raised. *)
Definition run_op (op : Op) (d : DB) : DB :=
  match op with
  | OpSave mt c sid dt imp tg now => snd (MemoryDB.save_memory mt c sid dt imp tg now d)
  | OpUpdate id c by_ r now => snd (MemoryDB.update_memory id c by_ r now d)
  | OpDelete id permanent => snd (MemoryDB.delete_memory id permanent d)
  | OpRestore vid now => snd (MemoryDB.restore_version vid now d)
  | OpRollback id v now => snd (VersioningService.rollback_to_version id v now d)
  end.

Definition run_ops (ops : list Op) (d : DB) : DB :=
  fold_left (λ d op, run_op op d) ops d.

(** The order of [ORDER BY key DESC]. *)
Definition key_ge {A} (key : A → Z) (a b : A) : Prop := key b ≤ key a.

(** A store with two records: the one of [store_v2] and a later one. *)
Definition store_two : DB :=
  created "daily" (doc "two") None None 0 None 2 store_v2.

(** The version an entry of [get_latest_versions] reports. *)
Definition entry_version (e : VersioningService.Latest) : VersionRow :=
  match e with
  | VersioningService.LatestOf v => v
  | VersioningService.LatestIn _ v _ _ => v
  end.

(** A version row that is the highest numbered one of its record. *)
Definition is_latest (v : VersionRow) (d : DB) : Prop :=
  v ∈ versions d ∧
  ∀ v', v' ∈ versions d → v_memory_id v' = v_memory_id v → v_version v' ≤ v_version v.

(** [force_flush] called once per clock reading, in order. *)
Fixpoint flush_each (times : list Z) (s : PersistenceService.Service) (d : DB)
    : PersistenceService.Service * DB :=
  match times with
  | [] => (s, d)
  | now :: rest =>
      let '(_, s', d') := PersistenceService.force_flush now s d in
      flush_each rest s' d'
  end.

(** [n] copies of a list, one after the other. *)
Fixpoint repeated {A} (n : nat) (l : list A) : list A :=
  match n with
  | O => []
  | S n' => l ++ repeated n' l
  end.

(** An item whose memory type [save_memory] refuses. *)
Definition refused_item : PersistenceService.Item :=
  PersistenceService.mkItem "nonsense" (doc "x")
    (PersistenceService.mkKwargs None None None None) 2.

(** A service whose queue holds a refused item between two good ones. *)
Definition blocked_service : PersistenceService.Service :=
  PersistenceService.mkService 10
    [item_of (call "a" 1); refused_item; item_of (call "c" 3)]
    false None 0 0 0 0.

(** A stand-in for the library functions of [Lib], for the examples: the
    directory is made when nothing is at the path, the clock reading is
    printed as a number, and a date is accepted when it has ten characters. *)
Definition example_lib : Lib :=
  mkLib (λ p f, (Ok tt, if path_exists f p then f else <[p := Dir]> f))
        (λ now, pretty now)
        (λ s, (String.length s =? 10)%nat).

(** The catalogue row of a completed backup of the file content [c]. *)
Definition completed_row {os : OS} (id : Z) (backup_type file_path : string)
    (c : data) (now : Z) (description : option string) : BackupRow :=
  mkBackupRow id backup_type file_path (Some (getsize c)) (Some (md5 c))
    "completed" now description.

(** The tables with one more catalogue row. *)
Definition catalogued (d : DB) (row : BackupRow) : DB :=
  set_backups d (backups d ++ [row]) (b_id row).

(** The AUTOINCREMENT invariant of the catalogue. *)
Definition backup_ids_bounded (d : DB) : Prop :=
  Forall (λ b, b_id b ≤ seq_backups d) (backups d).

(** The path [BackupService.create_backup] writes to at clock reading [now]. *)
Definition service_backup_path {os : OS} (w : World) (now : Z) : string :=
  path_join (backup_dir w) (BackupService._generate_backup_filename now +:+ ".db").

(** The path [MemoryDB.create_backup] writes to at clock reading [now]. *)
Definition memory_db_backup_path {os : OS} (now : Z) : string :=
  path_join "data/backups" ("backup_" +:+ strftime now +:+ ".db").

(** The world after a backup of the file content [c] was written to [path]
    and catalogued as [row], the tables being [d] before. *)
Definition backed_up (w : World) (d : DB) (path : string) (c : data)
    (row : BackupRow) (f : gmap string node) : World :=
  mkWorld (<[db_path w := File (Image (catalogued d row))]> (<[path := File c]> f))
          (db_path w) (backup_dir w) (Some (Tables (catalogued d row))) (locks w).

(** A world with nothing at the database path and no connection yet. *)
Definition world_fresh : World := mkWorld ∅ "live.db" "backups" None [].

(** A world in which [MemoryDB.create_backup] can run: the tables are
    committed to the database file and the directory of the backups is
    there. *)
Definition world_ready : World :=
  mkWorld (<["data/backups" := Dir]> {["live.db" := File (Image store_v2)]})
          "live.db" "data/backups" (Some (Tables store_v2)) [].

(** [store_v2] after an event of importance 9 was logged; its key is 2. *)
Definition store_logged : DB :=
  snd (DailyLogger.log_event (lib := example_lib) "2024-05-01" "task" (doc "t") 9
         None 3 store_v2).

(** The CHECK constraint of the [importance] column. *)
Definition importance_bounded (d : DB) : Prop :=
  Forall (λ r, 0 ≤ m_importance r ≤ 10) (memories d).

(** The keys [extract_and_archive] archives: those of a record that is not
    soft-deleted, holds a daily event and reaches the threshold. *)
Definition archivable (threshold : Z) (d : DB) (log_id : Z) : bool :=
  match live log_id d with
  | Some row =>
      get_is_str "type" (m_content row) "daily_event"
      && (threshold <=? m_importance row)
  | None => false
  end.

(** The event type [log_event] stores. *)
Definition stored_event_type (event_type : string) : string :=
  if bool_decide (event_type ∈ DailyLogger.EVENT_TYPES) then event_type else "note".

(** * Properties *)

(** ** Generic facts: ORDER BY, MAX, row lookup *)

Section OrderByFacts.
Context {A : Type} (key : A → Z).

Lemma insert_by_perm x l : insert_by key x l ≡ₚ x :: l.
Proof.
  induction l as [|y l IH]; simpl; [done|].
  destruct (key x <=? key y); [done|].
  rewrite IH. apply Permutation_swap.
Qed.

Lemma order_by_perm l : order_by key l ≡ₚ l.
Proof.
  induction l as [|x l IH]; simpl; [done|].
  by rewrite insert_by_perm, IH.
Qed.

Lemma insert_by_sorted x l :
  StronglySorted (key_le key) l → StronglySorted (key_le key) (insert_by key x l).
Proof.
  induction 1 as [|y l Hs IH Hy]; simpl.
  - repeat constructor.
  - destruct (Z.leb_spec (key x) (key y)) as [Hle|Hlt].
    + constructor; [by constructor|].
      constructor; [done|].
      eapply Forall_impl; [exact Hy|]. unfold key_le. intros; lia.
    + constructor; [done|].
      rewrite insert_by_perm. constructor; [unfold key_le; lia|done].
Qed.

Lemma order_by_sorted l : StronglySorted (key_le key) (order_by key l).
Proof.
  induction l; simpl; [constructor|]. by apply insert_by_sorted.
Qed.

(** A list that is already in order is returned as it is. *)
Lemma order_by_id l : StronglySorted (key_le key) l → order_by key l = l.
Proof.
  induction 1 as [|y l Hs IH Hy]; simpl; [done|].
  rewrite IH. destruct Hy as [|z l Hz _]; simpl; [done|].
  unfold key_le in Hz. by rewrite (proj2 (Z.leb_le _ _) Hz).
Qed.

Lemma order_by_length l : length (order_by key l) = length l.
Proof. apply Permutation_length, order_by_perm. Qed.
End OrderByFacts.

Lemma sql_max_snoc l x :
  Forall (λ y, y ≤ x) l → sql_max (l ++ [x]) = Some x.
Proof.
  destruct l as [|a l]; simpl; [done|].
  intros Hall. f_equal. apply Forall_cons in Hall as [Ha Hl].
  revert a Ha. induction Hl as [|b l Hb Hl IH]; intros a Ha; simpl.
  - lia.
  - apply IH. lia.
Qed.

Lemma fold_max_init l a : a ≤ fold_left Z.max l a.
Proof.
  revert a. induction l as [|b l IH]; intros a; simpl; [lia|].
  specialize (IH (Z.max a b)). lia.
Qed.

Lemma fold_max_elem l a x : x ∈ l → x ≤ fold_left Z.max l a.
Proof.
  revert a. induction l as [|b l IH]; intros a Hx; simpl.
  - by apply elem_of_nil in Hx.
  - apply elem_of_cons in Hx as [->|Hx]; [|by apply IH].
    pose proof (fold_max_init l (Z.max a b)). lia.
Qed.

Lemma sql_max_ge l m x : sql_max l = Some m → x ∈ l → x ≤ m.
Proof.
  destruct l as [|a l]; simpl; [done|].
  intros [= <-] Hx. apply elem_of_cons in Hx as [->|Hx].
  - apply fold_max_init.
  - by apply fold_max_elem.
Qed.

Lemma sql_max_None l : sql_max l = None → l = [].
Proof. by destruct l. Qed.

Lemma find_None_filter {A} (p : A → bool) l :
  List.find p l = None → List.filter p l = [].
Proof.
  induction l as [|x l IH]; simpl; [done|].
  destruct (p x); [done|]. exact IH.
Qed.

Lemma find_Some_filter {A} (p : A → bool) l x :
  List.find p l = Some x → ∃ l', List.filter p l = x :: l'.
Proof.
  induction l as [|y l IH]; simpl; [done|].
  destruct (p y); [intros [= ->]; eauto|]. exact IH.
Qed.

Lemma map_if_None {A} (p : A → bool) (f : A → A) l :
  List.find p l = None → map (λ r, if p r then f r else r) l = l.
Proof.
  induction l as [|x l IH]; simpl; [done|].
  destruct (p x); [done|]. intros H. by rewrite IH.
Qed.

Lemma find_map_if {A} (p : A → bool) (f : A → A) l :
  (∀ r, p (f r) = p r) →
  List.find p (map (λ r, if p r then f r else r) l) = f <$> List.find p l.
Proof.
  intros Hp. induction l as [|x l IH]; simpl; [done|].
  destruct (p x) eqn:Hx.
  - by rewrite Hp, Hx.
  - by rewrite Hx.
Qed.

Lemma find_app_None {A} (p : A → bool) l x :
  List.find p l = None → List.find p (l ++ [x]) = if p x then Some x else None.
Proof.
  induction l as [|y l IH]; simpl; [done|].
  destruct (p y); [done|]. exact IH.
Qed.

Lemma find_app_Some {A} (p : A → bool) l l' x :
  List.find p l = Some x → List.find p (l ++ l') = Some x.
Proof.
  induction l as [|y l IH]; simpl; [done|].
  destruct (p y); [done|]. exact IH.
Qed.

Lemma find_Forall_None {A} (p : A → bool) l :
  Forall (λ x, p x = false) l → List.find p l = None.
Proof. induction 1 as [|x l Hx _ IH]; simpl; [done|]. by rewrite Hx. Qed.

Lemma filter_Forall_nil {A} (p : A → bool) l :
  Forall (λ x, p x = false) l → List.filter p l = [].
Proof. induction 1 as [|x l Hx _ IH]; simpl; [done|]. by rewrite Hx. Qed.

(** Rebuilding a row from its columns gives the row. *)
Lemma version_row_eta l :
  map (λ row, mkVersionRow (v_id row) (v_memory_id row) (v_version row)
                (json_loads (v_content row)) (v_changed_by row)
                (v_change_reason row) (v_created_at row)) l = l.
Proof. induction l as [|[] l IH]; simpl; [done|]. by rewrite IH. Qed.

Lemma set_memories_id d : set_memories d (memories d) (seq_memories d) = d.
Proof. by destruct d. Qed.

(** ** The record store *)

Lemma save_memory_ok mt c sid dt imp tg now d :
  valid_create mt c imp →
  MemoryDB.save_memory mt c sid dt imp tg now d
  = (Ok (seq_memories d + 1), created mt c sid dt imp tg now d).
Proof.
  intros (Hc & Ht & Hi). unfold MemoryDB.save_memory.
  rewrite Hc, Ht. simpl.
  replace (imp <? 0) with false by lia.
  replace (imp >? 10) with false by lia.
  reflexivity.
Qed.

Lemma save_memory_invalid mt c sid dt imp tg now d :
  ¬ valid_create mt c imp →
  ∃ msg, MemoryDB.save_memory mt c sid dt imp tg now d = (Raise (ValueError msg), d).
Proof.
  intros Hn. unfold MemoryDB.save_memory.
  destruct (truthy_dict c) eqn:Hc; simpl; [|eauto].
  destruct (valid_memory_type mt) eqn:Ht; simpl; [|eauto].
  destruct ((imp <? 0) || (imp >? 10)) eqn:Hi; [eauto|].
  exfalso. apply Hn. repeat split; [done|done|lia|lia].
Qed.

Lemma save_memory_inv mt c sid dt imp tg now d id d1 :
  MemoryDB.save_memory mt c sid dt imp tg now d = (Ok id, d1) →
  valid_create mt c imp ∧ id = seq_memories d + 1
  ∧ d1 = created mt c sid dt imp tg now d.
Proof.
  intros H. destruct (decide (valid_create mt c imp)) as [Hv|Hv].
  - rewrite (save_memory_ok _ _ _ _ _ _ _ _ Hv) in H. by injection H as <- <-.
  - destruct (save_memory_invalid mt c sid dt imp tg now d Hv) as [msg Hm].
    congruence.
Qed.

Lemma update_memory_empty id c by_ r now d :
  truthy_dict c = false →
  MemoryDB.update_memory id c by_ r now d
  = (Raise (ValueError "更新内容不能为空"), d).
Proof. intros Hc. unfold MemoryDB.update_memory. by rewrite Hc. Qed.

Lemma update_memory_missing id c by_ r now d :
  truthy_dict c = true → live id d = None →
  MemoryDB.update_memory id c by_ r now d = (Ok false, d).
Proof.
  intros Hc Hl. unfold MemoryDB.update_memory. rewrite Hc. simpl.
  unfold bind, MemoryDB.select_max_version, transaction, MemoryDB.update_content.
  unfold live in Hl. rewrite (find_None_filter _ _ Hl). simpl.
  unfold ret. rewrite (map_if_None _ _ _ Hl). by rewrite set_memories_id.
Qed.

Lemma update_memory_live id c by_ r now d row :
  truthy_dict c = true → live id d = Some row →
  MemoryDB.update_memory id c by_ r now d = (Ok true, updated id c by_ r now d).
Proof.
  intros Hc Hl. unfold MemoryDB.update_memory. rewrite Hc. simpl.
  unfold bind, MemoryDB.select_max_version, transaction, MemoryDB.update_content.
  unfold live in Hl. destruct (find_Some_filter _ _ _ Hl) as [l' ->].
  change (length (row :: l')) with (S (length l')).
  destruct (Z.eqb_spec (Z.of_nat (S (length l'))) 0) as [Hz|_]; [lia|].
  reflexivity.
Qed.

(** [update_memory] returns [True] exactly when the content is not empty and
    the record is live. *)
Lemma update_memory_true_inv id c by_ r now d d' :
  MemoryDB.update_memory id c by_ r now d = (Ok true, d') →
  truthy_dict c = true ∧ (∃ row, live id d = Some row)
  ∧ d' = updated id c by_ r now d.
Proof.
  intros H. destruct (truthy_dict c) eqn:Hc.
  - destruct (live id d) as [row|] eqn:Hl.
    + rewrite (update_memory_live _ _ _ _ _ _ _ Hc Hl) in H.
      injection H as <-. eauto.
    + rewrite (update_memory_missing _ _ _ _ _ _ Hc Hl) in H. done.
  - rewrite (update_memory_empty _ _ _ _ _ _ Hc) in H. done.
Qed.

Lemma get_versions_eq id d :
  MemoryDB.get_versions id d = (Ok (order_by v_version (versions_of id d)), d).
Proof. unfold MemoryDB.get_versions. by rewrite version_row_eta. Qed.

Lemma get_memory_live id d row :
  live id d = Some row →
  ∃ m, MemoryDB.get_memory id d = (Ok (Some m), d)
       ∧ MemoryDB.content m = m_content row ∧ MemoryDB.id m = m_id row.
Proof.
  intros Hl. unfold MemoryDB.get_memory. unfold live in Hl. rewrite Hl. eauto.
Qed.

Lemma get_memory_missing id d :
  live id d = None → MemoryDB.get_memory id d = (Ok None, d).
Proof. intros Hl. unfold MemoryDB.get_memory. unfold live in Hl. by rewrite Hl. Qed.

(** A fresh key is above every key in use, so no row mentions it. *)
Lemma fresh_live d :
  wf d → List.find (MemoryDB.live_row (seq_memories d + 1)) (memories d) = None.
Proof.
  intros (Hm & _). apply find_Forall_None.
  eapply Forall_impl; [exact Hm|]. intros r Hr. unfold MemoryDB.live_row. simpl in Hr.
  replace (m_id r =? seq_memories d + 1) with false by lia. done.
Qed.

Lemma fresh_versions d :
  wf d → versions_of (seq_memories d + 1) d = [].
Proof.
  intros (Hm & _ & _ & _ & Hfk & _). apply filter_Forall_nil.
  eapply Forall_impl; [exact Hfk|]. intros v Hv. simpl in Hv.
  apply list_elem_of_fmap in Hv as (r & Hr & Hin).
  rewrite Forall_forall in Hm. specialize (Hm r Hin). simpl in Hm. lia.
Qed.

Lemma versions_of_snoc id d v s :
  versions_of id (set_versions d (versions d ++ [v]) s)
  = versions_of id d ++ (if v_memory_id v =? id then [v] else []).
Proof. unfold versions_of. simpl. by rewrite List.filter_app. Qed.

Lemma live_created mt c sid dt imp tg now d :
  wf d →
  ∃ row, live (seq_memories d + 1) (created mt c sid dt imp tg now d) = Some row
         ∧ m_content row = c.
Proof.
  intros Hwf. unfold live, created. simpl.
  rewrite (find_app_None _ _ _ (fresh_live d Hwf)).
  unfold MemoryDB.live_row. simpl. rewrite Z.eqb_refl. simpl. eauto.
Qed.

Lemma versions_of_created mt c sid dt imp tg now d :
  wf d →
  versions_of (seq_memories d + 1) (created mt c sid dt imp tg now d)
  = [mkVersionRow (seq_versions d + 1) (seq_memories d + 1) 1 c "system"
       (Some "Initial creation") now].
Proof.
  intros Hwf. unfold versions_of, created. simpl. rewrite List.filter_app.
  fold (versions_of (seq_memories d + 1) d). rewrite (fresh_versions d Hwf).
  simpl. by rewrite Z.eqb_refl.
Qed.

Lemma live_updated id c by_ r now d row :
  live id d = Some row →
  live id (updated id c by_ r now d) = Some (MemoryDB.set_content c now row).
Proof.
  intros Hl. unfold live, updated. simpl.
  rewrite find_map_if; [|done]. unfold live in Hl. by rewrite Hl.
Qed.

Lemma versions_of_updated id c by_ r now d :
  versions_of id (updated id c by_ r now d)
  = versions_of id d
    ++ [mkVersionRow (seq_versions d + 1) id (max_version id d + 1) c by_ r now].
Proof.
  unfold versions_of, updated. simpl. rewrite List.filter_app. simpl.
  by rewrite Z.eqb_refl.
Qed.

Lemma sorted_of_seqZ {A} (key : A → Z) l a n :
  map key l = seqZ a n → StronglySorted (key_le key) l.
Proof.
  revert a n. induction l as [|x l IH]; intros a n Hl; [constructor|].
  simpl in Hl. destruct (decide (0 < n)) as [Hn|Hn].
  - rewrite seqZ_cons in Hl by done. injection Hl as Hx Hl.
    constructor; [by eapply IH|].
    apply Forall_forall. intros y Hy. unfold key_le.
    assert (key y ∈ seqZ (Z.succ a) (Z.pred n)) as Hk.
    { rewrite <- Hl. apply list_elem_of_fmap. eauto. }
    apply elem_of_seqZ in Hk. lia.
  - rewrite seqZ_nil in Hl by lia. done.
Qed.

Lemma sql_max_seqZ n : 1 ≤ n → sql_max (seqZ 1 n) = Some n.
Proof.
  intros Hn. replace n with (Z.of_nat (S (Z.to_nat (n - 1)))) at 1 by lia.
  rewrite seqZ_S. replace (1 + Z.of_nat (Z.to_nat (n - 1))) with n by lia.
  apply sql_max_snoc. apply Forall_forall. intros y Hy.
  apply elem_of_seqZ in Hy. lia.
Qed.

Lemma seqZ_snoc n : 0 ≤ n → seqZ 1 n ++ [n + 1] = seqZ 1 (n + 1).
Proof.
  intros Hn. replace (n + 1) with (Z.of_nat (S (Z.to_nat n))) at 2 by lia.
  rewrite seqZ_S. rewrite Z2Nat.id by lia. f_equal. f_equal. lia.
Qed.


Lemma run_updates_spec id us :
  ∀ d row n d2,
    live id d = Some row →
    map v_version (versions_of id d) = seqZ 1 n → 1 ≤ n →
    run_updates id us d = Some d2 →
    map v_version (versions_of id d2) = seqZ 1 (n + Z.of_nat (length us))
    ∧ map v_content (versions_of id d2)
      = map v_content (versions_of id d) ++ map u_content us
    ∧ ∃ row2, live id d2 = Some row2
              ∧ m_content row2 = default (m_content row) (u_content <$> last us).
Proof.
  induction us as [|u us IH]; intros d row n d2 Hl Hv Hn Hrun; simpl in Hrun.
  - injection Hrun as <-. simpl. rewrite Z.add_0_r, app_nil_r. eauto.
  - destruct (MemoryDB.update_memory id (u_content u) (u_changed_by u)
                (u_change_reason u) (u_now u) d) as [[[|]|] d'] eqn:Hu; try done.
    apply update_memory_true_inv in Hu as (Hc & _ & ->).
    assert (max_version id d = n) as Hmax.
    { unfold max_version. by rewrite Hv, sql_max_seqZ. }
    eapply (IH _ (MemoryDB.set_content (u_content u) (u_now u) row) (n + 1))
      in Hrun as (Hv2 & Hc2 & row2 & Hl2 & Hr2).
    + split; [|split].
      * rewrite Hv2. simpl length. f_equal. lia.
      * rewrite Hc2, versions_of_updated, map_app. simpl. by rewrite <- app_assoc.
      * exists row2. split; [done|]. rewrite Hr2, last_cons.
        by destruct (last us).
    + by apply live_updated.
    + rewrite versions_of_updated, map_app, Hv. simpl. rewrite Hmax.
      apply seqZ_snoc. lia.
    + lia.
Qed.

(** On a live record every update with non-empty content returns [True]. *)
Lemma run_updates_total id us :
  ∀ d, is_Some (live id d) →
       Forall (λ u, truthy_dict (u_content u) = true) us →
       is_Some (run_updates id us d).
Proof.
  induction us as [|u us IH]; intros d [row Hl] Hall; simpl; [eauto|].
  apply Forall_cons in Hall as [Hu Hall].
  rewrite (update_memory_live _ _ _ _ _ _ _ Hu Hl).
  apply IH; [|done]. erewrite live_updated; eauto.
Qed.

(** C1: creation followed by N successful updates leaves exactly N+1 ledger
    entries for the record, numbered 1..N+1 in increasing order (version 1
    from the creation, each update one above the largest so far), holding the
    created content and then each update's content; the record's current
    content is that of the last update. *)
Theorem C1_version_ledger_sequence mt c sid dt imp tg now d id d1 us d2 :
  wf d →
  MemoryDB.save_memory mt c sid dt imp tg now d = (Ok id, d1) →
  run_updates id us d1 = Some d2 →
  ∃ vs m,
    MemoryDB.get_versions id d2 = (Ok vs, d2)
    ∧ length vs = S (length us)
    ∧ map v_version vs = seqZ 1 (Z.of_nat (length us) + 1)
    ∧ map v_content vs = c :: map u_content us
    ∧ MemoryDB.get_memory id d2 = (Ok (Some m), d2)
    ∧ MemoryDB.content m = default c (u_content <$> last us).
Proof.
  intros Hwf Hsave Hrun.
  apply save_memory_inv in Hsave as (_ & -> & ->).
  destruct (live_created mt c sid dt imp tg now d Hwf) as (row & Hl & Hrow).
  pose proof (versions_of_created mt c sid dt imp tg now d Hwf) as Hv.
  eapply (run_updates_spec _ _ _ _ 1) in Hrun as (Hv2 & Hc2 & row2 & Hl2 & Hr2);
    [|exact Hl|by rewrite Hv|lia].
  destruct (get_memory_live _ _ _ Hl2) as (m & Hget & Hm & _).
  exists (versions_of (seq_memories d + 1) d2), m.
  rewrite get_versions_eq.
  rewrite (order_by_id v_version _ (sorted_of_seqZ _ _ _ _ Hv2)).
  split; [done|]. split.
  { rewrite <- (length_map v_version), Hv2, length_seqZ. lia. }
  split; [rewrite Hv2; f_equal; lia|].
  split; [by rewrite Hc2, Hv|].
  split; [done|]. by rewrite Hm, Hr2, Hrow.
Qed.

Lemma C1_version_ledger_sequence_witness :
  ∃ vs m,
    MemoryDB.get_versions 1
      (updated 1 (doc "c") "user" None 3
         (updated 1 (doc "b") "user" None 2
            (created "daily" (doc "a") None None 0 None 1 empty_db)))
    = (Ok vs, updated 1 (doc "c") "user" None 3
                (updated 1 (doc "b") "user" None 2
                   (created "daily" (doc "a") None None 0 None 1 empty_db)))
    ∧ length vs = 3%nat
    ∧ map v_version vs = [1; 2; 3]
    ∧ map v_content vs = [doc "a"; doc "b"; doc "c"]
    ∧ MemoryDB.get_memory 1
        (updated 1 (doc "c") "user" None 3
           (updated 1 (doc "b") "user" None 2
              (created "daily" (doc "a") None None 0 None 1 empty_db)))
      = (Ok (Some m), updated 1 (doc "c") "user" None 3
                        (updated 1 (doc "b") "user" None 2
                           (created "daily" (doc "a") None None 0 None 1 empty_db)))
    ∧ MemoryDB.content m = doc "c".
Proof.
  apply (C1_version_ledger_sequence "daily" (doc "a") None None 0 None 1 empty_db 1
           (created "daily" (doc "a") None None 0 None 1 empty_db)
           [mkUpdateCall (doc "b") "user" None 2; mkUpdateCall (doc "c") "user" None 3]).
  - vm_compute. repeat split; constructor.
  - reflexivity.
  - reflexivity.
Defined.

(** C2: a create call with empty content, an unknown kind or an importance
    outside [0,10] raises the validation error ([ValueError]) and leaves the
    store as it was: no record row and no version row is inserted. *)
Theorem C2_create_rejects_invalid mt c sid dt imp tg now d :
  truthy_dict c = false ∨ valid_memory_type mt = false ∨ imp < 0 ∨ 10 < imp →
  ∃ msg,
    MemoryDB.save_memory mt c sid dt imp tg now d = (Raise (ValueError msg), d).
Proof.
  intros H. apply save_memory_invalid. intros (Hc & Ht & Hi).
  destruct H as [H|[H|[H|H]]]; [congruence|congruence|lia|lia].
Qed.

(** The scenario of the specification: kind [longterm], importance 12. *)
Lemma C2_create_rejects_invalid_witness :
  ∃ msg,
    MemoryDB.save_memory "longterm" (doc "x") None None 12 None 0 empty_db
    = (Raise (ValueError msg), empty_db).
Proof.
  apply (C2_create_rejects_invalid "longterm" (doc "x") None None 12 None 0 empty_db).
  right. right. right. lia.
Defined.

(** C3, as the code has it: an update of an id with no live record does not
    raise a not-found error.  With non-empty content it returns [False]; with
    empty content it raises the validation error.  In both cases the store,
    and with it the version ledger, is unchanged. *)
Theorem C3_update_missing_returns_false id c by_ r now d :
  live id d = None →
  MemoryDB.update_memory id c by_ r now d
  = (if truthy_dict c then Ok false else Raise (ValueError "更新内容不能为空"), d)
  ∧ versions (snd (MemoryDB.update_memory id c by_ r now d)) = versions d.
Proof.
  intros Hl. destruct (truthy_dict c) eqn:Hc.
  - by rewrite (update_memory_missing _ _ _ _ _ _ Hc Hl).
  - by rewrite (update_memory_empty _ _ _ _ _ _ Hc).
Qed.

Lemma C3_update_missing_returns_false_witness :
  MemoryDB.update_memory 999 (doc "x") "user" None 0 empty_db = (Ok false, empty_db)
  ∧ versions (snd (MemoryDB.update_memory 999 (doc "x") "user" None 0 empty_db)) = [].
Proof.
  apply (C3_update_missing_returns_false 999 (doc "x") "user" None 0 empty_db).
  reflexivity.
Defined.

(** The claim as stated fails: on the nonexistent id 999 the call returns
    normally (the value [False]), nothing is raised; and with empty content
    what is raised is the validation error. *)
Lemma C3_counterexample :
  live 999 empty_db = None
  ∧ MemoryDB.update_memory 999 (doc "x") "user" None 0 empty_db = (Ok false, empty_db)
  ∧ (¬ ∃ e, fst (MemoryDB.update_memory 999 (doc "x") "user" None 0 empty_db)
            = Raise e)
  ∧ MemoryDB.update_memory 999 [] "user" None 0 empty_db
    = (Raise (ValueError "更新内容不能为空"), empty_db).
Proof.
  split; [reflexivity|]. split; [reflexivity|]. split; [|reflexivity].
  intros [e He]. vm_compute in He. discriminate He.
Qed.

(** C4, at the failing call: a soft delete raises [UnboundLocalError] before
    any statement runs; the store is unchanged, so the record is still
    returned by [get_memory]. *)
Theorem C4_soft_delete_raises id d :
  MemoryDB.delete_memory id false d = (Raise (UnboundLocalError "cursor"), d)
  ∧ MemoryDB.get_memory id (snd (MemoryDB.delete_memory id false d))
    = MemoryDB.get_memory id d.
Proof. done. Qed.

(** The permanent branch does what C4 says: the record row and all its
    version rows are removed. *)
Lemma delete_memory_permanent id d :
  ∃ r d', MemoryDB.delete_memory id true d = (Ok r, d')
    ∧ versions_of id d' = []
    ∧ Forall (λ row, m_id row ≠ id) (memories d')
    ∧ MemoryDB.get_memory id d' = (Ok None, d')
    ∧ MemoryDB.get_versions id d' = (Ok [], d').
Proof.
  unfold MemoryDB.delete_memory, bind, transaction, ret. simpl.
  eexists _, _. split; [reflexivity|].
  assert (versions_of id
    (set_memories
       (set_versions d (List.filter (λ v, negb (v_memory_id v =? id)) (versions d))
          (seq_versions d))
       (List.filter (λ r, negb (m_id r =? id)) (memories d))
       (seq_memories d)) = []) as Hv.
  { unfold versions_of. simpl. apply filter_Forall_nil.
    apply Forall_forall. intros v Hv. apply list_elem_of_In, filter_In in Hv as [_ Hv].
    by destruct (v_memory_id v =? id). }
  assert (Forall (λ row, m_id row ≠ id)
            (List.filter (λ r, negb (m_id r =? id)) (memories d))) as Hm.
  { apply Forall_forall. intros row Hr.
    apply list_elem_of_In, filter_In in Hr as [_ Hr].
    destruct (Z.eqb_spec (m_id row) id); done. }
  split; [exact Hv|]. split; [exact Hm|]. split.
  - apply get_memory_missing. unfold live. simpl. apply find_Forall_None.
    eapply Forall_impl; [exact Hm|]. intros row Hr. unfold MemoryDB.live_row.
    destruct (Z.eqb_spec (m_id row) id); done.
  - rewrite get_versions_eq. by rewrite Hv.
Qed.

(** C7: a valid create followed by a read of the returned id gives back the
    submitted content, and the ledger holds exactly one version of the record,
    numbered 1 and written by "system". *)
Theorem C7_create_then_read mt c sid dt imp tg now d :
  wf d →
  truthy_dict c = true → valid_memory_type mt = true → 0 ≤ imp ≤ 10 →
  ∃ id d1 m v,
    MemoryDB.save_memory mt c sid dt imp tg now d = (Ok id, d1)
    ∧ MemoryDB.get_memory id d1 = (Ok (Some m), d1)
    ∧ MemoryDB.id m = id
    ∧ MemoryDB.content m = c
    ∧ MemoryDB.get_versions id d1 = (Ok [v], d1)
    ∧ v_version v = 1
    ∧ v_changed_by v = "system"
    ∧ v_content v = c.
Proof.
  intros Hwf Hc Ht Hi.
  destruct (live_created mt c sid dt imp tg now d Hwf) as (row & Hl & Hrow).
  destruct (get_memory_live _ _ _ Hl) as (m & Hget & Hm & Hid).
  eexists _, _, m, _. split; [by apply save_memory_ok|].
  split; [exact Hget|]. split.
  { rewrite Hid. unfold live, created in Hl. simpl in Hl.
    rewrite (find_app_None _ _ _ (fresh_live d Hwf)) in Hl.
    unfold MemoryDB.live_row in Hl. simpl in Hl. rewrite Z.eqb_refl in Hl.
    simpl in Hl. by injection Hl as <-. }
  split; [by rewrite Hm|]. split.
  { rewrite get_versions_eq, versions_of_created by done. reflexivity. }
  done.
Qed.

Lemma C7_create_then_read_witness :
  ∃ id d1 m v,
    MemoryDB.save_memory "session" (doc "hello") (Some "s1") None 10 (Some ["t"]) 7
      empty_db = (Ok id, d1)
    ∧ MemoryDB.get_memory id d1 = (Ok (Some m), d1)
    ∧ MemoryDB.id m = id
    ∧ MemoryDB.content m = doc "hello"
    ∧ MemoryDB.get_versions id d1 = (Ok [v], d1)
    ∧ v_version v = 1
    ∧ v_changed_by v = "system"
    ∧ v_content v = doc "hello".
Proof.
  apply (C7_create_then_read "session" (doc "hello") (Some "s1") None 10 (Some ["t"]) 7
           empty_db).
  - vm_compute. repeat split; constructor.
  - reflexivity.
  - reflexivity.
  - lia.
Defined.

Lemma find_key_NoDup {A} (key : A → Z) l t :
  NoDup (map key l) → t ∈ l → List.find (λ x, key x =? key t) l = Some t.
Proof.
  induction l as [|x l IH]; intros Hnd Ht; [by apply elem_of_nil in Ht|].
  simpl in *. apply NoDup_cons in Hnd as [Hx Hnd].
  destruct (Z.eqb_spec (key x) (key t)) as [Heq|Hne].
  - apply elem_of_cons in Ht as [->|Ht]; [done|].
    exfalso. apply Hx. rewrite Heq. apply list_elem_of_fmap. eauto.
  - apply elem_of_cons in Ht as [->|Ht]; [done|]. by apply IH.
Qed.


Lemma find_elem_of {A} (p : A → bool) l x :
  List.find p l = Some x → x ∈ l ∧ p x = true.
Proof.
  intros H. apply find_some in H as [Hin Hp]. split; [|done].
  by apply list_elem_of_In.
Qed.

Lemma find_None_elem {A} (p : A → bool) l x :
  List.find p l = None → x ∈ l → p x = false.
Proof.
  intros H Hx. apply list_elem_of_In in Hx. exact (find_none _ _ H _ Hx).
Qed.

Lemma elem_of_versions_of id d v :
  v ∈ versions_of id d ↔ v ∈ versions d ∧ v_memory_id v = id.
Proof.
  unfold versions_of. rewrite !list_elem_of_In, filter_In.
  by destruct (Z.eqb_spec (v_memory_id v) id); intuition.
Qed.

Lemma elem_of_history id d v :
  v ∈ order_by v_version (versions_of id d) ↔ v ∈ versions d ∧ v_memory_id v = id.
Proof. by rewrite (order_by_perm v_version), elem_of_versions_of. Qed.

(** The only two outcomes of a rollback on a well-formed store. *)
Lemma rollback_cases id v now d :
  wf d →
  (VersioningService.rollback_to_version id v now d = (Ok false, d)
   ∧ ((∀ t, t ∈ versions d → v_memory_id t = id → v_version t ≠ v)
      ∨ live id d = None))
  ∨ (∃ t, t ∈ versions d ∧ v_memory_id t = id ∧ v_version t = v
          ∧ is_Some (live id d)
          ∧ VersioningService.rollback_to_version id v now d
            = (Ok true,
               updated id (v_content t) "system"
                 (Some ("Restored from version " +:+ pretty (v_id t))) now d)).
Proof.
  intros Hwf. unfold VersioningService.rollback_to_version, bind.
  rewrite get_versions_eq.
  destruct (List.find (λ x, v_version x =? v)
              (order_by v_version (versions_of id d))) as [t|] eqn:Hfind.
  - apply find_elem_of in Hfind as [Hin Hv].
    apply elem_of_history in Hin as [Hin Hid]. apply Z.eqb_eq in Hv.
    destruct Hwf as (_ & _ & _ & Hnd & _ & _ & Hcont).
    unfold MemoryDB.restore_version.
    rewrite (find_key_NoDup v_id _ t Hnd Hin). unfold json_loads.
    rewrite Forall_forall in Hcont. specialize (Hcont t Hin). simpl in Hcont.
    rewrite Hid. destruct (live id d) as [row|] eqn:Hl.
    + right. exists t. repeat split; [done..|eauto|].
      by rewrite (update_memory_live _ _ _ _ _ _ _ Hcont Hl).
    + left. split; [|by right].
      by rewrite (update_memory_missing _ _ _ _ _ _ Hcont Hl).
  - left. split; [done|]. left. intros t Hin Hid Hv.
    assert (t ∈ order_by v_version (versions_of id d)) as Ht
      by by apply elem_of_history.
    pose proof (find_None_elem _ _ _ Hfind Ht) as Hf. simpl in Hf. lia.
Qed.




(** *** The invariant is kept by every write path *)

Lemma wf_empty : wf empty_db.
Proof. repeat split; constructor. Qed.

Lemma wf_memory_id_bound d v :
  wf d → v ∈ versions d → v_memory_id v ≤ seq_memories d.
Proof.
  intros (Hm & _ & _ & _ & Hfk & _) Hv.
  rewrite Forall_forall in Hfk. specialize (Hfk v Hv). simpl in Hfk.
  apply list_elem_of_fmap in Hfk as (r & -> & Hr).
  rewrite Forall_forall in Hm. by apply Hm.
Qed.

Lemma NoDup_snoc_fresh {A} (l : list A) x : NoDup l → x ∉ l → NoDup (l ++ [x]).
Proof.
  intros Hl Hx. apply NoDup_app. split; [done|]. split.
  - intros y Hy Hy'. apply list_elem_of_singleton in Hy'. by subst.
  - apply NoDup_singleton.
Qed.

Lemma wf_created mt c sid dt imp tg now d :
  wf d → truthy_dict c = true → wf (created mt c sid dt imp tg now d).
Proof.
  intros Hwf Hc. pose proof (λ v, wf_memory_id_bound d v Hwf) as Hbound.
  destruct Hwf as (Hm & Hmn & Hv & Hvn & Hfk & Hpn & Hcont).
  unfold wf, created. simpl. rewrite !map_app. simpl.
  split; [|split; [|split; [|split; [|split; [|split]]]]].
  - apply Forall_app. split; [|by repeat constructor].
    eapply Forall_impl; [exact Hm|]. simpl. intros; lia.
  - apply NoDup_snoc_fresh; [done|]. intros Hin.
    apply list_elem_of_fmap in Hin as (r & Hr & Hin).
    rewrite Forall_forall in Hm. specialize (Hm r Hin). simpl in Hm. lia.
  - apply Forall_app. split; [|by repeat constructor].
    eapply Forall_impl; [exact Hv|]. simpl. intros; lia.
  - apply NoDup_snoc_fresh; [done|]. intros Hin.
    apply list_elem_of_fmap in Hin as (r & Hr & Hin).
    rewrite Forall_forall in Hv. specialize (Hv r Hin). simpl in Hv. lia.
  - apply Forall_app. split.
    + eapply Forall_impl; [exact Hfk|]. simpl. intros v Hin.
      apply elem_of_app. by left.
    + repeat constructor. simpl. apply elem_of_app. right. left.
  - apply NoDup_snoc_fresh; [done|]. intros Hin.
    apply list_elem_of_fmap in Hin as (v & Hv' & Hin). injection Hv' as Hid _.
    specialize (Hbound v Hin). lia.
  - apply Forall_app. split; [done|]. by repeat constructor.
Qed.

Lemma map_id_update id c now l :
  map m_id (map (λ r, if MemoryDB.live_row id r
                      then MemoryDB.set_content c now r else r) l) = map m_id l.
Proof.
  induction l as [|x l IH]; simpl; [done|].
  rewrite IH. by destruct (MemoryDB.live_row id x).
Qed.

Lemma wf_updated id c by_ r now d :
  wf d → truthy_dict c = true → is_Some (live id d) →
  wf (updated id c by_ r now d).
Proof.
  intros Hwf Hc [row Hl].
  destruct Hwf as (Hm & Hmn & Hv & Hvn & Hfk & Hpn & Hcont).
  unfold wf, updated. simpl. rewrite !map_app, map_id_update. simpl.
  split; [|split; [|split; [|split; [|split; [|split]]]]].
  - apply Forall_forall. intros x Hx.
    apply list_elem_of_fmap in Hx as (y & -> & Hy).
    rewrite Forall_forall in Hm. specialize (Hm y Hy). simpl in Hm.
    by destruct (MemoryDB.live_row id y).
  - done.
  - apply Forall_app. split; [|by repeat constructor].
    eapply Forall_impl; [exact Hv|]. simpl. intros; lia.
  - apply NoDup_snoc_fresh; [done|]. intros Hin.
    apply list_elem_of_fmap in Hin as (x & Hx & Hin).
    rewrite Forall_forall in Hv. specialize (Hv x Hin). simpl in Hv. lia.
  - apply Forall_app. split; [done|]. repeat constructor. simpl.
    apply find_elem_of in Hl as [Hin Hp]. unfold MemoryDB.live_row in Hp.
    apply andb_prop in Hp as [Hid _]. apply Z.eqb_eq in Hid. subst id.
    apply list_elem_of_fmap. eauto.
  - apply NoDup_snoc_fresh; [done|]. intros Hin.
    apply list_elem_of_fmap in Hin as (x & Hx & Hin). injection Hx as Hid Hver.
    assert (v_version x ∈ map v_version (versions_of id d)) as Hmem.
    { apply list_elem_of_fmap. exists x. split; [done|].
      by apply elem_of_versions_of. }
    unfold max_version in Hver.
    destruct (sql_max (map v_version (versions_of id d))) as [m|] eqn:Hmax.
    + pose proof (sql_max_ge _ _ _ Hmax Hmem). simpl in Hver. lia.
    + apply sql_max_None in Hmax. rewrite Hmax in Hmem. by apply elem_of_nil in Hmem.
  - apply Forall_app. split; [done|]. by repeat constructor.
Qed.

Lemma save_memory_wf mt c sid dt imp tg now d :
  wf d → wf (snd (MemoryDB.save_memory mt c sid dt imp tg now d)).
Proof.
  intros Hwf. destruct (decide (valid_create mt c imp)) as [Hv|Hv].
  - rewrite (save_memory_ok _ _ _ _ _ _ _ _ Hv). simpl.
    apply wf_created; [done|]. by destruct Hv.
  - destruct (save_memory_invalid mt c sid dt imp tg now d Hv) as [msg ->]. done.
Qed.

Lemma update_memory_wf id c by_ r now d :
  wf d → wf (snd (MemoryDB.update_memory id c by_ r now d)).
Proof.
  intros Hwf. destruct (truthy_dict c) eqn:Hc.
  - destruct (live id d) as [row|] eqn:Hl.
    + rewrite (update_memory_live _ _ _ _ _ _ _ Hc Hl). simpl.
      apply wf_updated; eauto.
    + by rewrite (update_memory_missing _ _ _ _ _ _ Hc Hl).
  - by rewrite (update_memory_empty _ _ _ _ _ _ Hc).
Qed.

Lemma rollback_wf id v now d :
  wf d → wf (snd (VersioningService.rollback_to_version id v now d)).
Proof.
  intros Hwf.
  destruct (rollback_cases id v now d Hwf)
    as [[-> _]|(t & Hin & Hid & Hv & Hlive & ->)]; [done|].
  simpl. apply wf_updated; [done| |done].
  destruct Hwf as (_ & _ & _ & _ & _ & _ & Hcont).
  rewrite Forall_forall in Hcont. by apply Hcont.
Qed.

Lemma NoDup_map_filter {A B} (f : A → B) (p : A → bool) l :
  NoDup (map f l) → NoDup (map f (List.filter p l)).
Proof.
  induction l as [|x l IH]; simpl; [done|]. intros Hnd.
  apply NoDup_cons in Hnd as [Hx Hnd]. destruct (p x); simpl; [|by apply IH].
  apply NoDup_cons. split; [|by apply IH]. intros Hin. apply Hx.
  apply list_elem_of_fmap in Hin as (y & -> & Hy).
  apply list_elem_of_In, filter_In in Hy as [Hy _].
  apply list_elem_of_fmap. exists y. split; [done|]. by apply list_elem_of_In.
Qed.

Lemma Forall_filter_keep {A} (P : A → Prop) (p : A → bool) l :
  Forall P l → Forall P (List.filter p l).
Proof.
  rewrite !Forall_forall. intros H x Hx.
  apply list_elem_of_In, filter_In in Hx as [Hx _]. by apply H, list_elem_of_In.
Qed.

Lemma delete_memory_wf id permanent d :
  wf d → wf (snd (MemoryDB.delete_memory id permanent d)).
Proof.
  intros Hwf. destruct permanent; [|done].
  destruct Hwf as (Hm & Hmn & Hv & Hvn & Hfk & Hpn & Hcont).
  unfold MemoryDB.delete_memory, bind, transaction, ret, wf. simpl.
  split; [|split; [|split; [|split; [|split; [|split]]]]].
  - by apply Forall_filter_keep.
  - by apply NoDup_map_filter.
  - by apply Forall_filter_keep.
  - by apply NoDup_map_filter.
  - apply Forall_forall. intros v Hin.
    apply list_elem_of_In, filter_In in Hin as [Hin Hne].
    rewrite Forall_forall in Hfk. apply list_elem_of_In in Hin.
    specialize (Hfk v Hin). simpl in Hfk.
    apply list_elem_of_fmap in Hfk as (row & Hrow & Hr).
    apply list_elem_of_fmap. exists row. split; [done|].
    apply list_elem_of_In, filter_In. split; [by apply list_elem_of_In|].
    by rewrite <- Hrow.
  - by apply NoDup_map_filter.
  - by apply Forall_filter_keep.
Qed.

(** ** The persistence queue *)

Lemma save_item_ok i now d :
  valid_item i →
  ∃ id d', PersistenceService.save_item i now d = (Ok id, d')
           ∧ payloads d' = payloads d ++ [payload_of_item i].
Proof.
  intros Hv. unfold PersistenceService.save_item.
  rewrite (save_memory_ok _ _ _ _ _ _ _ _ Hv). eexists _, _. split; [done|].
  unfold payloads, created. simpl. by rewrite map_app.
Qed.

Lemma save_item_raise i now d e d' :
  PersistenceService.save_item i now d = (Raise e, d') → d' = d.
Proof.
  unfold PersistenceService.save_item. intros H.
  destruct (decide (valid_item i)) as [Hv|Hv].
  - unfold valid_item in Hv. rewrite (save_memory_ok _ _ _ _ _ _ _ _ Hv) in H. done.
  - destruct (save_memory_invalid _ _ (PersistenceService.k_session_id
        (PersistenceService.i_kwargs i)) (PersistenceService.k_date
        (PersistenceService.i_kwargs i)) _ (PersistenceService.k_tags
        (PersistenceService.i_kwargs i)) now d Hv) as [msg Hm].
    rewrite Hm in H. by injection H as _ <-.
Qed.

Lemma save_item_row i now d id d' :
  PersistenceService.save_item i now d = (Ok id, d') →
  length (memories d') = S (length (memories d)).
Proof.
  unfold PersistenceService.save_item. intros H.
  apply save_memory_inv in H as (_ & _ & ->). unfold created. simpl.
  rewrite length_app. simpl. lia.
Qed.

Lemma save_items_ok items : ∀ flushed now d,
  Forall valid_item items →
  ∃ d', PersistenceService.save_items items flushed now d
        = (None, flushed + Z.of_nat (length items), d')
        ∧ payloads d' = payloads d ++ map payload_of_item items.
Proof.
  induction items as [|i items IH]; intros flushed now d Hall; simpl.
  - exists d. by rewrite Z.add_0_r, app_nil_r.
  - apply Forall_cons in Hall as [Hi Hall].
    destruct (save_item_ok i now d Hi) as (id & d1 & -> & Hp).
    destruct (IH (flushed + 1) now d1 Hall) as (d' & -> & Hp').
    exists d'. split; [do 2 f_equal; lia|].
    by rewrite Hp', Hp, <- app_assoc.
Qed.

(** In every case [flushed] counts the rows that were inserted. *)
Lemma save_items_count items : ∀ flushed now d r n d',
  PersistenceService.save_items items flushed now d = (r, n, d') →
  Z.of_nat (length (memories d')) = Z.of_nat (length (memories d)) + (n - flushed).
Proof.
  induction items as [|i items IH]; intros flushed now d r n d' H; simpl in H.
  - injection H as _ <- <-. lia.
  - destruct (PersistenceService.save_item i now d) as [[id|e] d1] eqn:Hs.
    + apply IH in H. apply save_item_row in Hs. lia.
    + injection H as _ <- <-. apply save_item_raise in Hs. subst. lia.
Qed.

Lemma force_flush_count now s d n s' d' :
  PersistenceService.force_flush now s d = (n, s', d') →
  Z.of_nat (length (memories d')) = Z.of_nat (length (memories d)) + n.
Proof.
  unfold PersistenceService.force_flush.
  destruct (PersistenceService.queue s) as [|i items] eqn:Hq.
  - intros [= <- _ <-]. lia.
  - destruct (PersistenceService.save_items (i :: items) 0 now d)
      as [[[e|] k] d1] eqn:Hs; intros [= <- _ <-];
      apply save_items_count in Hs; lia.
Qed.

Lemma force_flush_ok now s d :
  Forall valid_item (PersistenceService.queue s) →
  ∃ s' d',
    PersistenceService.force_flush now s d
    = (Z.of_nat (length (PersistenceService.queue s)), s', d')
    ∧ PersistenceService.queue s' = []
    ∧ PersistenceService.max_queue_size s' = PersistenceService.max_queue_size s
    ∧ payloads d' = payloads d ++ map payload_of_item (PersistenceService.queue s).
Proof.
  intros Hall. unfold PersistenceService.force_flush.
  destruct (PersistenceService.queue s) as [|i items] eqn:Hq.
  - eexists _, _. split; [reflexivity|]. simpl. by rewrite app_nil_r.
  - destruct (save_items_ok (i :: items) 0 now d Hall) as (d' & -> & Hp).
    eexists _, _. split; [reflexivity|]. done.
Qed.

(** Nothing is lost while enqueuing: what is stored followed by what is still
    queued is what was stored and queued before, followed by the new items. *)
Lemma queue_all_conserves calls : ∀ s d,
  Forall valid_item (PersistenceService.queue s) →
  Forall (λ q, valid_item (item_of q)) calls →
  ∃ s' d',
    queue_all calls s d = (s', d')
    ∧ Forall valid_item (PersistenceService.queue s')
    ∧ payloads d' ++ map payload_of_item (PersistenceService.queue s')
      = payloads d ++ map payload_of_item (PersistenceService.queue s)
        ++ map payload_of_item (map item_of calls).
Proof.
  induction calls as [|q calls IH]; intros s d Hs Hall; simpl.
  - exists s, d. by rewrite app_nil_r.
  - apply Forall_cons in Hall as [Hq Hall].
    unfold queue_call, PersistenceService.queue_save.
    destruct (Z.of_nat (length (PersistenceService.queue s))
              >=? PersistenceService.max_queue_size s).
    + destruct (force_flush_ok (q_now q) s d Hs) as (sf & df & -> & Hqf & _ & Hp).
      cbn [fst snd].
      match goal with
      | |- ∃ _ _, queue_all calls ?s1 ?d1 = _ ∧ _ =>
          destruct (IH s1 d1) as (s' & d' & -> & Hv' & Hcons); [|exact Hall|]
      end.
      { simpl. rewrite Hqf. simpl. constructor; [exact Hq|constructor]. }
      exists s', d'. split; [done|]. split; [done|].
      rewrite Hcons. simpl. rewrite Hqf, Hp. simpl. by rewrite <- !app_assoc.
    + match goal with
      | |- ∃ _ _, queue_all calls ?s1 ?d1 = _ ∧ _ =>
          destruct (IH s1 d1) as (s' & d' & -> & Hv' & Hcons); [|exact Hall|]
      end.
      { simpl. apply Forall_app. split; [done|].
        constructor; [exact Hq|constructor]. }
      exists s', d'. split; [done|]. split; [done|].
      rewrite Hcons. simpl. rewrite map_app. simpl. by rewrite <- !app_assoc.
Qed.

(** C6: K [queue_save] calls with valid items (so that the store raises
    nothing) on an empty queue, then one [force_flush]: exactly the K items
    are in the store, once each and in the order of the calls; the flush
    returns the number of rows it inserted, which is the number of items it
    drained; the queue is empty afterwards.  A [queue_save] that finds the
    queue at capacity runs [force_flush] first and then admits its item. *)
Theorem C6_queue_then_flush calls now s0 d :
  PersistenceService.queue s0 = [] →
  Forall (λ q, valid_item (item_of q)) calls →
  ∃ s1 d1 n s2 d2,
    queue_all calls s0 d = (s1, d1)
    ∧ PersistenceService.force_flush now s1 d1 = (n, s2, d2)
    ∧ payloads d2 = payloads d ++ map payload_of_item (map item_of calls)
    ∧ length (memories d2) = (length (memories d) + length calls)%nat
    ∧ n = Z.of_nat (length (PersistenceService.queue s1))
    ∧ Z.of_nat (length (memories d2)) = Z.of_nat (length (memories d1)) + n
    ∧ PersistenceService.queue s2 = []
    ∧ ∀ q s d,
        PersistenceService.max_queue_size s
          ≤ Z.of_nat (length (PersistenceService.queue s)) →
        ∃ k sf df s',
          PersistenceService.force_flush (q_now q) s d = (k, sf, df)
          ∧ queue_call q s d = (true, s', df)
          ∧ PersistenceService.queue s'
            = PersistenceService.queue sf ++ [item_of q].
Proof.
  intros Hq0 Hall.
  destruct (queue_all_conserves calls s0 d) as (s1 & d1 & Hqa & Hv1 & Hcons);
    [by rewrite Hq0|done|].
  destruct (force_flush_ok now s1 d1 Hv1) as (s2 & d2 & Hff & Hq2 & _ & Hp2).
  exists s1, d1, (Z.of_nat (length (PersistenceService.queue s1))), s2, d2.
  split; [done|]. split; [exact Hff|].
  assert (payloads d2 = payloads d ++ map payload_of_item (map item_of calls)) as Hp.
  { rewrite Hp2, Hcons, Hq0. done. }
  pose proof (force_flush_count _ _ _ _ _ _ Hff) as Hcount.
  split; [exact Hp|]. split.
  { apply (f_equal length) in Hp. unfold payloads in Hp.
    by rewrite length_app, !length_map in Hp. }
  split; [done|]. split; [exact Hcount|]. split; [done|].
  intros q s d' Hcap. unfold queue_call, PersistenceService.queue_save.
  replace (Z.of_nat (length (PersistenceService.queue s))
           >=? PersistenceService.max_queue_size s) with true by lia.
  destruct (PersistenceService.force_flush (q_now q) s d') as [[k sf] df].
  eexists _, _, _, _. split; [reflexivity|]. split; [reflexivity|]. done.
Qed.

(** Three calls on a queue of capacity 2: the third call flushes the first
    two items; the final flush stores the third. *)
Lemma C6_queue_then_flush_witness :
  ∃ s1 d1 n s2 d2,
    queue_all [call "a" 1; call "b" 2; call "c" 3] (PersistenceService.init 2) empty_db
    = (s1, d1)
    ∧ PersistenceService.force_flush 4 s1 d1 = (n, s2, d2)
    ∧ map m_content (memories d2) = [doc "a"; doc "b"; doc "c"]
    ∧ map m_content (memories d1) = [doc "a"; doc "b"]
    ∧ n = 1
    ∧ PersistenceService.queue s2 = [].
Proof.
  destruct (C6_queue_then_flush [call "a" 1; call "b" 2; call "c" 3] 4
              (PersistenceService.init 2) empty_db)
    as (s1 & d1 & n & s2 & d2 & Hqa & Hff & _ & _ & _ & _ & Hq2 & _).
  { reflexivity. }
  { apply (bool_decide_unpack _). vm_compute. exact I. }
  exists s1, d1, n, s2, d2.
  vm_compute in Hqa. injection Hqa as <- <-.
  vm_compute in Hff. injection Hff as <- <- <-.
  repeat split; reflexivity.
Defined.

(** ** Restoring a backup *)

Lemma String_eqb_neq a b : a ≠ b → String.eqb a b = false.
Proof. intros H. by apply String.eqb_neq. Qed.

Lemma restore_backup_row {os : OS} backup_id w d row :
  conn w = Some (Tables d) →
  List.find (λ b, b_id b =? backup_id) (backups d) = Some row →
  MemoryDB.restore_backup backup_id w
  = if negb (path_exists (fs w) (b_file_path row)) then (Ok false, w)
    else match read_file (fs w) (b_file_path row) with
         | Raise e => (Raise e, w)
         | Ok bytes =>
             if negb (bool_decide (Some (md5 bytes) = b_checksum row))
             then (Ok false, w)
             else match copy2 (b_file_path row) (db_path w) (fs w) with
                  | (Raise e, f) => (Raise e, set_fs (close w) f)
                  | (Ok _, f) =>
                      match connect (set_fs (close w) f) with
                      | (Raise e, w') => (Raise e, w')
                      | (Ok _, w') => (Ok true, w')
                      end
                  end
         end.
Proof.
  intros Hc Hrow. unfold MemoryDB.restore_backup, connect. rewrite Hc.
  unfold the_tables. rewrite Hc, Hrow. reflexivity.
Qed.

(** The service's [restore_backup] never reaches the copy: unpacking the
    path into three names raises, or leaves a one-character [status]. *)
Lemma service_restore_never {os : OS} backup_id w :
  snd (BackupService.restore_backup backup_id w) = w
  ∧ fst (BackupService.restore_backup backup_id w) ≠ Ok true.
Proof.
  unfold BackupService.restore_backup.
  destruct (the_tables w) as [d|e]; [|done].
  destruct (List.find _ (backups d)) as [row|]; [|done].
  destruct (b_file_path row) as [|a [|b [|c [|x s]]]]; try done.
  simpl. destruct (Ascii.eqb c "c"); done.
Qed.

(** C8, as the code has it.  For a catalogued backup whose file is there:
    when the recomputed checksum differs from the recorded one,
    [MemoryDB.restore_backup] returns [False] and changes nothing, exactly as
    it does when the file is missing (no separate error is raised), and the
    service's [restore_backup] leaves the files alone too; when the checksum
    matches, [MemoryDB.restore_backup] closes the connection, copies the
    backup over the live path, reopens the store on the copied file and
    returns [True]. *)
Theorem C8_restore_only_after_verification {os : OS} backup_id w d row c :
  conn w = Some (Tables d) →
  List.find (λ b, b_id b =? backup_id) (backups d) = Some row →
  fs w !! b_file_path row = Some (File c) →
  (Some (md5 c) ≠ b_checksum row →
     MemoryDB.restore_backup backup_id w = (Ok false, w)
     ∧ MemoryDB.restore_backup backup_id (set_fs w (delete (b_file_path row) (fs w)))
       = (Ok false, set_fs w (delete (b_file_path row) (fs w)))
     ∧ snd (BackupService.restore_backup backup_id w) = w)
  ∧ (Some (md5 c) = b_checksum row →
     b_file_path row ≠ db_path w → path_isdir (fs w) (db_path w) = false →
     MemoryDB.restore_backup backup_id w = (Ok true, restored c w)).
Proof.
  intros Hc Hrow Hfile. split.
  - intros Hne. split; [|split].
    + rewrite (restore_backup_row _ _ _ _ Hc Hrow).
      unfold path_exists, read_file. rewrite Hfile. simpl.
      by rewrite bool_decide_eq_false_2.
    + rewrite (restore_backup_row _ (set_fs w _) d row Hc Hrow).
      unfold path_exists. simpl. by rewrite lookup_delete_eq.
    + apply service_restore_never.
  - intros Heq Hpath Hdir.
    rewrite (restore_backup_row _ _ _ _ Hc Hrow).
    unfold path_exists, read_file. rewrite Hfile. simpl.
    rewrite bool_decide_eq_true_2 by done. simpl.
    unfold copy2. rewrite Hdir. unfold path_exists, read_file. rewrite Hfile.
    rewrite String_eqb_neq by done. simpl. rewrite Hdir.
    unfold connect. simpl. by rewrite lookup_insert_eq.
Qed.

Lemma C8_restore_only_after_verification_witness :
  MemoryDB.restore_backup (os := example_os) 1 world_corrupt = (Ok false, world_corrupt)
  ∧ MemoryDB.restore_backup (os := example_os) 1 world_intact
    = (Ok true, restored (Image empty_db) world_intact).
Proof.
  split.
  - apply (C8_restore_only_after_verification (os := example_os) 1 world_corrupt
             catalogue1 backup1 (Raw [1; 2; 3])); [reflexivity..|].
    vm_compute. discriminate.
  - apply (C8_restore_only_after_verification (os := example_os) 1 world_intact
             catalogue1 backup1 (Image empty_db)); [reflexivity..| | |].
    + reflexivity.
    + vm_compute. discriminate.
    + reflexivity.
Defined.

(** The claim as stated fails: on a checksum mismatch nothing distinguishes
    the outcome from that of a missing file.  [MemoryDB.restore_backup]
    returns [False] in both cases and raises nothing; the service's
    [restore_backup] raises the same [ValueError] in both. *)
Lemma C8_counterexample :
  fst (MemoryDB.restore_backup (os := example_os) 1 world_corrupt) = Ok false
  ∧ fst (MemoryDB.restore_backup (os := example_os) 1 world_missing) = Ok false
  ∧ fst (BackupService.restore_backup (os := example_os) 1 world_corrupt)
    = Raise (ValueError "too many values to unpack (expected 3)")
  ∧ fst (BackupService.restore_backup (os := example_os) 1 world_missing)
    = Raise (ValueError "too many values to unpack (expected 3)").
Proof. repeat split; vm_compute; reflexivity. Qed.

(** ** [create_backup_with_lock] *)

(** [create_backup] neither reads nor writes the lock objects. *)
Lemma commit_locks w l : commit (set_locks w l) = set_locks (commit w) l.
Proof. unfold commit. simpl. by destruct (conn w) as [[]|]. Qed.

Lemma insert_backup_locks bt p sz ck st ds now w l :
  BackupService.insert_backup bt p sz ck st ds now (set_locks w l)
  = let '(r, w') := BackupService.insert_backup bt p sz ck st ds now w in
    (r, set_locks w' l).
Proof.
  unfold BackupService.insert_backup, the_tables. simpl.
  destruct (conn w) as [[d| |]|]; try done.
  destruct (has_description d); [|done].
  by destruct (BackupService.valid_backup_type bt).
Qed.

Lemma create_backup_try_locks {os : OS} bt ds p now w l :
  BackupService.create_backup_try bt ds p now (set_locks w l)
  = let '(r, w') := BackupService.create_backup_try bt ds p now w in
    (r, set_locks w' l).
Proof.
  unfold BackupService.create_backup_try. rewrite commit_locks.
  change (db_path (set_locks (commit w) l)) with (db_path (commit w)).
  change (fs (set_locks (commit w) l)) with (fs (commit w)).
  destruct (copy2 (db_path (commit w)) p (fs (commit w))) as [[[]|e] f]; [|done].
  change (set_fs (set_locks (commit w) l) f) with (set_locks (set_fs (commit w) f) l).
  change (fs (set_locks (set_fs (commit w) f) l)) with (fs (set_fs (commit w) f)).
  destruct (BackupService._calculate_checksum (fs (set_fs (commit w) f)) p)
    as [ck|e]; [|done].
  destruct (read_file (fs (set_fs (commit w) f)) p) as [c|e]; [|done].
  rewrite insert_backup_locks.
  destruct (BackupService.insert_backup bt p (Some (getsize c)) (Some ck)
              "completed" ds now (set_fs (commit w) f)) as [[id|e] w'];
    [|done].
  by rewrite commit_locks.
Qed.

Lemma create_backup_locks {os : OS} bt ds now w l :
  BackupService.create_backup bt ds now (set_locks w l)
  = let '(r, w') := BackupService.create_backup bt ds now w in (r, set_locks w' l).
Proof.
  unfold BackupService.create_backup.
  change (backup_dir (set_locks w l)) with (backup_dir w).
  rewrite create_backup_try_locks.
  destruct (BackupService.create_backup_try bt ds _ now w) as [[id|e] w'];
    [done|].
  change (conn (set_locks w' l)) with (conn w').
  destruct (conn w') as [v|]; [|done].
  rewrite insert_backup_locks.
  destruct (BackupService.insert_backup bt _ None None "failed"
              (Some (str_exn e)) now w') as [[id|e'] w'']; [|done].
  by rewrite commit_locks.
Qed.

Lemma create_backup_keeps_locks {os : OS} bt ds now w :
  locks (snd (BackupService.create_backup bt ds now w)) = locks w.
Proof.
  pose proof (create_backup_locks bt ds now w (locks w)) as H.
  replace (set_locks w (locks w)) with w in H by by destruct w.
  destruct (BackupService.create_backup bt ds now w) as [r w'].
  by injection H as ->.
Qed.

(** The lock of a call is a new object, free whatever the other locks are. *)
Lemma fresh_lock_free (l : list bool) : default false ((l ++ [false]) !! length l) = false.
Proof. by rewrite list_lookup_middle. Qed.

(** The argument check of [Lock.acquire] passes exactly on the accepted
    timeouts, and otherwise raises [ValueError] or [OverflowError]. *)
Lemma lock_acquire_accepted {os : OS} timeout :
  accepted_timeout timeout → lock_acquire timeout false = Ok Acquired.
Proof.
  intros (t & Ht & Hacc). unfold lock_acquire. rewrite Ht.
  replace ((t <? 0) && negb (t =? unset_timeout)) with false
    by (unfold unset_timeout in *; destruct Hacc; lia).
  replace (negb (t =? unset_timeout) && (PY_TIMEOUT_MAX <? _PyTime_AsMicroseconds t))
    with false by (unfold unset_timeout in *; destruct Hacc; lia).
  done.
Qed.

Lemma time_from_seconds_refusal obj e :
  _PyTime_FromSecondsObject obj = Raise e → refusal e.
Proof.
  unfold _PyTime_FromSecondsObject, refusal.
  destruct obj as [sec|d].
  - destruct ((sec <? PyTime_MIN) || (PyTime_MAX <? sec)); [intros [= <-]; by right|].
    destruct ((sec * 1000000000 <? PyTime_MIN) || (PyTime_MAX <? sec * 1000000000));
      [intros [= <-]; by right|done].
  - assert (∀ x, pytime_from_double x = Raise e → e = OverflowError) as Hd.
    { intros x. unfold pytime_from_double.
      destruct (round_away _) as [n|]; [|by intros [= <-]].
      destruct ((PyTime_MIN <=? n) && (n <? - PyTime_MIN)); [done|].
      by intros [= <-]. }
    destruct d as [s|s| |s m e']; try (intros H; right; by apply Hd in H).
    intros [= <-]. left. by eexists.
Qed.

Lemma lock_acquire_refused {os : OS} timeout held :
  ¬ accepted_timeout timeout →
  ∃ e, lock_acquire timeout held = Raise e ∧ refusal e.
Proof.
  intros Hn. unfold lock_acquire.
  destruct (_PyTime_FromSecondsObject timeout) as [t|e] eqn:Ht.
  - destruct ((t <? 0) && negb (t =? unset_timeout)) eqn:Hneg.
    { eexists. split; [reflexivity|]. left. by eexists. }
    destruct (negb (t =? unset_timeout)
              && (PY_TIMEOUT_MAX <? _PyTime_AsMicroseconds t)) eqn:Hbig.
    { eexists. split; [reflexivity|]. by right. }
    exfalso. apply Hn. exists t. split; [done|].
    destruct (Z.eqb_spec t unset_timeout) as [->|Hne]; [by left|right].
    cbn [negb] in *. rewrite andb_true_r in Hneg. lia.
  - exists e. split; [done|]. by apply (time_from_seconds_refusal timeout).
Qed.

(** C10, as the code has it.  For every timeout that [Lock.acquire] accepts
    (one that the interpreter converts to [-1] second, or to a time between
    0 and [PY_TIMEOUT_MAX]) [create_backup_with_lock] returns what
    [create_backup] returns and has the same effect on the files and the
    tables, whatever the state of every other lock: the lock is a new object
    of the call, it is acquired at once and is left free.  For every timeout
    the wait for this lock never times out or blocks.  For every other
    timeout the call raises the [ValueError] or [OverflowError] of
    [Lock.acquire] and attempts no backup: the files, the tables and the
    connection are as before, only the new lock exists, free. *)
Theorem C10_lock_is_local {os : OS} bt ds timeout now w :
  (accepted_timeout timeout →
   BackupService.create_backup_with_lock bt ds timeout now w
   = Some (fst (BackupService.create_backup bt ds now w),
           set_locks (snd (BackupService.create_backup bt ds now w))
                     (locks w ++ [false])))
  ∧ (∀ t, lock_acquire t (default false ((locks w ++ [false]) !! length (locks w)))
          ≠ Ok TimedOut
          ∧ lock_acquire t (default false ((locks w ++ [false]) !! length (locks w)))
            ≠ Ok WaitsForever)
  ∧ (¬ accepted_timeout timeout →
     ∃ e, BackupService.create_backup_with_lock bt ds timeout now w
          = Some (Raise e, set_locks w (locks w ++ [false]))
          ∧ refusal e).
Proof.
  split; [|split].
  - intros Hacc. unfold BackupService.create_backup_with_lock. simpl.
    rewrite fresh_lock_free, (lock_acquire_accepted timeout Hacc).
    simpl. rewrite !create_backup_locks.
    destruct (BackupService.create_backup bt ds now w) as [r w'] eqn:Hcb.
    simpl. f_equal. f_equal. unfold set_locks. simpl. f_equal.
    rewrite list_insert_insert_eq.
    rewrite <- (Nat.add_0_r (length (locks w))).
    by rewrite insert_app_r.
  - intros t. rewrite fresh_lock_free. unfold lock_acquire.
    destruct (_PyTime_FromSecondsObject t) as [n|e]; [|done].
    destruct ((n <? 0) && negb (n =? unset_timeout)); [done|].
    by destruct (negb (n =? unset_timeout)
                 && (PY_TIMEOUT_MAX <? _PyTime_AsMicroseconds n)).
  - intros Hn. unfold BackupService.create_backup_with_lock. simpl.
    rewrite fresh_lock_free.
    destruct (lock_acquire_refused timeout false Hn) as (e & -> & He).
    by exists e.
Qed.

Lemma C10_lock_is_local_witness :
  BackupService.create_backup_with_lock (os := example_os) "manual" None
    default_timeout 7 world0
  = Some (fst (BackupService.create_backup (os := example_os) "manual" None 7 world0),
          set_locks (snd (BackupService.create_backup (os := example_os) "manual" None 7 world0))
                    [true; true; false])
  ∧ fst (BackupService.create_backup (os := example_os) "manual" None 7 world0) = Ok 1
  ∧ ∃ e, BackupService.create_backup_with_lock (os := example_os) "manual" None
           (PyFloat S754_nan) 7 world0
         = Some (Raise e, set_locks world0 [true; true; false])
         ∧ refusal e.
Proof.
  pose proof (C10_lock_is_local (os := example_os) "manual" None default_timeout 7
                world0) as (Hok & _ & _).
  pose proof (C10_lock_is_local (os := example_os) "manual" None (PyFloat S754_nan) 7
                world0) as (_ & _ & Hno).
  split; [|split; [reflexivity|]].
  - apply Hok. exists 30000000000. split; [reflexivity|].
    right. vm_compute. split; discriminate.
  - apply Hno. intros (t & Ht & _). vm_compute in Ht. discriminate Ht.
Defined.

(** The claim as stated fails for a timeout that [Lock.acquire] refuses: with
    timeout -2.0 the locked variant raises [ValueError] and creates no
    backup, while [create_backup] creates backup 1 and its file. *)
Lemma C10_counterexample :
  BackupService.create_backup_with_lock (os := example_os) "manual" None minus_two
    7 world0
  = Some (Raise (ValueError "timeout value must be a non-negative number"),
          set_locks world0 [true; true; false])
  ∧ fst (BackupService.create_backup (os := example_os) "manual" None 7 world0) = Ok 1
  ∧ fs (snd (BackupService.create_backup (os := example_os) "manual" None 7 world0))
      !! "backups/backup_7.db" = Some (File (Image catalogue0)).
Proof. repeat split; vm_compute; reflexivity. Qed.

(** Which numbers are accepted: an [int] when it is [-1] or between 0 and
    [PY_TIMEOUT_MAX] microseconds. *)
Lemma accepted_int {os : OS} sec :
  PY_TIMEOUT_MAX < 2 ^ 63 / 1000 →
  accepted_timeout (PyInt sec) ↔ sec = -1 ∨ 0 ≤ sec ∧ sec * 1000000 ≤ PY_TIMEOUT_MAX.
Proof.
  intros Hmax. unfold accepted_timeout, _PyTime_FromSecondsObject, PyTime_MIN,
    PyTime_MAX, unset_timeout, _PyTime_AsMicroseconds.
  change (2 ^ 63) with 9223372036854775808 in *.
  change (9223372036854775808 / 1000) with 9223372036854775 in Hmax.
  split.
  - intros (t & Ht & Hacc).
    destruct ((sec <? _) || (_ <? sec)); [done|].
    destruct ((sec * 1000000000 <? _) || (_ <? sec * 1000000000)) eqn:Hr; [done|].
    injection Ht as <-. destruct Hacc as [Hu|[H0 Hle]]; [left; lia|right].
    replace (0 <=? sec * 1000000000) with true in Hle by lia.
    replace ((sec * 1000000000 + 999) / 1000) with (sec * 1000000) in Hle
      by (apply Z.div_unique with (r := 999); lia).
    lia.
  - intros Hsec. exists (sec * 1000000000).
    destruct ((sec <? _) || (_ <? sec)) eqn:Hr1; [exfalso; lia|].
    destruct ((sec * 1000000000 <? _) || (_ <? sec * 1000000000)) eqn:Hr2;
      [exfalso; lia|].
    split; [done|]. destruct Hsec as [->|[H0 Hle]]; [by left|right].
    replace (0 <=? sec * 1000000000) with true by lia.
    replace ((sec * 1000000000 + 999) / 1000) with (sec * 1000000)
      by (apply Z.div_unique with (r := 999); lia).
    lia.
Qed.

(** Among the floats the negative fractions that round to [-1] second are
    accepted as well and wait without bound, like [-1.0]; [-1.5] is refused,
    a timeout of more than [PY_TIMEOUT_MAX] microseconds, or an infinite one,
    overflows, and a NaN is refused. *)
Example timeouts_of_floats :
  lock_acquire (os := example_os) default_timeout true = Ok TimedOut
  ∧ lock_acquire (os := example_os) (PyFloat (float_of (-1) 0)) true = Ok WaitsForever
  ∧ lock_acquire (os := example_os) nearly_minus_one true = Ok WaitsForever
  ∧ lock_acquire (os := example_os) (PyFloat (float_of (-3) (-1))) true
    = Raise (ValueError "timeout value must be a non-negative number")
  ∧ lock_acquire (os := example_os) (PyFloat (float_of 1 (-1))) false = Ok Acquired
  ∧ lock_acquire (os := example_os) (PyFloat (float_of 9223372036 0)) false = Ok Acquired
  ∧ lock_acquire (os := example_os) (PyFloat (float_of 9223372037 0)) false
    = Raise OverflowError
  ∧ lock_acquire (os := example_os) (PyFloat (S754_infinity false)) false
    = Raise OverflowError
  ∧ lock_acquire (os := example_os) (PyFloat S754_nan) false
    = Raise (ValueError "Invalid value NaN (not a number)").
Proof. repeat split; vm_compute; reflexivity. Qed.

(** ** Retention of backups *)


























(** * Further properties of the code *)

(** ** The record store: tags, frames, keys, listing *)

Lemma split_aux_last s : ∀ cur,
  has_comma s = false →
  split_comma_aux cur s = [String.rev_app cur s].
Proof.
  induction s as [|c s IH]; intros cur Hs; simpl in *.
  - done.
  - apply orb_false_iff in Hs as [Hc Hs]. rewrite Hc. by rewrite IH.
Qed.

Lemma split_aux_sep s : ∀ cur rest,
  has_comma s = false →
  split_comma_aux cur (s +:+ "," +:+ rest)
  = String.rev_app cur s :: split_comma_aux "" rest.
Proof.
  induction s as [|c s IH]; intros cur rest Hs; simpl in *.
  - done.
  - apply orb_false_iff in Hs as [Hc Hs]. rewrite Hc. by rewrite IH.
Qed.

(** Splitting at the commas undoes the joining, for tags without commas. *)
Lemma split_join tags :
  tags ≠ [] → Forall (λ t, has_comma t = false) tags →
  split_comma (join_comma tags) = tags.
Proof.
  unfold split_comma. induction tags as [|t [|t' ts] IH]; intros Hne Hall.
  - done.
  - simpl. apply Forall_cons in Hall as [Ht _]. by rewrite split_aux_last.
  - apply Forall_cons in Hall as [Ht Hall].
    change (join_comma (t :: t' :: ts)) with (t +:+ "," +:+ join_comma (t' :: ts)).
    rewrite split_aux_sep by done. simpl String.rev_app. f_equal.
    by apply IH.
Qed.

Lemma join_truthy tags :
  tags ≠ [] → tags ≠ [""] → truthy_str (join_comma tags) = true.
Proof.
  destruct tags as [|t [|t' ts]]; intros Hne Hne'; [done| |].
  - simpl. destruct t; [done|done].
  - change (join_comma (t :: t' :: ts)) with (t +:+ "," +:+ join_comma (t' :: ts)).
    by destruct t.
Qed.

Lemma live_created_row mt c sid dt imp tg now d :
  wf d →
  live (seq_memories d + 1) (created mt c sid dt imp tg now d)
  = Some (mkMemoryRow (seq_memories d + 1) mt sid dt c imp
            (match tg with Some (t :: ts) => Some (join_comma (t :: ts)) | _ => None end)
            now now 0).
Proof.
  intros Hwf. unfold live, created. simpl.
  rewrite (find_app_None _ _ _ (fresh_live d Hwf)).
  unfold MemoryDB.live_row. simpl. by rewrite Z.eqb_refl.
Qed.

Lemma get_memory_row id d row :
  live id d = Some row →
  MemoryDB.get_memory id d = (Ok (Some (MemoryDB.memory_of_row row)), d).
Proof.
  intros Hl. unfold MemoryDB.get_memory. unfold live in Hl. by rewrite Hl.
Qed.

(** X1: the tags given to [save_memory] are read back by [get_memory] as they
    were given, provided no tag holds a comma and the list is not the single
    empty tag; no tags, or an empty list, read back as the empty list. *)
Theorem tags_round_trip mt c sid dt imp tags now d :
  wf d → valid_create mt c imp →
  Forall (λ t, has_comma t = false) (default [] tags) →
  default [] tags ≠ [""] →
  ∃ id d1 m,
    MemoryDB.save_memory mt c sid dt imp tags now d = (Ok id, d1)
    ∧ MemoryDB.get_memory id d1 = (Ok (Some m), d1)
    ∧ MemoryDB.tags m = default [] tags.
Proof.
  intros Hwf Hv Hall Hne. eexists _, _, _.
  split; [by apply save_memory_ok|].
  split; [apply get_memory_row, live_created_row, Hwf|].
  destruct tags as [[|t ts]|]; [done| |done].
  cbn [MemoryDB.memory_of_row MemoryDB.tags m_tags default] in *.
  rewrite join_truthy by done. by apply split_join.
Qed.

Lemma tags_round_trip_witness :
  ∃ id d1 m,
    MemoryDB.save_memory "daily" (doc "a") None None 3 (Some ["x"; ""; "y z"]) 1 empty_db
    = (Ok id, d1)
    ∧ MemoryDB.get_memory id d1 = (Ok (Some m), d1)
    ∧ MemoryDB.tags m = ["x"; ""; "y z"].
Proof.
  apply (tags_round_trip "daily" (doc "a") None None 3 (Some ["x"; ""; "y z"]) 1 empty_db).
  - apply (bool_decide_unpack _). vm_compute. exact I.
  - apply (bool_decide_unpack _). vm_compute. exact I.
  - repeat constructor.
  - discriminate.
Defined.

Lemma find_map_same {A} (p : A → bool) (g : A → A) l :
  (∀ r, p (g r) = p r) → (∀ r, p r = true → g r = r) →
  List.find p (map g l) = List.find p l.
Proof.
  intros Hp Hg. induction l as [|x l IH]; simpl; [done|].
  rewrite Hp. destruct (p x) eqn:Hx; [by rewrite Hg|done].
Qed.

Lemma live_updated_other id id' c by_ r now d :
  id' ≠ id → live id' (updated id c by_ r now d) = live id' d.
Proof.
  intros Hne. unfold live, updated. simpl. apply find_map_same.
  - intros row. by destruct (MemoryDB.live_row id row).
  - intros row Hrow. unfold MemoryDB.live_row in *.
    apply andb_prop in Hrow as [Hid _]. apply Z.eqb_eq in Hid.
    replace (m_id row =? id) with false by lia. done.
Qed.

Lemma versions_of_updated_other id id' c by_ r now d :
  id' ≠ id → versions_of id' (updated id c by_ r now d) = versions_of id' d.
Proof.
  intros Hne. unfold versions_of, updated. simpl. rewrite List.filter_app. simpl.
  replace (id =? id') with false by lia. by rewrite app_nil_r.
Qed.

(** The three outcomes of [update_memory]. *)
Lemma update_memory_cases id c by_ r now d :
  snd (MemoryDB.update_memory id c by_ r now d) = d
  ∨ snd (MemoryDB.update_memory id c by_ r now d) = updated id c by_ r now d.
Proof.
  destruct (truthy_dict c) eqn:Hc.
  - destruct (live id d) as [row|] eqn:Hl.
    + right. by rewrite (update_memory_live _ _ _ _ _ _ _ Hc Hl).
    + left. by rewrite (update_memory_missing _ _ _ _ _ _ Hc Hl).
  - left. by rewrite (update_memory_empty _ _ _ _ _ _ Hc).
Qed.

(** X2: an update of one record changes no other record: what [get_memory]
    and [get_versions] return for any other id is the same before and after,
    whether the update succeeded, found nothing or raised. *)
Theorem update_leaves_other_records id id' c by_ r now d :
  id' ≠ id →
  fst (MemoryDB.get_memory id' (snd (MemoryDB.update_memory id c by_ r now d)))
  = fst (MemoryDB.get_memory id' d)
  ∧ fst (MemoryDB.get_versions id' (snd (MemoryDB.update_memory id c by_ r now d)))
    = fst (MemoryDB.get_versions id' d).
Proof.
  intros Hne. destruct (update_memory_cases id c by_ r now d) as [->| ->]; [done|].
  split.
  - unfold MemoryDB.get_memory.
    pose proof (live_updated_other id id' c by_ r now d Hne) as Hl.
    unfold live in Hl. rewrite Hl.
    by destruct (List.find (MemoryDB.live_row id') (memories d)).
  - rewrite !get_versions_eq. simpl. by rewrite versions_of_updated_other.
Qed.

Lemma update_leaves_other_records_witness :
  fst (MemoryDB.get_memory 1
         (snd (MemoryDB.update_memory 2 (doc "new") "user" None 9
                 (created "daily" (doc "two") None None 0 None 2 store_v2))))
  = fst (MemoryDB.get_memory 1 (created "daily" (doc "two") None None 0 None 2 store_v2))
  ∧ fst (MemoryDB.get_versions 1
           (snd (MemoryDB.update_memory 2 (doc "new") "user" None 9
                   (created "daily" (doc "two") None None 0 None 2 store_v2))))
    = fst (MemoryDB.get_versions 1
             (created "daily" (doc "two") None None 0 None 2 store_v2)).
Proof.
  apply (update_leaves_other_records 2 1 (doc "new") "user" None 9
           (created "daily" (doc "two") None None 0 None 2 store_v2)).
  lia.
Defined.

Lemma restore_version_wf vid now d :
  wf d → wf (snd (MemoryDB.restore_version vid now d)).
Proof.
  intros Hwf. unfold MemoryDB.restore_version.
  destruct (List.find _ (versions d)); [|done]. by apply update_memory_wf.
Qed.

Lemma run_op_wf op d : wf d → wf (run_op op d).
Proof.
  intros Hwf. destruct op; simpl.
  - by apply save_memory_wf.
  - by apply update_memory_wf.
  - by apply delete_memory_wf.
  - by apply restore_version_wf.
  - by apply rollback_wf.
Qed.

(** X3: whatever sequence of [save_memory], [update_memory], [delete_memory],
    [restore_version] and [rollback_to_version] calls is run on an empty
    store, with any arguments and whether the calls succeed or raise, the
    store keeps its keys unique and below the AUTOINCREMENT counters, every
    version row belongs to a record that exists, no record has two versions
    with one number, and no stored version is empty. *)
Theorem reachable_store_well_formed ops : wf (run_ops ops empty_db).
Proof.
  unfold run_ops. generalize wf_empty. generalize empty_db.
  induction ops as [|op ops IH]; intros d Hwf; simpl; [done|].
  apply IH. by apply run_op_wf.
Qed.

Lemma delete_memory_seq id d :
  seq_memories (snd (MemoryDB.delete_memory id true d)) = seq_memories d.
Proof. done. Qed.

Lemma delete_memory_found id d row :
  row ∈ memories d → m_id row = id →
  fst (MemoryDB.delete_memory id true d) = Ok true.
Proof.
  intros Hin Hid. unfold MemoryDB.delete_memory, bind, transaction, ret. simpl.
  assert (row ∈ List.filter (λ r, m_id r =? id) (memories d)) as Hf.
  { apply list_elem_of_In, filter_In. split; [by apply list_elem_of_In|lia]. }
  destruct (List.filter (λ r, m_id r =? id) (memories d)); [by apply elem_of_nil in Hf|].
  done.
Qed.

(** X4: a key is not used twice.  After a record is created and permanently
    deleted, the next record created gets the next key, not the freed one,
    and the freed key has no record and no history. *)
Theorem keys_are_not_reused mt c sid dt imp tg now mt' c' sid' dt' imp' tg' now' d :
  wf d → valid_create mt c imp → valid_create mt' c' imp' →
  ∃ id1 d1 d2 id2 d3,
    MemoryDB.save_memory mt c sid dt imp tg now d = (Ok id1, d1)
    ∧ MemoryDB.delete_memory id1 true d1 = (Ok true, d2)
    ∧ MemoryDB.save_memory mt' c' sid' dt' imp' tg' now' d2 = (Ok id2, d3)
    ∧ id2 = id1 + 1
    ∧ MemoryDB.get_memory id1 d3 = (Ok None, d3)
    ∧ MemoryDB.get_versions id1 d3 = (Ok [], d3).
Proof.
  intros Hwf Hv Hv'.
  pose proof (save_memory_ok mt c sid dt imp tg now d Hv) as Hs1.
  pose proof (wf_created mt c sid dt imp tg now d Hwf (proj1 Hv)) as Hwf1.
  set (d1 := created mt c sid dt imp tg now d) in *.
  destruct (delete_memory_permanent (seq_memories d + 1) d1)
    as (r & d2 & Hdel & Hvs & Hms & _ & _).
  pose proof (delete_memory_wf (seq_memories d + 1) true d1 Hwf1) as Hwf2.
  rewrite Hdel in Hwf2. simpl in Hwf2.
  assert (r = true ∧ seq_memories d2 = seq_memories d + 1) as [-> Hseq].
  { pose proof (delete_memory_seq (seq_memories d + 1) d1) as Hseq.
    pose proof (delete_memory_found (seq_memories d + 1) d1
      (mkMemoryRow (seq_memories d + 1) mt sid dt c imp
         (match tg with Some (t :: ts) => Some (join_comma (t :: ts)) | _ => None end)
         now now 0)) as Hr.
    rewrite Hdel in Hseq, Hr. simpl in Hseq, Hr. split; [|exact Hseq].
    assert (Ok r = Ok true) as [= ->]; [|done].
    apply Hr; [|done]. subst d1. unfold created. cbn [memories].
    apply elem_of_app. right. apply list_elem_of_singleton. done. }
  pose proof (save_memory_ok mt' c' sid' dt' imp' tg' now' d2 Hv') as Hs2.
  eexists _, d1, d2, _, _. split; [exact Hs1|]. split; [exact Hdel|].
  split; [exact Hs2|]. split; [lia|]. split.
  - apply get_memory_missing. unfold live, created. simpl.
    rewrite find_app_None.
    + unfold MemoryDB.live_row. simpl. by replace (seq_memories d2 + 1 =? _) with false by lia.
    + apply find_Forall_None. eapply Forall_impl; [exact Hms|].
      intros row Hrow. unfold MemoryDB.live_row.
      by destruct (Z.eqb_spec (m_id row) (seq_memories d + 1)).
  - rewrite get_versions_eq. unfold versions_of, created. simpl.
    rewrite List.filter_app. fold (versions_of (seq_memories d + 1) d2).
    rewrite Hvs. simpl. by replace (seq_memories d2 + 1 =? _) with false by lia.
Qed.

Lemma keys_are_not_reused_witness :
  ∃ id1 d1 d2 id2 d3,
    MemoryDB.save_memory "daily" (doc "a") None None 0 None 1 empty_db = (Ok id1, d1)
    ∧ MemoryDB.delete_memory id1 true d1 = (Ok true, d2)
    ∧ MemoryDB.save_memory "daily" (doc "b") None None 0 None 2 d2 = (Ok id2, d3)
    ∧ id2 = id1 + 1
    ∧ MemoryDB.get_memory id1 d3 = (Ok None, d3)
    ∧ MemoryDB.get_versions id1 d3 = (Ok [], d3).
Proof.
  apply (keys_are_not_reused "daily" (doc "a") None None 0 None 1
           "daily" (doc "b") None None 0 None 2 empty_db).
  - apply (bool_decide_unpack _). vm_compute. exact I.
  - apply (bool_decide_unpack _). vm_compute. exact I.
  - apply (bool_decide_unpack _). vm_compute. exact I.
Defined.

(** *** Listing *)

Lemma sorted_take {A} (R : A → A → Prop) l n :
  StronglySorted R l → StronglySorted R (take n l).
Proof.
  intros Hs. revert n. induction Hs as [|x l Hs IH Hx]; intros [|n]; simpl;
    try constructor.
  - apply IH.
  - apply Forall_forall. intros y Hy. rewrite Forall_forall in Hx. apply Hx.
    apply elem_of_take in Hy as (i & Hi & _). by eapply list_elem_of_lookup_2.
Qed.

Lemma sorted_drop {A} (R : A → A → Prop) l n :
  StronglySorted R l → StronglySorted R (drop n l).
Proof.
  intros Hs. revert n. induction Hs as [|x l Hs IH Hx]; intros [|n]; simpl.
  - constructor.
  - constructor.
  - by constructor.
  - apply IH.
Qed.

Lemma sorted_map {A B} (R : A → A → Prop) (S : B → B → Prop) (f : A → B) l :
  (∀ a b, R a b → S (f a) (f b)) →
  StronglySorted R l → StronglySorted S (map f l).
Proof.
  intros HRS. induction 1 as [|x l Hs IH Hx]; simpl; constructor; [done|].
  apply Forall_forall. intros y Hy. apply list_elem_of_fmap in Hy as (a & -> & Ha).
  rewrite Forall_forall in Hx. by apply HRS, Hx.
Qed.

Lemma order_by_desc_sorted {A} (key : A → Z) l :
  StronglySorted (key_ge key) (order_by_desc key l).
Proof.
  unfold order_by_desc.
  eapply StronglySorted_ind with (P := StronglySorted (key_ge key));
    [constructor| |apply (order_by_sorted (λ x, - key x))].
  intros a l' _ IH Ha. constructor; [done|].
  eapply Forall_impl; [exact Ha|]. unfold key_le, key_ge. intros; lia.
Qed.

Lemma elem_of_limit {A} (n : Z) (l : list A) x : x ∈ sql_limit n l → x ∈ l.
Proof.
  unfold sql_limit. destruct (n <? 0); [done|].
  intros (i & Hi & _)%elem_of_take. by eapply list_elem_of_lookup_2.
Qed.

Lemma elem_of_offset {A} (n : Z) (l : list A) x : x ∈ sql_offset n l → x ∈ l.
Proof.
  unfold sql_offset. intros Hx. apply list_elem_of_lookup_1 in Hx as [i Hi].
  rewrite lookup_drop in Hi. by eapply list_elem_of_lookup_2.
Qed.

Lemma limit_length {A} (n : Z) (l : list A) :
  0 ≤ n → Z.of_nat (length (sql_limit n l)) ≤ n.
Proof.
  intros Hn. unfold sql_limit. replace (n <? 0) with false by lia.
  rewrite length_take. lia.
Qed.

Lemma get_memories_eq mt sid dt limit offset d :
  MemoryDB.get_memories mt sid dt limit offset d
  = (Ok (map MemoryDB.memory_of_row
           (sql_limit limit
              (sql_offset offset
                 (order_by_desc m_created_at
                    (List.filter (MemoryDB.selected mt sid dt) (memories d)))))), d).
Proof. done. Qed.

(** X5: [get_memories] changes nothing and returns only records built from
    rows of the table that are not soft-deleted and pass each filter that was
    given; the list is ordered from the most recent to the oldest, and holds
    at most [limit] records when [limit] is not negative. *)
Theorem get_memories_sound mt sid dt limit offset d :
  ∃ ms,
    MemoryDB.get_memories mt sid dt limit offset d = (Ok ms, d)
    ∧ (∀ m, m ∈ ms →
         ∃ row, row ∈ memories d ∧ m = MemoryDB.memory_of_row row
                ∧ m_is_deleted row = 0
                ∧ sql_filter mt (Some (m_memory_type row)) = true
                ∧ sql_filter sid (m_session_id row) = true
                ∧ sql_filter dt (m_date row) = true)
    ∧ StronglySorted (key_ge MemoryDB.created_at) ms
    ∧ (0 ≤ limit → Z.of_nat (length ms) ≤ limit).
Proof.
  eexists. split; [apply get_memories_eq|]. split; [|split].
  - intros m Hm. apply list_elem_of_fmap in Hm as (row & -> & Hrow).
    apply elem_of_limit, elem_of_offset in Hrow.
    unfold order_by_desc in Hrow. rewrite order_by_perm in Hrow.
    apply list_elem_of_In, filter_In in Hrow as [Hin Hsel].
    unfold MemoryDB.selected in Hsel.
    apply andb_prop in Hsel as [Hsel Hdt]. apply andb_prop in Hsel as [Hsel Hsid].
    apply andb_prop in Hsel as [Hdel Hmt]. apply Z.eqb_eq in Hdel.
    exists row. by rewrite list_elem_of_In.
  - apply (sorted_map (key_ge m_created_at)); [by intros a b|].
    unfold sql_limit, sql_offset. destruct (limit <? 0).
    + apply sorted_drop, order_by_desc_sorted.
    + apply sorted_take, sorted_drop, order_by_desc_sorted.
  - intros Hl. rewrite length_map. by apply limit_length.
Qed.

(** X6: consecutive pages fit together.  On an unchanged store the page of
    [k] records at [offset] followed by the page of [k'] records at
    [offset + k] is the page of [k + k'] records at [offset]: no record is
    skipped or returned twice. *)
Theorem get_memories_pages mt sid dt offset k k' d :
  0 ≤ offset → 0 ≤ k → 0 ≤ k' →
  ∃ p1 p2,
    MemoryDB.get_memories mt sid dt k offset d = (Ok p1, d)
    ∧ MemoryDB.get_memories mt sid dt k' (offset + k) d = (Ok p2, d)
    ∧ MemoryDB.get_memories mt sid dt (k + k') offset d = (Ok (p1 ++ p2), d).
Proof.
  intros Ho Hk Hk'. eexists _, _. split; [apply get_memories_eq|].
  split; [apply get_memories_eq|]. rewrite get_memories_eq. f_equal. f_equal.
  rewrite <- map_app. f_equal. unfold sql_limit, sql_offset.
  replace (k <? 0) with false by lia. replace (k' <? 0) with false by lia.
  replace (k + k' <? 0) with false by lia.
  rewrite (Z2Nat.inj_add offset k), (Z2Nat.inj_add k k') by lia.
  rewrite <- drop_drop. by rewrite take_take_drop.
Qed.

Lemma get_memories_pages_witness :
  ∃ p1 p2,
    MemoryDB.get_memories None None None 1 0 store_two = (Ok p1, store_two)
    ∧ MemoryDB.get_memories None None None 1 (0 + 1) store_two = (Ok p2, store_two)
    ∧ MemoryDB.get_memories None None None (1 + 1) 0 store_two
      = (Ok (p1 ++ p2), store_two).
Proof. apply (get_memories_pages None None None 0 1 1 store_two); lia. Defined.

Lemma insert_by_first {A} (key : A → Z) x l :
  Forall (λ y, key x ≤ key y) l → insert_by key x l = x :: l.
Proof.
  destruct 1 as [|y l Hy _]; simpl; [done|].
  by rewrite (proj2 (Z.leb_le _ _) Hy).
Qed.

Lemma order_by_snoc_first {A} (key : A → Z) l x :
  Forall (λ y, key x < key y) l → order_by key (l ++ [x]) = x :: order_by key l.
Proof.
  induction 1 as [|y l Hy _ IH]; simpl; [done|].
  rewrite IH. simpl. by replace (key y <=? key x) with false by lia.
Qed.

Lemma filter_snoc {A} (p : A → bool) l x :
  List.filter p (l ++ [x]) = List.filter p l ++ (if p x then [x] else []).
Proof. by rewrite List.filter_app. Qed.

(** The row that [save_memory] inserts. *)
Lemma created_listed_first mt c sid dt imp tg now fmt fsid fdt limit d :
  Forall (λ r, m_created_at r < now) (memories d) →
  sql_filter fmt (Some mt) = true → sql_filter fsid sid = true →
  sql_filter fdt dt = true → limit ≠ 0 →
  ∃ rest,
    MemoryDB.get_memories fmt fsid fdt limit 0 (created mt c sid dt imp tg now d)
    = (Ok (MemoryDB.memory_of_row
             (mkMemoryRow (seq_memories d + 1) mt sid dt c imp
                (match tg with
                 | Some (t :: ts) => Some (join_comma (t :: ts))
                 | _ => None
                 end) now now 0) :: rest),
       created mt c sid dt imp tg now d).
Proof.
  intros Hnow Hmt Hsid Hdt Hl.
  assert (∃ rest, map MemoryDB.memory_of_row
            (sql_limit limit (sql_offset 0 (order_by_desc m_created_at
               (List.filter (MemoryDB.selected fmt fsid fdt)
                  (memories (created mt c sid dt imp tg now d))))))
          = MemoryDB.memory_of_row
              (mkMemoryRow (seq_memories d + 1) mt sid dt c imp
                 (match tg with
                  | Some (t :: ts) => Some (join_comma (t :: ts))
                  | _ => None
                  end) now now 0) :: rest) as [rest Hrest]; last first.
  { exists rest. by rewrite get_memories_eq, Hrest. }
  unfold created. cbn [memories]. rewrite filter_snoc.
  unfold MemoryDB.selected at 2. cbn [m_is_deleted m_memory_type m_session_id m_date].
  rewrite Hmt, Hsid, Hdt. cbn [Z.eqb andb].
  unfold order_by_desc. rewrite order_by_snoc_first.
  - unfold sql_offset. cbn [Z.to_nat drop]. unfold sql_limit.
    destruct (limit <? 0) eqn:Hneg; [by eexists|].
    destruct (Z.to_nat limit) as [|n] eqn:Hn; [lia|]. cbn [take map].
    by eexists.
  - apply Forall_forall. intros r Hr. apply list_elem_of_In, filter_In in Hr as [Hr _].
    rewrite Forall_forall in Hnow. apply list_elem_of_In, Hnow in Hr. simpl. lia.
Qed.

(** X7: a record created when the clock is past the creation time of every
    stored record comes first in every listing whose filters it matches, if
    the listing starts at offset 0 and its limit is not 0. *)
Theorem new_record_listed_first mt c sid dt imp tg now fmt fsid fdt limit d :
  valid_create mt c imp →
  Forall (λ r, m_created_at r < now) (memories d) →
  sql_filter fmt (Some mt) = true → sql_filter fsid sid = true →
  sql_filter fdt dt = true → limit ≠ 0 →
  ∃ id d1 m rest,
    MemoryDB.save_memory mt c sid dt imp tg now d = (Ok id, d1)
    ∧ MemoryDB.get_memories fmt fsid fdt limit 0 d1 = (Ok (m :: rest), d1)
    ∧ MemoryDB.id m = id ∧ MemoryDB.content m = c.
Proof.
  intros Hv Hnow Hmt Hsid Hdt Hl.
  destruct (created_listed_first mt c sid dt imp tg now fmt fsid fdt limit d
              Hnow Hmt Hsid Hdt Hl) as [rest Hrest].
  eexists _, _, _, rest. split; [by apply save_memory_ok|].
  split; [exact Hrest|]. done.
Qed.

Lemma new_record_listed_first_witness :
  ∃ id d1 m rest,
    MemoryDB.save_memory "daily" (doc "two") None None 0 None 3 store_v2 = (Ok id, d1)
    ∧ MemoryDB.get_memories (Some "daily") None None 1 0 d1 = (Ok (m :: rest), d1)
    ∧ MemoryDB.id m = id ∧ MemoryDB.content m = doc "two".
Proof.
  apply (new_record_listed_first "daily" (doc "two") None None 0 None 3
           (Some "daily") None None 1 store_v2).
  - apply (bool_decide_unpack _). vm_compute. exact I.
  - apply (bool_decide_unpack _). vm_compute. exact I.
  - reflexivity.
  - reflexivity.
  - reflexivity.
  - lia.
Defined.

Section OrderByFilter.
Context {A : Type} (key : A → Z) (p : A → bool).

Lemma filter_insert_by x l :
  StronglySorted (key_le key) l →
  List.filter p (insert_by key x l)
  = if p x then insert_by key x (List.filter p l) else List.filter p l.
Proof.
  induction 1 as [|y l Hs IH Hy]; simpl.
  - by destruct (p x).
  - destruct (Z.leb_spec (key x) (key y)) as [Hle|Hlt]; simpl.
    + destruct (p x); [|done]. rewrite insert_by_first; [done|].
      apply Forall_forall. intros z Hz.
      assert (z ∈ y :: l) as Hz'.
      { destruct (p y); [|by right; apply list_elem_of_In;
          apply list_elem_of_In, filter_In in Hz as [? _]].
        apply elem_of_cons in Hz as [->|Hz]; [by left|right].
        apply list_elem_of_In. by apply list_elem_of_In, filter_In in Hz as [? _]. }
      apply elem_of_cons in Hz' as [->|Hz']; [done|].
      rewrite Forall_forall in Hy. specialize (Hy z Hz'). unfold key_le in Hy. lia.
    + rewrite IH. destruct (p y), (p x); simpl; try done.
      by replace (key x <=? key y) with false by lia.
Qed.

Lemma order_by_filter l :
  order_by key (List.filter p l) = List.filter p (order_by key l).
Proof.
  induction l as [|x l IH]; simpl; [done|].
  rewrite filter_insert_by by apply order_by_sorted.
  destruct (p x); simpl; by rewrite IH.
Qed.
End OrderByFilter.

Lemma filter_comm {A} (p q : A → bool) l :
  List.filter p (List.filter q l) = List.filter q (List.filter p l).
Proof.
  induction l as [|x l IH]; simpl; [done|].
  destruct (p x) eqn:Hp, (q x) eqn:Hq; simpl; rewrite ?Hp, ?Hq, IH; done.
Qed.

Lemma filter_map_comm {A B} (f : A → B) (p : B → bool) l :
  List.filter p (map f l) = map f (List.filter (λ a, p (f a)) l).
Proof.
  induction l as [|x l IH]; simpl; [done|].
  destruct (p (f x)); simpl; by rewrite IH.
Qed.

(** X8: a permanent delete takes exactly one record out of the listings.
    After [delete_memory id True] no listing, whatever its filters, limit and
    offset, holds a record with that key, and the complete listing (no limit,
    no offset) is the former one without that record, the others in their
    former order. *)
Theorem permanent_delete_unlists id mt sid dt limit offset d :
  limit < 0 → offset ≤ 0 →
  ∃ r d' before,
    MemoryDB.delete_memory id true d = (Ok r, d')
    ∧ (∀ l o ms, MemoryDB.get_memories mt sid dt l o d' = (Ok ms, d') →
                 Forall (λ m, MemoryDB.id m ≠ id) ms)
    ∧ MemoryDB.get_memories mt sid dt limit offset d = (Ok before, d)
    ∧ MemoryDB.get_memories mt sid dt limit offset d'
      = (Ok (List.filter (λ m, negb (MemoryDB.id m =? id)) before), d').
Proof.
  intros Hl Ho.
  destruct (delete_memory_permanent id d) as (r & d' & Hdel & _ & Hms & _ & _).
  assert (memories d' = List.filter (λ r, negb (m_id r =? id)) (memories d)) as Hmem.
  { unfold MemoryDB.delete_memory, bind, transaction, ret in Hdel.
    simpl in Hdel. by injection Hdel as _ <-. }
  eexists r, d', _. split; [exact Hdel|]. split; [|split; [apply get_memories_eq|]].
  - intros l o ms. rewrite get_memories_eq. intros [= <-].
    apply Forall_forall. intros m Hm.
    apply list_elem_of_fmap in Hm as (row & -> & Hrow).
    apply elem_of_limit, elem_of_offset in Hrow.
    unfold order_by_desc in Hrow. rewrite order_by_perm in Hrow.
    apply list_elem_of_In, filter_In in Hrow as [Hin _].
    rewrite Forall_forall in Hms. apply Hms. by apply list_elem_of_In.
  - rewrite get_memories_eq. f_equal. f_equal.
    unfold sql_limit, sql_offset. replace (limit <? 0) with true by lia.
    replace (Z.to_nat offset) with 0%nat by lia. cbn [drop].
    rewrite Hmem, filter_comm. unfold order_by_desc. rewrite order_by_filter.
    by rewrite (filter_map_comm MemoryDB.memory_of_row
                  (λ m, negb (MemoryDB.id m =? id))).
Qed.

Lemma permanent_delete_unlists_witness :
  ∃ r d' before,
    MemoryDB.delete_memory 1 true store_two = (Ok r, d')
    ∧ (∀ l o ms, MemoryDB.get_memories None None None l o d' = (Ok ms, d') →
                 Forall (λ m, MemoryDB.id m ≠ 1) ms)
    ∧ MemoryDB.get_memories None None None (-1) 0 store_two = (Ok before, store_two)
    ∧ MemoryDB.get_memories None None None (-1) 0 d'
      = (Ok (List.filter (λ m, negb (MemoryDB.id m =? 1)) before), d').
Proof. apply (permanent_delete_unlists 1 None None None (-1) 0 store_two); lia. Defined.

(** *** The latest versions *)

Lemma sorted_last {A} (key : A → Z) l x :
  StronglySorted (key_le key) l → last l = Some x →
  Forall (λ y, key y ≤ key x) l.
Proof.
  induction 1 as [|y l Hs IH Hy]; [done|].
  destruct l as [|z l].
  - intros [= ->]. by repeat constructor.
  - change (last (y :: z :: l)) with (last (z :: l)). intros Hlast.
    specialize (IH Hlast). constructor; [|done].
    assert (x ∈ z :: l) as Hx.
    { apply list_elem_of_lookup. exists (pred (length (z :: l))).
      by rewrite <- last_lookup. }
    rewrite Forall_forall in Hy. apply (Hy x Hx).
Qed.

Lemma history_last id d v :
  last (order_by v_version (versions_of id d)) = Some v →
  v_memory_id v = id ∧ is_latest v d.
Proof.
  intros Hlast.
  assert (v ∈ order_by v_version (versions_of id d)) as Hin.
  { apply list_elem_of_lookup. eexists. by rewrite <- last_lookup. }
  apply elem_of_history in Hin as [Hin Hid]. split; [done|]. split; [done|].
  intros v' Hin' Hid'.
  pose proof (sorted_last v_version _ _ (order_by_sorted v_version _) Hlast) as Hall.
  rewrite Forall_forall in Hall. apply Hall, elem_of_history. split; [done|].
  by rewrite Hid'.
Qed.

Lemma latest_of_ids_spec ids d e :
  e ∈ VersioningService.latest_of_ids ids d →
  ∃ v, e = VersioningService.LatestOf v ∧ v_memory_id v ∈ ids ∧ is_latest v d.
Proof.
  induction ids as [|mid ids IH]; cbn [VersioningService.latest_of_ids];
    [by intros ?%elem_of_nil|].
  rewrite get_versions_eq. cbn [fst].
  destruct (last _) as [v|] eqn:Hlast.
  - intros [->|He]%elem_of_cons.
    + apply history_last in Hlast as [Hid Hl]. exists v. split; [done|].
      split; [|done]. rewrite Hid. by left.
    + destruct (IH He) as (v' & -> & Hin & Hl'). exists v'. split; [done|].
      split; [by right|done].
  - intros He. destruct (IH He) as (v' & -> & Hin & Hl'). exists v'.
    split; [done|]. split; [by right|done].
Qed.

Lemma latest_of_memories_spec ms d e :
  e ∈ VersioningService.latest_of_memories ms d →
  ∃ m v, m ∈ ms
    ∧ e = VersioningService.LatestIn (MemoryDB.id m) v (MemoryDB.memory_type m)
            (MemoryDB.importance m)
    ∧ v_memory_id v = MemoryDB.id m ∧ is_latest v d.
Proof.
  induction ms as [|m ms IH]; cbn [VersioningService.latest_of_memories];
    [by intros ?%elem_of_nil|].
  rewrite get_versions_eq. cbn [fst].
  destruct (last _) as [v|] eqn:Hlast.
  - intros [->|He]%elem_of_cons.
    + apply history_last in Hlast as [Hid Hl]. exists m, v.
      split; [by left|done].
    + destruct (IH He) as (m' & v' & Hm & -> & Hid & Hl'). exists m', v'.
      split; [by right|done].
  - intros He. destruct (IH He) as (m' & v' & Hm & -> & Hid & Hl'). exists m', v'.
    split; [by right|done].
Qed.

Lemma elem_of_py_slice_to {A} (n : Z) (l : list A) x : x ∈ py_slice_to n l → x ∈ l.
Proof.
  unfold py_slice_to. destruct (n <? 0);
    intros (i & Hi & _)%elem_of_take; by eapply list_elem_of_lookup_2.
Qed.

(** X9: [get_latest_versions] changes nothing, and every entry it returns
    reports a stored version that is the highest numbered one of its record.
    With a non-empty list of keys the entry is the version itself and its
    record is one of the keys asked for; otherwise the entry carries the key,
    type and importance of a record that is not soft-deleted. *)
Theorem latest_versions_are_latest memory_ids limit d :
  ∃ es,
    VersioningService.get_latest_versions memory_ids limit d = (Ok es, d)
    ∧ ∀ e, e ∈ es →
        is_latest (entry_version e) d
        ∧ match e with
          | VersioningService.LatestOf v =>
              ∃ ids, memory_ids = Some ids ∧ v_memory_id v ∈ ids
          | VersioningService.LatestIn mid v mt imp =>
              v_memory_id v = mid
              ∧ ∃ row, row ∈ memories d ∧ m_id row = mid ∧ m_is_deleted row = 0
                       ∧ m_memory_type row = mt ∧ m_importance row = imp
          end.
Proof.
  assert (∀ es, es = py_slice_to limit
            (VersioningService.latest_of_memories
               (map MemoryDB.memory_of_row
                  (sql_limit (limit * 2)
                     (sql_offset 0
                        (order_by_desc m_created_at
                           (List.filter (MemoryDB.selected None None None)
                              (memories d)))))) d) →
          ∀ e, e ∈ es →
            is_latest (entry_version e) d
            ∧ match e with
              | VersioningService.LatestOf v =>
                  ∃ ids, memory_ids = Some ids ∧ v_memory_id v ∈ ids
              | VersioningService.LatestIn mid v mt imp =>
                  v_memory_id v = mid
                  ∧ ∃ row, row ∈ memories d ∧ m_id row = mid ∧ m_is_deleted row = 0
                           ∧ m_memory_type row = mt ∧ m_importance row = imp
              end) as Hall.
  { intros es -> e He. apply elem_of_py_slice_to in He.
    apply latest_of_memories_spec in He as (m & v & Hm & -> & Hid & Hl).
    split; [done|]. split; [done|].
    apply list_elem_of_fmap in Hm as (row & -> & Hrow).
    apply elem_of_limit, elem_of_offset in Hrow.
    unfold order_by_desc in Hrow. rewrite order_by_perm in Hrow.
    apply list_elem_of_In, filter_In in Hrow as [Hin Hsel].
    unfold MemoryDB.selected in Hsel. rewrite !andb_true_iff in Hsel.
    destruct Hsel as [[[Hdel _] _] _]. apply Z.eqb_eq in Hdel.
    exists row. by rewrite list_elem_of_In. }
  destruct memory_ids as [[|mid ids]|].
  - eexists. split; [reflexivity|]. by apply Hall.
  - eexists. split; [reflexivity|]. intros e He.
    apply latest_of_ids_spec in He as (v & -> & Hin & Hl).
    split; [done|]. exists (mid :: ids). split; [done|].
    by apply elem_of_py_slice_to in Hin.
  - eexists. split; [reflexivity|]. by apply Hall.
Qed.

Lemma sorted_filter {A} (R : A → A → Prop) (p : A → bool) l :
  StronglySorted R l → StronglySorted R (List.filter p l).
Proof.
  induction 1 as [|x l Hs IH Hx]; simpl; [constructor|].
  destruct (p x); [|done]. constructor; [done|].
  apply Forall_forall. intros y Hy. apply list_elem_of_In, filter_In in Hy as [Hy _].
  rewrite Forall_forall in Hx. by apply Hx, list_elem_of_In.
Qed.

(** X10: [get_change_log] changes nothing and returns, in version order, the
    versions of the record's history made by the given author, all of them
    and no other; with no author, or the empty string, it returns the whole
    history. *)
Theorem change_log_filters_history memory_id changed_by d :
  ∃ log,
    VersioningService.get_change_log memory_id changed_by d = (Ok log, d)
    ∧ StronglySorted (key_le v_version) log
    ∧ ∀ v, v ∈ log ↔
        v ∈ versions d ∧ v_memory_id v = memory_id
        ∧ (truthy_opt_str changed_by = true → Some (v_changed_by v) = changed_by).
Proof.
  unfold VersioningService.get_change_log, bind. rewrite get_versions_eq.
  destruct (truthy_opt_str changed_by) eqn:Hby; cbn [ret].
  - eexists. split; [reflexivity|]. split.
    + apply sorted_filter, order_by_sorted.
    + intros v. rewrite list_elem_of_In, filter_In, <- list_elem_of_In, elem_of_history.
      destruct changed_by as [by_|]; [|done]. cbn [default].
      rewrite String.eqb_eq. split.
      * intros [[Hv Hid] Heq]. split; [done|]. split; [done|]. intros _. by f_equal.
      * intros (Hv & Hid & Heq). split; [done|]. specialize (Heq eq_refl).
        by injection Heq.
  - eexists. split; [reflexivity|]. split; [apply order_by_sorted|].
    intros v. rewrite elem_of_history. split.
    + intros [Hv Hid]. by split.
    + intros (Hv & Hid & _). done.
Qed.

(** *** The save queue *)

Lemma save_items_stop good : ∀ bad rest flushed now d,
  Forall valid_item good → ¬ valid_item bad →
  ∃ e d', PersistenceService.save_items (good ++ bad :: rest) flushed now d
          = (Some e, flushed + Z.of_nat (length good), d')
          ∧ payloads d' = payloads d ++ map payload_of_item good.
Proof.
  induction good as [|i good IH]; intros bad rest flushed now d Hall Hbad.
  - cbn [app PersistenceService.save_items].
    destruct (save_memory_invalid _ _
      (PersistenceService.k_session_id (PersistenceService.i_kwargs bad))
      (PersistenceService.k_date (PersistenceService.i_kwargs bad)) _
      (PersistenceService.k_tags (PersistenceService.i_kwargs bad)) now d Hbad)
      as [msg Hm].
    unfold PersistenceService.save_item. rewrite Hm.
    eexists _, d. split; [simpl; do 2 f_equal; lia|]. simpl. by rewrite app_nil_r.
  - apply Forall_cons in Hall as [Hi Hall].
    cbn [app PersistenceService.save_items].
    destruct (save_item_ok i now d Hi) as (id & d1 & -> & Hp).
    destruct (IH bad rest (flushed + 1) now d1 Hall Hbad) as (e & d' & -> & Hp').
    exists e, d'. split; [simpl; do 2 f_equal; lia|].
    rewrite Hp', Hp. simpl. by rewrite <- app_assoc.
Qed.

Lemma force_flush_stop good bad rest now s d :
  Forall valid_item good → ¬ valid_item bad →
  PersistenceService.queue s = good ++ bad :: rest →
  ∃ s' d',
    PersistenceService.force_flush now s d = (Z.of_nat (length good), s', d')
    ∧ PersistenceService.queue s' = PersistenceService.queue s
    ∧ PersistenceService.error_count s' = PersistenceService.error_count s + 1
    ∧ PersistenceService.flush_count s' = PersistenceService.flush_count s
    ∧ PersistenceService.last_flush s' = PersistenceService.last_flush s
    ∧ payloads d' = payloads d ++ map payload_of_item good.
Proof.
  intros Hall Hbad Hq. unfold PersistenceService.force_flush. rewrite Hq.
  destruct (save_items_stop good bad rest 0 now d Hall Hbad) as (e & d' & Hs & Hp).
  destruct (good ++ bad :: rest) as [|i items] eqn:Hitems;
    [by destruct good|].
  rewrite Hs. eexists _, d'. split; [reflexivity|]. by cbn.
Qed.

(** X11: one item that [save_memory] refuses blocks the queue.  A flush of a
    queue that holds such an item saves the items in front of it, returns
    their number, counts one error and puts every drained item back, the
    saved ones too.  So after any number of flushes the queue is what it was,
    the items in front of the refused one have been stored once per flush,
    and no item behind it has been stored. *)
Theorem flush_blocked_by_refused_item good bad rest times s d :
  Forall valid_item good → ¬ valid_item bad →
  PersistenceService.queue s = good ++ bad :: rest →
  ∃ s' d',
    flush_each times s d = (s', d')
    ∧ PersistenceService.queue s' = good ++ bad :: rest
    ∧ PersistenceService.error_count s'
      = PersistenceService.error_count s + Z.of_nat (length times)
    ∧ PersistenceService.flush_count s' = PersistenceService.flush_count s
    ∧ payloads d'
      = payloads d ++ repeated (length times) (map payload_of_item good).
Proof.
  intros Hall Hbad. revert s d.
  induction times as [|now times IH]; intros s d Hq.
  - exists s, d. cbn. rewrite app_nil_r, Z.add_0_r. done.
  - destruct (force_flush_stop good bad rest now s d Hall Hbad Hq)
      as (s1 & d1 & Hf & Hq1 & He1 & Hc1 & _ & Hp1).
    rewrite Hq in Hq1.
    destruct (IH s1 d1 Hq1) as (s' & d' & Hfl & Hq' & He' & Hc' & Hp').
    exists s', d'. cbn [flush_each]. rewrite Hf, Hfl.
    split; [done|]. split; [done|]. split; [|split].
    + rewrite He', He1. cbn [length]. lia.
    + by rewrite Hc', Hc1.
    + rewrite Hp', Hp1. cbn [length repeated]. by rewrite <- app_assoc.
Qed.

Lemma flush_blocked_by_refused_item_witness :
  ∃ s' d',
    flush_each [5; 6] blocked_service empty_db = (s', d')
    ∧ PersistenceService.queue s'
      = [item_of (call "a" 1)] ++ refused_item :: [item_of (call "c" 3)]
    ∧ PersistenceService.error_count s'
      = PersistenceService.error_count blocked_service + Z.of_nat (length [5; 6])
    ∧ PersistenceService.flush_count s' = PersistenceService.flush_count blocked_service
    ∧ payloads d'
      = payloads empty_db
        ++ repeated (length [5; 6]) (map payload_of_item [item_of (call "a" 1)]).
Proof.
  apply (flush_blocked_by_refused_item [item_of (call "a" 1)] refused_item
           [item_of (call "c" 3)] [5; 6] blocked_service empty_db).
  - apply (bool_decide_unpack _). vm_compute. exact I.
  - apply (bool_decide_unpack _). vm_compute. exact I.
  - reflexivity.
Defined.

(** X12: [save_immediately] goes past the queue.  It leaves the queue as it
    is, and its record is stored in front of the records of every item queued
    before the call, whose records appear, in queue order, at the next
    flush. *)
Theorem save_immediately_overtakes_queue mt c kw now now' s d :
  Forall valid_item (PersistenceService.queue s) →
  valid_item (PersistenceService.mkItem mt c kw now) →
  ∃ id s1 d1 s2 d2,
    PersistenceService.save_immediately mt c kw now s d = (Ok id, s1, d1)
    ∧ PersistenceService.queue s1 = PersistenceService.queue s
    ∧ PersistenceService.force_flush now' s1 d1
      = (Z.of_nat (length (PersistenceService.queue s)), s2, d2)
    ∧ PersistenceService.queue s2 = []
    ∧ payloads d2
      = payloads d ++ payload_of_item (PersistenceService.mkItem mt c kw now)
          :: map payload_of_item (PersistenceService.queue s).
Proof.
  intros Hall Hv. unfold PersistenceService.save_immediately.
  destruct (save_item_ok _ now d Hv) as (id & d1 & -> & Hp1).
  set (s1 := PersistenceService.mkService _ _ _ _ _ _ _ _).
  destruct (force_flush_ok now' s1 d1 Hall) as (s2 & d2 & Hf & Hq & _ & Hp2).
  exists id, s1, d1, s2, d2. split; [done|]. split; [done|].
  split; [exact Hf|]. split; [exact Hq|].
  rewrite Hp2, Hp1, <- app_assoc. done.
Qed.

Lemma save_immediately_overtakes_queue_witness :
  ∃ id s1 d1 s2 d2,
    PersistenceService.save_immediately "session" (doc "now")
      (PersistenceService.mkKwargs None None None None) 4
      (fst (queue_all [call "a" 1; call "b" 2] (PersistenceService.init 10) empty_db))
      empty_db = (Ok id, s1, d1)
    ∧ PersistenceService.queue s1 = [item_of (call "a" 1); item_of (call "b" 2)]
    ∧ PersistenceService.force_flush 5 s1 d1 = (2, s2, d2)
    ∧ PersistenceService.queue s2 = []
    ∧ payloads d2
      = payloads empty_db
        ++ payload_of_item (PersistenceService.mkItem "session" (doc "now")
             (PersistenceService.mkKwargs None None None None) 4)
          :: map payload_of_item [item_of (call "a" 1); item_of (call "b" 2)].
Proof.
  apply (save_immediately_overtakes_queue "session" (doc "now")
           (PersistenceService.mkKwargs None None None None) 4 5
           (fst (queue_all [call "a" 1; call "b" 2] (PersistenceService.init 10)
                   empty_db)) empty_db).
  - apply (bool_decide_unpack _). vm_compute. exact I.
  - apply (bool_decide_unpack _). vm_compute. exact I.
Defined.

Lemma force_flush_running now s d :
  PersistenceService.running (snd (fst (PersistenceService.force_flush now s d)))
  = PersistenceService.running s.
Proof.
  unfold PersistenceService.force_flush.
  destruct (PersistenceService.queue s); [done|].
  by destruct (PersistenceService.save_items _ _ _ _) as [[[e|] k] d1].
Qed.

Lemma queue_call_running q s d :
  PersistenceService.running (snd (fst (queue_call q s d))) = PersistenceService.running s.
Proof.
  unfold queue_call, PersistenceService.queue_save.
  destruct (_ >=? _); [|done].
  unfold PersistenceService.force_flush.
  destruct (PersistenceService.queue s); [done|].
  by destruct (PersistenceService.save_items _ _ _ _) as [[[e|] k] d1].
Qed.

Lemma queue_call_nonempty q s d :
  PersistenceService.queue (snd (fst (queue_call q s d))) ≠ [].
Proof.
  unfold queue_call, PersistenceService.queue_save.
  destruct (if _ >=? _ then _ else _) as [s1 d1]. cbn.
  by destruct (PersistenceService.queue s1).
Qed.

Lemma queue_all_running calls : ∀ s d,
  PersistenceService.running (fst (queue_all calls s d)) = PersistenceService.running s.
Proof.
  induction calls as [|q calls IH]; intros s d; cbn [queue_all]; [done|].
  pose proof (queue_call_running q s d) as Hr.
  destruct (queue_call q s d) as [[b s1] d1]. by rewrite IH.
Qed.

Lemma queue_all_snoc calls q : ∀ s d,
  queue_all (calls ++ [q]) s d
  = (let '(s1, d1) := queue_all calls s d in
     let '(_, s2, d2) := queue_call q s1 d1 in (s2, d2)).
Proof.
  induction calls as [|q' calls IH]; intros s d; cbn [app queue_all].
  - by destruct (queue_call q s d) as [[b s1] d1].
  - destruct (queue_call q' s d) as [[b s1] d1]. apply IH.
Qed.

(** X13: [stop] flushes only a service that was started.  When valid items
    are queued on a service and [stop] is called, a started service ends up
    stopped with an empty queue and every queued item stored, in call order;
    a service that was never started is left as it is, with a queue that is
    not empty and nothing more stored. *)
Theorem stop_flushes_only_when_started n calls q now d :
  Forall (λ q, valid_item (item_of q)) (calls ++ [q]) →
  (∃ s' d',
     (let '(s1, d1) := queue_all (calls ++ [q])
                         (PersistenceService.start (PersistenceService.init n)) d in
      PersistenceService.stop now s1 d1) = (s', d')
     ∧ PersistenceService.running s' = false
     ∧ PersistenceService.get_queue_size s' = 0
     ∧ payloads d' = payloads d ++ map payload_of_item (map item_of (calls ++ [q])))
  ∧ (∃ s1 d1,
       queue_all (calls ++ [q]) (PersistenceService.init n) d = (s1, d1)
       ∧ PersistenceService.stop now s1 d1 = (s1, d1)
       ∧ 0 < PersistenceService.get_queue_size s1).
Proof.
  intros Hall. split.
  - destruct (queue_all_conserves (calls ++ [q])
                (PersistenceService.start (PersistenceService.init n)) d)
      as (s1 & d1 & Hq & Hv & Hp); [by constructor|done|].
    pose proof (queue_all_running (calls ++ [q])
                  (PersistenceService.start (PersistenceService.init n)) d) as Hr.
    rewrite Hq in *. cbn in Hr. unfold PersistenceService.stop. rewrite Hr. cbn [negb].
    set (s1' := PersistenceService.mkService _ _ _ _ _ _ _ _).
    destruct (force_flush_ok now s1' d1 Hv) as (s2 & d2 & Hf & Hq2 & _ & Hp2).
    rewrite Hf. exists s2, d2. split; [done|]. split; [|split].
    + pose proof (force_flush_running now s1' d1) as Hr2. by rewrite Hf in Hr2.
    + unfold PersistenceService.get_queue_size. by rewrite Hq2.
    + rewrite Hp2. cbn [PersistenceService.queue s1']. rewrite Hp. cbn. done.
  - pose proof (queue_all_running (calls ++ [q]) (PersistenceService.init n) d) as Hr.
    pose proof (queue_all_snoc calls q (PersistenceService.init n) d) as Hs.
    destruct (queue_all (calls ++ [q]) (PersistenceService.init n) d) as [s1 d1].
    exists s1, d1. split; [done|]. cbn in Hr. split.
    + unfold PersistenceService.stop. by rewrite Hr.
    + destruct (queue_all calls (PersistenceService.init n) d) as [s0 d0].
      pose proof (queue_call_nonempty q s0 d0) as Hne.
      destruct (queue_call q s0 d0) as [[b s2] d2]. injection Hs as -> ->.
      cbn in Hne. unfold PersistenceService.get_queue_size.
      destruct (PersistenceService.queue s2); [done|]. cbn [length]. lia.
Qed.

Lemma stop_flushes_only_when_started_witness :
  (∃ s' d',
     (let '(s1, d1) := queue_all ([call "a" 1] ++ [call "b" 2])
                         (PersistenceService.start (PersistenceService.init 10))
                         empty_db in
      PersistenceService.stop 3 s1 d1) = (s', d')
     ∧ PersistenceService.running s' = false
     ∧ PersistenceService.get_queue_size s' = 0
     ∧ payloads d' = payloads empty_db
         ++ map payload_of_item (map item_of ([call "a" 1] ++ [call "b" 2])))
  ∧ (∃ s1 d1,
       queue_all ([call "a" 1] ++ [call "b" 2]) (PersistenceService.init 10) empty_db
       = (s1, d1)
       ∧ PersistenceService.stop 3 s1 d1 = (s1, d1)
       ∧ 0 < PersistenceService.get_queue_size s1).
Proof.
  apply (stop_flushes_only_when_started 10 [call "a" 1] (call "b" 2) 3 empty_db).
  apply (bool_decide_unpack _). vm_compute. exact I.
Defined.

(** *** Backups *)

Lemma verify_backup_world {os : OS} backup_id w :
  snd (BackupService.verify_backup backup_id w) = w.
Proof.
  unfold BackupService.verify_backup.
  destruct (the_tables w) as [d|e]; [|done].
  destruct (List.find _ (backups d)) as [row|]; [|done].
  destruct (negb _); [done|].
  destruct (BackupService._calculate_checksum _ _); [|done].
  by case_bool_decide.
Qed.

(** X14: [verify_backup] changes neither the files nor the tables, and it
    reports a backup as valid exactly when the catalogue has a row for the
    key, the recorded path is a regular file, and the digest of that file is
    the recorded checksum.  The status of the row is not looked at. *)
Theorem verify_backup_valid_iff {os : OS} backup_id w d :
  conn w = Some (Tables d) →
  snd (BackupService.verify_backup backup_id w) = w
  ∧ ((∃ r, fst (BackupService.verify_backup backup_id w) = Ok r
           ∧ BackupService.vr_valid r = true)
     ↔ ∃ row c, List.find (λ b, b_id b =? backup_id) (backups d) = Some row
                ∧ fs w !! b_file_path row = Some (File c)
                ∧ b_checksum row = Some (md5 c)).
Proof.
  intros Hc. split; [apply verify_backup_world|].
  unfold BackupService.verify_backup, the_tables. rewrite Hc.
  destruct (List.find _ (backups d)) as [row|].
  - unfold path_exists, BackupService._calculate_checksum, read_file.
    destruct (fs w !! b_file_path row) as [[c|]|] eqn:Hf; cbn.
    + case_bool_decide as Hsum; cbn.
      * split; [|by eauto]. intros _. by exists row, c.
      * split; [by intros (r & [= <-] & ?)|].
        intros (row' & c' & [= <-] & Hf' & Hs). rewrite Hf in Hf'.
        injection Hf' as <-. by rewrite Hs in Hsum.
    + split; [by intros (r & ? & ?)|].
      intros (row' & c' & [= <-] & Hf' & _). by rewrite Hf in Hf'.
    + split; [by intros (r & [= <-] & ?)|].
      intros (row' & c' & [= <-] & Hf' & _). by rewrite Hf in Hf'.
  - cbn. split; [by intros (r & [= <-] & ?)|]. by intros (row' & c' & ? & _).
Qed.

Lemma verify_backup_valid_iff_witness :
  snd (BackupService.verify_backup (os := example_os) 1 world_intact) = world_intact
  ∧ ((∃ r, fst (BackupService.verify_backup (os := example_os) 1 world_intact) = Ok r
           ∧ BackupService.vr_valid r = true)
     ↔ ∃ row c, List.find (λ b, b_id b =? 1) (backups catalogue1) = Some row
                ∧ fs world_intact !! b_file_path row = Some (File c)
                ∧ b_checksum row = Some (md5 (OS := example_os) c)).
Proof. apply (verify_backup_valid_iff (os := example_os) 1 world_intact catalogue1). reflexivity. Defined.

Lemma path_isdir_insert_ne f p q n :
  p ≠ q → path_isdir (<[p := n]> f) q = path_isdir f q.
Proof. intros Hne. unfold path_isdir. by rewrite lookup_insert_ne. Qed.

Lemma copy2_file src dst f c :
  f !! src = Some (File c) → path_isdir f dst = false → src ≠ dst →
  copy2 src dst f = (Ok tt, <[dst := File c]> f).
Proof.
  intros Hsrc Hdst Hne. unfold copy2, read_file. rewrite Hdst, Hsrc.
  apply String.eqb_neq in Hne. rewrite Hne, andb_false_r. by rewrite Hdst.
Qed.

Lemma find_new_backup d row :
  backup_ids_bounded d → b_id row = seq_backups d + 1 →
  List.find (λ b, b_id b =? b_id row) (backups (catalogued d row)) = Some row
  ∧ List.find (λ b, b_id b =? b_id row) (backups d) = None.
Proof.
  intros Hb Hid.
  assert (List.find (λ b, b_id b =? b_id row) (backups d) = None) as Hnone.
  { apply find_Forall_None. eapply Forall_impl; [exact Hb|]. simpl. intros b Hle. lia. }
  split; [|done]. unfold catalogued. cbn [backups set_backups].
  rewrite find_app_None by done. by rewrite Z.eqb_refl.
Qed.

(** What a successful [BackupService.create_backup] does. *)
Lemma service_create_backup_ok {os : OS} bt ds now w d :
  conn w = Some (Tables d) → has_description d = true →
  BackupService.valid_backup_type bt = true →
  path_isdir (fs w) (service_backup_path w now) = false →
  service_backup_path w now ≠ db_path w →
  BackupService.create_backup bt ds now w
  = (Ok (seq_backups d + 1),
     backed_up w d (service_backup_path w now) (Image d)
       (completed_row (seq_backups d + 1) bt (service_backup_path w now) (Image d)
          now ds)
       (<[db_path w := File (Image d)]> (fs w))).
Proof.
  intros Hc Hd Hbt Hdir Hne.
  unfold BackupService.create_backup. fold (service_backup_path w now).
  set (P := service_backup_path w now) in *.
  unfold BackupService.create_backup_try, commit. rewrite Hc. cbn [fs db_path set_fs].
  rewrite (copy2_file _ _ _ (Image d)); [|by rewrite lookup_insert_eq| |done].
  2:{ by rewrite path_isdir_insert_ne. }
  cbn [fs set_fs]. unfold BackupService._calculate_checksum, read_file.
  rewrite lookup_insert_eq.
  unfold BackupService.insert_backup, the_tables. cbn [conn set_fs].
  rewrite Hc, Hd, Hbt. cbn. reflexivity.
Qed.

(** What a successful [MemoryDB.create_backup] does: the file is copied as
    it is on disk, without a commit before. *)
Lemma memory_db_create_backup_ok {os : OS} {lib : Lib} bt now w d c :
  conn w = Some (Tables d) → fs w !! db_path w = Some (File c) →
  makedirs "data/backups" (fs w) = (Ok tt, fs w) →
  BackupService.valid_backup_type bt = true →
  path_isdir (fs w) (memory_db_backup_path now) = false →
  memory_db_backup_path now ≠ db_path w →
  MemoryDB.create_backup bt now w
  = (Ok (seq_backups d + 1),
     backed_up w d (memory_db_backup_path now) c
       (completed_row (seq_backups d + 1) bt (memory_db_backup_path now) c now None)
       (fs w)).
Proof.
  intros Hc Hf Hmk Hbt Hdir Hne.
  unfold MemoryDB.create_backup, connect, the_tables. rewrite Hc, Hmk.
  fold (memory_db_backup_path now). set (P := memory_db_backup_path now) in *.
  cbn [fs db_path set_fs].
  replace (set_fs w (fs w)) with w by by destruct w.
  rewrite (copy2_file _ _ _ c); [|done|done|done].
  cbn [fs set_fs]. unfold read_file. rewrite lookup_insert_eq.
  unfold MemoryDB.insert_completed, the_tables. cbn [conn set_fs]. rewrite Hc.
  unfold BackupService.valid_backup_type in Hbt. rewrite Hbt. cbn. reflexivity.
Qed.

Lemma backed_up_path w d path c row f :
  path ≠ db_path w → fs (backed_up w d path c row f) !! path = Some (File c).
Proof.
  intros Hne. unfold backed_up. cbn [fs].
  rewrite lookup_insert_ne by done. by rewrite lookup_insert_eq.
Qed.

(** X15: a backup that [BackupService.create_backup] has just made passes
    [verify_backup].  On tables that have the [description] column, with a
    backup type the schema accepts and a backup path that is free, the call
    returns the next key, and the report for that key is valid with no
    error. *)
Theorem backup_verifies_after_creation {os : OS} bt ds now w d :
  conn w = Some (Tables d) → has_description d = true →
  BackupService.valid_backup_type bt = true →
  path_isdir (fs w) (service_backup_path w now) = false →
  service_backup_path w now ≠ db_path w →
  backup_ids_bounded d →
  ∃ id w' r,
    BackupService.create_backup bt ds now w = (Ok id, w')
    ∧ id = seq_backups d + 1
    ∧ BackupService.verify_backup id w' = (Ok r, w')
    ∧ BackupService.vr_valid r = true
    ∧ BackupService.vr_error r = None.
Proof.
  intros Hc Hd Hbt Hdir Hne Hb.
  rewrite (service_create_backup_ok bt ds now w d Hc Hd Hbt Hdir Hne).
  set (P := service_backup_path w now) in *.
  set (row := completed_row (seq_backups d + 1) bt P (Image d) now ds).
  destruct (find_new_backup d row Hb eq_refl) as [Hfind _].
  eexists _, _, _. split; [reflexivity|]. split; [reflexivity|].
  unfold BackupService.verify_backup, the_tables. cbn [conn backed_up].
  change (b_id row) with (seq_backups d + 1) in Hfind. rewrite Hfind.
  unfold path_exists, BackupService._calculate_checksum, read_file.
  change (fs (backed_up w d P (Image d) row _)) with
    (<[db_path w := File (Image (catalogued d row))]>
       (<[P := File (Image d)]> (<[db_path w := File (Image d)]> (fs w)))).
  cbn [b_file_path row completed_row].
  rewrite lookup_insert_ne by done. rewrite lookup_insert_eq. cbn [negb].
  cbn [b_checksum]. rewrite bool_decide_eq_true_2 by done.
  split; [reflexivity|]. done.
Qed.

Lemma backup_verifies_after_creation_witness :
  ∃ id w' r,
    BackupService.create_backup (os := example_os) "manual" None 7 world0 = (Ok id, w')
    ∧ id = seq_backups catalogue0 + 1
    ∧ BackupService.verify_backup (os := example_os) id w' = (Ok r, w')
    ∧ BackupService.vr_valid r = true
    ∧ BackupService.vr_error r = None.
Proof.
  apply (backup_verifies_after_creation (os := example_os) "manual" None 7 world0
           catalogue0).
  - reflexivity.
  - reflexivity.
  - reflexivity.
  - reflexivity.
  - apply (bool_decide_unpack _). vm_compute. exact I.
  - apply (bool_decide_unpack _). vm_compute. exact I.
Defined.

(** X16: the backup service does not work on the schema that
    [create_tables] makes.  On a new database, after [create_tables],
    [BackupService.create_backup] raises for every backup type, description
    and clock reading, and leaves the catalogue empty: neither the completed
    nor the failed row can be inserted, both statements name the
    [description] column.  [list_backups] and [get_latest_backup] raise
    too. *)
Theorem service_backup_fails_on_own_schema {os : OS} bt ds now w :
  conn w = None → fs w !! db_path w = None →
  ∃ w1 e w2,
    MemoryDB.create_tables w = (Ok tt, w1)
    ∧ BackupService.create_backup bt ds now w1 = (Raise e, w2)
    ∧ conn w2 = Some (Tables empty_db)
    ∧ (∀ t s l, BackupService.list_backups t s l w2 = (Raise OperationalError, w2))
    ∧ BackupService.get_latest_backup w2 = (Raise OperationalError, w2).
Proof.
  intros Hc Hf. unfold MemoryDB.create_tables, connect. rewrite Hc, Hf.
  cbn [conn set_conn set_fs commit fs db_path].
  set (w1 := set_fs _ _).
  assert (conn w1 = Some (Tables empty_db)) as Hc1 by done.
  assert (∃ e w2, BackupService.create_backup bt ds now w1 = (Raise e, w2)
                  ∧ conn w2 = Some (Tables empty_db)) as (e & w2 & Hcr & Hc2).
  { unfold BackupService.create_backup.
    set (P := path_join _ _).
    assert (∀ st sz ck de w', conn w' = Some (Tables empty_db) →
              BackupService.insert_backup bt P sz ck st de now w'
              = (Raise OperationalError, w')) as Hins.
    { intros st sz ck de w' Hw'. unfold BackupService.insert_backup, the_tables.
      by rewrite Hw'. }
    assert (∃ e w', BackupService.create_backup_try bt ds P now w1 = (Raise e, w')
                    ∧ conn w' = Some (Tables empty_db)) as (e & w' & -> & Hw').
    { unfold BackupService.create_backup_try.
      assert (conn (commit w1) = Some (Tables empty_db)) as Hcc by done.
      destruct (copy2 _ _ _) as [[[]|e] f]; [|by eexists _, _].
      destruct (BackupService._calculate_checksum _ _) as [ck|e]; [|by eexists _, _].
      destruct (read_file _ _) as [c|e]; [|by eexists _, _].
      rewrite Hins by done. by eexists _, _. }
    rewrite Hw', Hins by done. by eexists _, _. }
  exists w1, e, w2. split; [done|]. split; [exact Hcr|]. split; [exact Hc2|].
  assert (∀ t s l, BackupService.list_backups t s l w2 = (Raise OperationalError, w2))
    as Hl.
  { intros t s l. unfold BackupService.list_backups, the_tables. by rewrite Hc2. }
  split; [exact Hl|]. unfold BackupService.get_latest_backup. by rewrite Hl.
Qed.

Lemma service_backup_fails_on_own_schema_witness :
  ∃ w1 e w2,
    MemoryDB.create_tables world_fresh = (Ok tt, w1)
    ∧ BackupService.create_backup (os := example_os) "manual" None 7 w1 = (Raise e, w2)
    ∧ conn w2 = Some (Tables empty_db)
    ∧ (∀ t s l, BackupService.list_backups t s l w2 = (Raise OperationalError, w2))
    ∧ BackupService.get_latest_backup w2 = (Raise OperationalError, w2).
Proof.
  apply (service_backup_fails_on_own_schema (os := example_os) "manual" None 7
           world_fresh); reflexivity.
Defined.

(** X17: a backup made by [MemoryDB.create_backup] can be restored once.
    When the tables are committed to the database file, the directory of the
    backups exists and the backup path is free, [create_backup] returns a key
    and [restore_backup] of that key returns [True]; the tables are then the
    ones at the time of the backup, which do not hold the catalogue row of
    this backup, so a second [restore_backup] of the same key returns
    [False]. *)
Theorem backup_restore_round_trip {os : OS} {lib : Lib} bt now w d :
  conn w = Some (Tables d) → fs w !! db_path w = Some (File (Image d)) →
  makedirs "data/backups" (fs w) = (Ok tt, fs w) →
  BackupService.valid_backup_type bt = true →
  path_isdir (fs w) (memory_db_backup_path now) = false →
  memory_db_backup_path now ≠ db_path w →
  backup_ids_bounded d →
  ∃ id w1 w2,
    MemoryDB.create_backup bt now w = (Ok id, w1)
    ∧ MemoryDB.restore_backup id w1 = (Ok true, w2)
    ∧ conn w2 = Some (Tables d)
    ∧ fs w2 !! db_path w2 = Some (File (Image d))
    ∧ MemoryDB.restore_backup id w2 = (Ok false, w2).
Proof.
  intros Hc Hf Hmk Hbt Hdir Hne Hb.
  rewrite (memory_db_create_backup_ok bt now w d (Image d) Hc Hf Hmk Hbt Hdir Hne).
  set (P := memory_db_backup_path now) in *.
  set (row := completed_row (seq_backups d + 1) bt P (Image d) now None).
  destruct (find_new_backup d row Hb eq_refl) as [Hfind Hnone].
  change (b_id row) with (seq_backups d + 1) in Hfind, Hnone.
  set (w1 := backed_up w d P (Image d) row (fs w)).
  pose proof (backed_up_path w d P (Image d) row (fs w) Hne) as HP. fold w1 in HP.
  assert (MemoryDB.restore_backup (seq_backups d + 1) w1
          = (Ok true,
             mkWorld (<[db_path w := File (Image d)]> (fs w1)) (db_path w)
                     (backup_dir w) (Some (Tables d)) (locks w))) as Hr.
  { rewrite (restore_backup_row _ w1 (catalogued d row) row); [|done|done].
    change (b_file_path row) with P. unfold path_exists, read_file. rewrite HP.
    cbn [negb]. change (b_checksum row) with (Some (md5 (Image d))).
    rewrite bool_decide_eq_true_2 by done. cbn [negb].
    change (db_path w1) with (db_path w).
    rewrite (copy2_file P (db_path w) (fs w1) (Image d) HP); [|..|done].
    2:{ unfold path_isdir, w1, backed_up. cbn [fs]. by rewrite lookup_insert_eq. }
    unfold connect, close. cbn [conn set_conn set_fs fs db_path].
    rewrite lookup_insert_eq. cbn [view_of]. reflexivity. }
  eexists _, w1, _. split; [reflexivity|]. split; [exact Hr|].
  split; [done|]. split; [cbn [fs db_path]; by rewrite lookup_insert_eq|].
  unfold MemoryDB.restore_backup, connect, the_tables. cbn [conn].
  by rewrite Hnone.
Qed.

Lemma backup_restore_round_trip_witness :
  ∃ id w1 w2,
    MemoryDB.create_backup (os := example_os) (lib := example_lib) "manual" 7 world_ready
    = (Ok id, w1)
    ∧ MemoryDB.restore_backup (os := example_os) id w1 = (Ok true, w2)
    ∧ conn w2 = Some (Tables store_v2)
    ∧ fs w2 !! db_path w2 = Some (File (Image store_v2))
    ∧ MemoryDB.restore_backup (os := example_os) id w2 = (Ok false, w2).
Proof.
  apply (backup_restore_round_trip (os := example_os) (lib := example_lib) "manual" 7
           world_ready store_v2).
  - reflexivity.
  - reflexivity.
  - reflexivity.
  - reflexivity.
  - reflexivity.
  - apply (bool_decide_unpack _). vm_compute. exact I.
  - apply (bool_decide_unpack _). vm_compute. exact I.
Defined.



Lemma filter_false_nil {A} (p : A → bool) l :
  (∀ x, x ∈ l → p x = false) → List.filter p l = [].
Proof.
  intros Hp. apply filter_Forall_nil, Forall_forall. exact Hp.
Qed.

(** X19: a negative [keep_count] keeps everything.  [LIMIT] with a negative
    number is no limit, so the inner query selects every row of the scope and
    the cleanup deletes no row and no file; it returns 0 and only commits. *)
Theorem cleanup_negative_keeps_all keep_count bt w d :
  conn w = Some (Tables d) → keep_count < 0 →
  BackupService.cleanup_old_backups keep_count bt w = (Ok 0, commit w).
Proof.
  intros Hc Hk. unfold BackupService.cleanup_old_backups, the_tables. rewrite Hc.
  assert (BackupService.rows_to_delete keep_count bt d = []) as ->; [|done].
  unfold BackupService.rows_to_delete.
  rewrite filter_false_nil; [done|]. intros b Hb.
  destruct (BackupService.in_scope bt b) eqn:Hs; [|done]. cbn [andb].
  apply negb_false_iff, bool_decide_eq_true_2.
  unfold BackupService.kept_ids, sql_limit. replace (keep_count <? 0) with true by lia.
  apply list_elem_of_fmap. exists b. split; [done|].
  unfold order_by_desc. rewrite order_by_perm.
  apply list_elem_of_In, filter_In. by rewrite <- list_elem_of_In.
Qed.

Lemma cleanup_negative_keeps_all_witness :
  BackupService.cleanup_old_backups (-1) None world_failed = (Ok 0, commit world_failed).
Proof.
  apply (cleanup_negative_keeps_all (-1) None world_failed catalogue_failed);
    [reflexivity|lia].
Defined.

Lemma sorted_desc_head {A} (key : A → Z) l x :
  StronglySorted (key_ge key) l → head l = Some x →
  Forall (λ y, key y ≤ key x) l.
Proof.
  destruct 1 as [|y l Hs Hy]; [done|]. intros [= ->].
  constructor; [done|]. eapply Forall_impl; [exact Hy|]. unfold key_ge. done.
Qed.

(** X20: on tables that have the [description] column, [get_latest_backup]
    changes nothing and returns [None] exactly when the catalogue is empty;
    otherwise it returns a catalogue row than which none was created later,
    whatever its status: a failed backup can be the latest. *)
Theorem latest_backup_is_most_recent w d :
  conn w = Some (Tables d) → has_description d = true →
  ∃ r,
    BackupService.get_latest_backup w = (Ok r, w)
    ∧ match r with
      | None => backups d = []
      | Some b =>
          b ∈ backups d
          ∧ ∀ b', b' ∈ backups d → b_created_at b' ≤ b_created_at b
      end.
Proof.
  intros Hc Hd. unfold BackupService.get_latest_backup, BackupService.list_backups,
    the_tables. rewrite Hc, Hd. cbn [negb]. eexists. split; [reflexivity|].
  assert (List.filter (λ b, sql_filter None (Some (b_backup_type b))
                            && sql_filter None (Some (b_status b))) (backups d)
          = backups d) as ->.
  { apply forallb_filter_id, forallb_forall. by intros b _. }
  unfold sql_limit. cbn [Z.ltb Z.compare Z.to_nat Pos.to_nat Pos.iter_op Nat.add].
  pose proof (order_by_desc_sorted b_created_at (backups d)) as Hs.
  pose proof (order_by_perm (λ x, - b_created_at x) (backups d)) as Hp.
  fold (order_by_desc b_created_at (backups d)) in Hp.
  destruct (order_by_desc b_created_at (backups d)) as [|b l] eqn:Ho.
  - cbn. by apply Permutation_nil in Hp.
  - cbn. split.
    + rewrite <- Hp. by left.
    + intros b' Hb'. rewrite <- Hp in Hb'.
      pose proof (sorted_desc_head b_created_at (b :: l) b Hs eq_refl) as Hall.
      rewrite Forall_forall in Hall. by apply Hall.
Qed.

Lemma latest_backup_is_most_recent_witness :
  ∃ r,
    BackupService.get_latest_backup world_failed = (Ok r, world_failed)
    ∧ match r with
      | None => backups catalogue_failed = []
      | Some b =>
          b ∈ backups catalogue_failed
          ∧ ∀ b', b' ∈ backups catalogue_failed → b_created_at b' ≤ b_created_at b
      end.
Proof.
  apply (latest_backup_is_most_recent world_failed catalogue_failed); reflexivity.
Defined.

(** X21: [BackupService.restore_backup] restores nothing.  Its
    [backup_path, expected_checksum, status = row[0]] unpacks the characters
    of the recorded path: for every catalogued backup whose path does not
    have exactly three characters the call raises [ValueError], and for every
    key and every world it leaves the files, the tables and the connection as
    they are and does not return [True]. *)
Theorem service_restore_is_inert {os : OS} backup_id w :
  snd (BackupService.restore_backup backup_id w) = w
  ∧ BackupService.restore_backup backup_id w ≠ (Ok true, w)
  ∧ ∀ d row, conn w = Some (Tables d) →
      List.find (λ b, b_id b =? backup_id) (backups d) = Some row →
      String.length (b_file_path row) ≠ 3%nat →
      ∃ msg, BackupService.restore_backup backup_id w = (Raise (ValueError msg), w).
Proof.
  destruct (service_restore_never backup_id w) as [Hw Hr].
  split; [exact Hw|]. split.
  - intros Heq. by rewrite Heq in Hr.
  - intros d row Hc Hfind Hlen. unfold BackupService.restore_backup, the_tables.
    rewrite Hc, Hfind. unfold BackupService.unpack3.
    destruct (b_file_path row) as [|a [|b [|c [|x s]]]].
    + by eexists.
    + by eexists.
    + by eexists.
    + by exfalso.
    + by eexists.
Qed.

(** ** The callers of the record store *)

(** X22: [save_longterm_memory] has no empty-content error.  It wraps the
    given content in a document of its own, so every content, the empty one
    too, is stored when the importance is between 0 and 10; the record read
    back is of type [longterm] and holds the content under its [content]
    key. *)
Theorem longterm_accepts_any_content content imp tg source now d :
  wf d → 0 ≤ imp ≤ 10 →
  ∃ id d' m,
    LongtermMemory.save_longterm_memory content imp tg source now d = (Ok id, d')
    ∧ MemoryDB.get_memory id d' = (Ok (Some m), d')
    ∧ MemoryDB.memory_type m = "longterm"
    ∧ MemoryDB.importance m = imp
    ∧ dict_get "type" (MemoryDB.content m) = Some (JStr "longterm_memory")
    ∧ dict_get "content" (MemoryDB.content m) = Some (JDict content).
Proof.
  intros Hwf Himp. unfold LongtermMemory.save_longterm_memory.
  set (memory := [("type", JStr "longterm_memory"); _; _; _]).
  set (tg' := Some _).
  assert (valid_create "longterm" memory imp) as Hv by done.
  rewrite (save_memory_ok _ _ None None _ tg' now d Hv).
  eexists _, _, _. split; [reflexivity|].
  split; [apply get_memory_row, live_created_row, Hwf|]. done.
Qed.

Lemma longterm_accepts_any_content_witness :
  ∃ id d' m,
    LongtermMemory.save_longterm_memory [] 8 None None 3 store_v2 = (Ok id, d')
    ∧ MemoryDB.get_memory id d' = (Ok (Some m), d')
    ∧ MemoryDB.memory_type m = "longterm"
    ∧ MemoryDB.importance m = 8
    ∧ dict_get "type" (MemoryDB.content m) = Some (JStr "longterm_memory")
    ∧ dict_get "content" (MemoryDB.content m) = Some (JDict []).
Proof.
  apply (longterm_accepts_any_content [] 8 None None 3 store_v2).
  - apply (bool_decide_unpack _). vm_compute. exact I.
  - lia.
Defined.

(** X23: [add_tag] adds no tag and [remove_tag] removes none.  On a live
    record [add_tag] returns [True] and appends a version by [user] that
    holds the content already stored, while the tags read back are the
    former ones; [remove_tag] returns [False] and changes nothing. *)
Theorem add_tag_adds_no_tag id tag now d row :
  live id d = Some row → truthy_dict (m_content row) = true →
  ∃ d' m' v,
    LongtermMemory.add_tag id tag now d = (Ok true, d')
    ∧ MemoryDB.get_memory id d' = (Ok (Some m'), d')
    ∧ MemoryDB.tags m' = MemoryDB.tags (MemoryDB.memory_of_row row)
    ∧ MemoryDB.content m' = m_content row
    ∧ versions_of id d' = versions_of id d ++ [v]
    ∧ v_content v = m_content row ∧ v_changed_by v = "user"
    ∧ LongtermMemory.remove_tag id tag d = (Ok false, d)
    ∧ LongtermMemory.remove_tag id tag d' = (Ok false, d').
Proof.
  intros Hl Hc. unfold LongtermMemory.add_tag, LongtermMemory.remove_tag, bind.
  rewrite (get_memory_row id d row Hl).
  change (MemoryDB.content (MemoryDB.memory_of_row row)) with (m_content row).
  rewrite (update_memory_live id _ "user" _ now d row Hc Hl).
  pose proof (live_updated id (m_content row) "user"
                (Some ("Added tag: " +:+ tag)) now d row Hl) as Hl'.
  eexists _, _, _. split; [reflexivity|].
  split; [exact (get_memory_row _ _ _ Hl')|].
  split; [done|]. split; [done|].
  split; [apply versions_of_updated|].
  split; [done|]. split; [done|]. split; [done|].
  by rewrite (get_memory_row _ _ _ Hl').
Qed.

Lemma add_tag_adds_no_tag_witness :
  ∃ d' m' v,
    LongtermMemory.add_tag 1 "urgent" 3 store_v2 = (Ok true, d')
    ∧ MemoryDB.get_memory 1 d' = (Ok (Some m'), d')
    ∧ MemoryDB.tags m'
      = MemoryDB.tags (MemoryDB.memory_of_row
                         (mkMemoryRow 1 "daily" None None (doc "b") 0 None 1 2 0))
    ∧ MemoryDB.content m'
      = m_content (mkMemoryRow 1 "daily" None None (doc "b") 0 None 1 2 0)
    ∧ versions_of 1 d' = versions_of 1 store_v2 ++ [v]
    ∧ v_content v = m_content (mkMemoryRow 1 "daily" None None (doc "b") 0 None 1 2 0)
    ∧ v_changed_by v = "user"
    ∧ LongtermMemory.remove_tag 1 "urgent" store_v2 = (Ok false, store_v2)
    ∧ LongtermMemory.remove_tag 1 "urgent" d' = (Ok false, d').
Proof.
  apply (add_tag_adds_no_tag 1 "urgent" 3 store_v2
           (mkMemoryRow 1 "daily" None None (doc "b") 0 None 1 2 0)); reflexivity.
Defined.

Lemma archivable_created th mt c sid dt imp tg now d log_id :
  get_is_str "type" c "daily_event" = false →
  archivable th (created mt c sid dt imp tg now d) log_id = archivable th d log_id.
Proof.
  intros Hc. unfold archivable, live, created. cbn [memories].
  destruct (List.find (MemoryDB.live_row log_id) (memories d)) as [row|] eqn:Hf.
  - by rewrite (find_app_Some _ _ _ _ Hf).
  - rewrite (find_app_None _ _ _ Hf).
    destruct (MemoryDB.live_row log_id _); [|done]. cbn [m_content]. by rewrite Hc.
Qed.

Lemma archive_each_spec {lib : Lib} ids : ∀ th n now d,
  importance_bounded d →
  ∃ d' new,
    LongtermMemory.archive_each ids th n now d
    = (Ok (n + Z.of_nat (length (List.filter (archivable th d) ids))), d')
    ∧ memories d' = memories d ++ new
    ∧ length new = length (List.filter (archivable th d) ids)
    ∧ Forall (λ r, m_memory_type r = "longterm") new.
Proof.
  induction ids as [|log_id ids IH]; intros th n now d Hb.
  - exists d, []. cbn. rewrite Z.add_0_r, app_nil_r. done.
  - cbn [LongtermMemory.archive_each List.filter].
    destruct (archivable th d log_id) eqn:Ha; last first.
    { assert (LongtermMemory.archive_each (log_id :: ids) th n now d
              = LongtermMemory.archive_each ids th n now d) as Hskip.
      { cbn [LongtermMemory.archive_each]. unfold bind at 1.
        unfold archivable, live in Ha. unfold MemoryDB.get_memory.
        destruct (List.find (MemoryDB.live_row log_id) (memories d)) as [row|];
          [|done].
        cbn [MemoryDB.content MemoryDB.importance]. unfold json_loads.
        destruct (get_is_str "type" (m_content row) "daily_event");
          cbn [negb andb] in *; [|done].
        by replace (m_importance row <? th) with true by lia. }
      cbn [LongtermMemory.archive_each] in Hskip. rewrite Hskip. apply IH, Hb. }
    unfold archivable, live in Ha. unfold bind at 1. unfold MemoryDB.get_memory.
    destruct (List.find (MemoryDB.live_row log_id) (memories d)) as [row|] eqn:Hf;
      [|done].
    apply andb_prop in Ha as [Hty Hge].
    cbn [MemoryDB.content MemoryDB.importance]. unfold json_loads.
    rewrite Hty. cbn [negb]. replace (m_importance row <? th) with false by lia.
    assert (0 ≤ m_importance row ≤ 10) as Himp.
    { unfold importance_bounded in Hb. rewrite Forall_forall in Hb. apply Hb.
      apply list_elem_of_In. by apply find_some in Hf as [? _]. }
    unfold LongtermMemory.save_longterm_memory, bind.
    set (memory := [("type", JStr "longterm_memory"); _; _; _]).
    set (tg' := Some _).
    assert (valid_create "longterm" memory (m_importance row)) as Hv by done.
    rewrite (save_memory_ok _ _ None None _ tg' now d Hv).
    set (d1 := created "longterm" memory None None (m_importance row) tg' now d).
    assert (importance_bounded d1) as Hb1.
    { unfold importance_bounded, d1, created. cbn [memories].
      apply Forall_app. split; [done|]. constructor; [exact Himp|constructor]. }
    destruct (IH th (n + 1) now d1 Hb1) as (d' & new & Heq & Hmem & Hlen & Hall).
    assert (List.filter (archivable th d1) ids = List.filter (archivable th d) ids)
      as Hfil.
    { apply filter_ext. intros a. by apply archivable_created. }
    rewrite Hfil in Heq, Hlen. rewrite Heq.
    eexists d', (_ :: new). split; [|split; [|split]].
    + cbn [length]. do 2 f_equal. lia.
    + rewrite Hmem. unfold d1, created. cbn [memories]. by rewrite <- app_assoc.
    + cbn [length]. by rewrite Hlen.
    + by constructor.
Qed.

(** X24: [extract_and_archive] returns the number of keys of its list, each
    counted as often as it is listed, whose record before the call is not
    soft-deleted, holds a daily event and has an importance at or above the
    threshold (8 when none is given).  It adds that many records, all of
    type [longterm], after the stored ones, which it leaves as they are; a
    record is archived again each time its key is listed or the call is
    repeated. *)
Theorem archive_counts_archivable {lib : Lib} ids threshold now d :
  importance_bounded d →
  ∃ d' new,
    LongtermMemory.extract_and_archive ids threshold now d
    = (Ok (Z.of_nat (length (List.filter (archivable (default 8 threshold) d) ids))),
       d')
    ∧ memories d' = memories d ++ new
    ∧ length new = length (List.filter (archivable (default 8 threshold) d) ids)
    ∧ Forall (λ r, m_memory_type r = "longterm") new.
Proof.
  intros Hb. unfold LongtermMemory.extract_and_archive.
  destruct (archive_each_spec ids (default LongtermMemory.ARCHIVE_THRESHOLD threshold)
              0 now d Hb) as (d' & new & Heq & Hrest).
  exists d', new. split; [|exact Hrest]. rewrite Heq. do 2 f_equal.
Qed.

Lemma archive_counts_archivable_witness :
  (∃ d' new,
     LongtermMemory.extract_and_archive (lib := example_lib) [2; 2; 1] None 9
       store_logged
     = (Ok (Z.of_nat (length (List.filter (archivable (default 8 None) store_logged)
                                [2; 2; 1]))), d')
     ∧ memories d' = memories store_logged ++ new
     ∧ length new
       = length (List.filter (archivable (default 8 None) store_logged) [2; 2; 1])
     ∧ Forall (λ r, m_memory_type r = "longterm") new)
  ∧ length (List.filter (archivable (default 8 None) store_logged) [2; 2; 1]) = 2%nat.
Proof.
  split; [|reflexivity].
  apply (archive_counts_archivable (lib := example_lib) [2; 2; 1] None 9 store_logged).
  apply (bool_decide_unpack _). vm_compute. exact I.
Defined.

Lemma event_type_tag e :
  e ∈ DailyLogger.EVENT_TYPES → truthy_str e = true ∧ split_comma e = [e].
Proof.
  unfold DailyLogger.EVENT_TYPES. intros H.
  repeat (apply elem_of_cons in H as [->|H]; [by vm_compute|]).
  by apply elem_of_nil in H.
Qed.

Lemma stored_event_type_known event_type :
  stored_event_type event_type ∈ DailyLogger.EVENT_TYPES.
Proof.
  unfold stored_event_type. case_bool_decide as H; [done|].
  apply (bool_decide_unpack _). by vm_compute.
Qed.

Lemma sql_filter_same s : sql_filter (Some s) (Some s) = true.
Proof.
  unfold sql_filter, sql_eq. destruct (truthy_opt_str (Some s)); [|done].
  apply String.eqb_refl.
Qed.

(** What a [log_event] with a date and an importance that are accepted
    does. *)
Lemma log_event_ok {lib : Lib} date event_type content imp tg now d :
  strptime_ok date = true → 0 ≤ imp ≤ 10 →
  ∃ event tg',
    DailyLogger.log_event date event_type content imp tg now d
    = (Ok (seq_memories d + 1), created "daily" event None (Some date) imp tg' now d)
    ∧ get_is_str "type" event "daily_event" = true
    ∧ dict_get "event_type" event = Some (JStr (stored_event_type event_type))
    ∧ dict_get "title" event
      = Some (default (JStr "无标题") (dict_get "title" content))
    ∧ tg' = Some (match tg with
                  | Some (t :: ts) => t :: ts
                  | _ => [stored_event_type event_type]
                  end).
Proof.
  intros Hd Himp. unfold DailyLogger.log_event, DailyLogger._validate_date, bind.
  rewrite Hd. cbn [ret]. fold (stored_event_type event_type).
  set (event := [("type", JStr "daily_event"); _; _; _; _; _; _]).
  set (tg' := Some (match tg with Some (t :: ts) => t :: ts | _ => _ end)).
  assert (valid_create "daily" event imp) as Hv by done.
  rewrite (save_memory_ok _ _ None (Some date) _ tg' now d Hv).
  by exists event, tg'.
Qed.

(** X25: [log_event] never refuses an event type: a type outside
    [EVENT_TYPES] is stored as [note].  With a date that parses and an
    importance between 0 and 10 the event is stored as a [daily] record of
    that date whose [event_type] is one of [EVENT_TYPES], and when no tag is
    given the record is tagged with the stored event type. *)
Theorem log_event_normalises {lib : Lib} date event_type content imp tg now d :
  wf d → strptime_ok date = true → 0 ≤ imp ≤ 10 →
  ∃ id d' m,
    DailyLogger.log_event date event_type content imp tg now d = (Ok id, d')
    ∧ MemoryDB.get_memory id d' = (Ok (Some m), d')
    ∧ MemoryDB.memory_type m = "daily"
    ∧ MemoryDB.date m = Some date
    ∧ MemoryDB.importance m = imp
    ∧ dict_get "event_type" (MemoryDB.content m)
      = Some (JStr (stored_event_type event_type))
    ∧ stored_event_type event_type ∈ DailyLogger.EVENT_TYPES
    ∧ (event_type ∈ DailyLogger.EVENT_TYPES → stored_event_type event_type = event_type)
    ∧ (event_type ∉ DailyLogger.EVENT_TYPES → stored_event_type event_type = "note")
    ∧ (default [] tg = [] → MemoryDB.tags m = [stored_event_type event_type]).
Proof.
  intros Hwf Hd Himp.
  destruct (log_event_ok date event_type content imp tg now d Hd Himp)
    as (event & tg' & Hlog & Hty & Het & Htitle & Htg).
  eexists _, _, _. split; [exact Hlog|].
  split; [apply get_memory_row, live_created_row, Hwf|].
  split; [done|]. split; [done|]. split; [done|]. split; [exact Het|].
  split; [apply stored_event_type_known|].
  split; [by intros H; unfold stored_event_type; rewrite bool_decide_eq_true_2|].
  split; [by intros H; unfold stored_event_type; rewrite bool_decide_eq_false_2|].
  intros Hnone. subst tg'.
  assert (match tg with
          | Some (t :: ts) => t :: ts
          | _ => [stored_event_type event_type]
          end = [stored_event_type event_type]) as ->.
  { by destruct tg as [[|t ts]|]. }
  cbn [MemoryDB.memory_of_row MemoryDB.tags m_tags join_comma].
  destruct (event_type_tag _ (stored_event_type_known event_type)) as [-> ->]. done.
Qed.

Lemma log_event_normalises_witness :
  ∃ id d' m,
    DailyLogger.log_event (lib := example_lib) "2024-05-01" "party" (doc "t") 5 None 3
      store_v2 = (Ok id, d')
    ∧ MemoryDB.get_memory id d' = (Ok (Some m), d')
    ∧ MemoryDB.memory_type m = "daily"
    ∧ MemoryDB.date m = Some "2024-05-01"
    ∧ MemoryDB.importance m = 5
    ∧ dict_get "event_type" (MemoryDB.content m) = Some (JStr (stored_event_type "party"))
    ∧ stored_event_type "party" ∈ DailyLogger.EVENT_TYPES
    ∧ ("party" ∈ DailyLogger.EVENT_TYPES → stored_event_type "party" = "party")
    ∧ ("party" ∉ DailyLogger.EVENT_TYPES → stored_event_type "party" = "note")
    ∧ (default [] (@None (list string)) = []
       → MemoryDB.tags m = [stored_event_type "party"]).
Proof.
  apply (log_event_normalises (lib := example_lib) "2024-05-01" "party" (doc "t") 5
           None 3 store_v2).
  - apply (bool_decide_unpack _). vm_compute. exact I.
  - reflexivity.
  - lia.
Defined.

(** X26: the only errors of [log_event] are the date and the importance.
    When the date does not parse, or the importance is outside 0 to 10, the
    call raises [ValueError] and stores nothing, whatever the event type and
    the content; [get_daily_log] of a date that does not parse raises
    too. *)
Theorem log_event_rejects {lib : Lib} date event_type content imp tg now d :
  ¬ (strptime_ok date = true ∧ 0 ≤ imp ≤ 10) →
  (∃ msg, DailyLogger.log_event date event_type content imp tg now d
          = (Raise (ValueError msg), d))
  ∧ (strptime_ok date = false →
     ∃ msg, DailyLogger.get_daily_log date d = (Raise (ValueError msg), d)).
Proof.
  intros Hn. split.
  - unfold DailyLogger.log_event, DailyLogger._validate_date, bind.
    destruct (strptime_ok date) eqn:Hd; [|by eexists].
    cbn [ret]. apply save_memory_invalid. intros (_ & _ & Himp). by apply Hn.
  - intros Hd. unfold DailyLogger.get_daily_log, DailyLogger._validate_date, bind.
    rewrite Hd. by eexists.
Qed.

Lemma log_event_rejects_witness :
  (∃ msg, DailyLogger.log_event (lib := example_lib) "yesterday" "note" (doc "t") 5
            None 3 store_v2 = (Raise (ValueError msg), store_v2))
  ∧ (strptime_ok (Lib := example_lib) "yesterday" = false →
     ∃ msg, DailyLogger.get_daily_log (lib := example_lib) "yesterday" store_v2
            = (Raise (ValueError msg), store_v2)).
Proof.
  apply (log_event_rejects (lib := example_lib) "yesterday" "note" (doc "t") 5 None 3
           store_v2).
  vm_compute. intros [H _]. discriminate H.
Defined.

(** X27: an event that was logged is in the log of its day.  When the clock
    is past the creation time of every stored record, [get_daily_log] of the
    date, called after [log_event], returns an entry with the key of the
    event, its stored event type, its title (or the default title) and its
    importance. *)
Theorem logged_event_in_daily_log {lib : Lib} date event_type content imp tg now d :
  strptime_ok date = true → 0 ≤ imp ≤ 10 →
  Forall (λ r, m_created_at r < now) (memories d) →
  ∃ id d' events e,
    DailyLogger.log_event date event_type content imp tg now d = (Ok id, d')
    ∧ DailyLogger.get_daily_log date d' = (Ok events, d')
    ∧ e ∈ events
    ∧ DailyLogger.e_id e = id
    ∧ DailyLogger.e_event_type e = JStr (stored_event_type event_type)
    ∧ DailyLogger.e_title e = default (JStr "无标题") (dict_get "title" content)
    ∧ DailyLogger.e_importance e = imp
    ∧ DailyLogger.e_created_at e = now.
Proof.
  intros Hd Himp Hnow.
  destruct (log_event_ok date event_type content imp tg now d Hd Himp)
    as (event & tg' & Hlog & Hty & Het & Htitle & Htg).
  destruct (created_listed_first "daily" event None (Some date) imp tg' now
              (Some "daily") None (Some date) 1000 d Hnow eq_refl eq_refl
              (sql_filter_same date)) as [rest Hlist]; [done|].
  set (row := mkMemoryRow _ _ _ _ _ _ _ _ _ _) in Hlist.
  eexists _, _, _, (DailyLogger.event_of (MemoryDB.memory_of_row row)).
  split; [exact Hlog|]. split.
  { unfold DailyLogger.get_daily_log, DailyLogger._validate_date, bind.
    rewrite Hd. cbn [ret]. rewrite Hlist. reflexivity. }
  split.
  { rewrite (order_by_perm DailyLogger.e_created_at).
    cbn [List.filter]. change (MemoryDB.content (MemoryDB.memory_of_row row)) with event.
    rewrite Hty. cbn [map]. by left. }
  split; [done|]. unfold DailyLogger.event_of.
  change (MemoryDB.content (MemoryDB.memory_of_row row)) with event.
  cbn [DailyLogger.e_event_type DailyLogger.e_title DailyLogger.e_importance
       DailyLogger.e_created_at]. unfold get_or_null. rewrite Het, Htitle. done.
Qed.

Lemma logged_event_in_daily_log_witness :
  ∃ id d' events e,
    DailyLogger.log_event (lib := example_lib) "2024-05-01" "task" (doc "t") 5 None 3
      store_v2 = (Ok id, d')
    ∧ DailyLogger.get_daily_log (lib := example_lib) "2024-05-01" d' = (Ok events, d')
    ∧ e ∈ events
    ∧ DailyLogger.e_id e = id
    ∧ DailyLogger.e_event_type e = JStr (stored_event_type "task")
    ∧ DailyLogger.e_title e = default (JStr "无标题") (dict_get "title" (doc "t"))
    ∧ DailyLogger.e_importance e = 5
    ∧ DailyLogger.e_created_at e = 3.
Proof.
  apply (logged_event_in_daily_log (lib := example_lib) "2024-05-01" "task" (doc "t") 5
           None 3 store_v2).
  - reflexivity.
  - lia.
  - apply (bool_decide_unpack _). vm_compute. exact I.
Defined.

(** X28: logging and archiving fit together.  An event logged with
    [log_event] and then passed to [extract_and_archive] is archived exactly
    when its importance reaches the threshold (8 when none is given): the
    call returns 1 in that case and 0 otherwise. *)
Theorem logged_event_archived_by_importance {lib : Lib} date event_type content imp
    tg now threshold now' d :
  wf d → importance_bounded d → strptime_ok date = true → 0 ≤ imp ≤ 10 →
  ∃ id d1 d2,
    DailyLogger.log_event date event_type content imp tg now d = (Ok id, d1)
    ∧ LongtermMemory.extract_and_archive [id] threshold now' d1
      = (Ok (if default 8 threshold <=? imp then 1 else 0), d2)
    ∧ Z.of_nat (length (memories d2))
      = Z.of_nat (length (memories d1))
        + (if default 8 threshold <=? imp then 1 else 0).
Proof.
  intros Hwf Hb Hd Himp.
  destruct (log_event_ok date event_type content imp tg now d Hd Himp)
    as (event & tg' & Hlog & Hty & Het & Htitle & Htg).
  set (d1 := created "daily" event None (Some date) imp tg' now d) in *.
  assert (importance_bounded d1) as Hb1.
  { unfold importance_bounded, d1, created. cbn [memories].
    apply Forall_app. split; [done|]. constructor; [exact Himp|constructor]. }
  destruct (archive_each_spec [seq_memories d + 1] (default 8 threshold) 0 now' d1 Hb1)
    as (d2 & new & Heq & Hmem & Hlen & _).
  assert (archivable (default 8 threshold) d1 (seq_memories d + 1)
          = (default 8 threshold <=? imp)) as Ha.
  { unfold archivable, d1. rewrite (live_created_row _ _ _ _ _ _ _ _ Hwf).
    cbn [m_content m_importance]. by rewrite Hty. }
  cbn [List.filter] in Heq, Hlen. rewrite Ha in Heq, Hlen.
  exists (seq_memories d + 1), d1, d2. split; [exact Hlog|].
  unfold LongtermMemory.extract_and_archive.
  change LongtermMemory.ARCHIVE_THRESHOLD with 8. rewrite Heq, Hmem, length_app, Hlen.
  destruct (default 8 threshold <=? imp); cbn [length]; split; try done; lia.
Qed.

Lemma logged_event_archived_by_importance_witness :
  ∃ id d1 d2,
    DailyLogger.log_event (lib := example_lib) "2024-05-01" "task" (doc "t") 9 None 3
      store_v2 = (Ok id, d1)
    ∧ LongtermMemory.extract_and_archive (lib := example_lib) [id] None 4 d1
      = (Ok (if default 8 None <=? 9 then 1 else 0), d2)
    ∧ Z.of_nat (length (memories d2))
      = Z.of_nat (length (memories d1)) + (if default 8 None <=? 9 then 1 else 0).
Proof.
  apply (logged_event_archived_by_importance (lib := example_lib) "2024-05-01" "task"
           (doc "t") 9 None 3 None 4 store_v2).
  - apply (bool_decide_unpack _). vm_compute. exact I.
  - apply (bool_decide_unpack _). vm_compute. exact I.
  - reflexivity.
  - lia.
Defined.

Lemma conversation_importance_cases user_message :
  SessionManager._calculate_conversation_importance user_message
  = if existsb (λ keyword, str_contains keyword user_message)
         SessionManager.important_keywords
    then 5 else 3.
Proof.
  unfold SessionManager._calculate_conversation_importance.
  by destruct (existsb _ _).
Qed.

(** X29: [save_conversation] raises for no message, and the conversation it
    stores is read back by [get_conversation_history].  For every session
    key, message, response and timestamp the call returns a key; when the
    clock is past the creation time of every stored record, the history of
    that session, with any limit other than 0, starts with an entry that has
    this key, the session key, the message and the response. *)
Theorem conversation_round_trip {lib : Lib} sid user_message assistant_response
    timestamp now limit d :
  Forall (λ r, m_created_at r < now) (memories d) → limit ≠ 0 →
  ∃ id d' c rest,
    SessionManager.save_conversation sid user_message assistant_response timestamp
      now d = (Ok id, d')
    ∧ SessionManager.get_conversation_history (Some sid) limit d' = (Ok (c :: rest), d')
    ∧ SessionManager.c_id c = id
    ∧ SessionManager.c_session_id c = Some sid
    ∧ SessionManager.c_user_message c = JStr user_message
    ∧ SessionManager.c_assistant_response c = JStr assistant_response.
Proof.
  intros Hnow Hl. unfold SessionManager.save_conversation.
  set (conversation := [("type", JStr "conversation"); _; _; _]).
  set (imp := SessionManager._calculate_conversation_importance user_message).
  assert (valid_create "session" conversation imp) as Hv.
  { split; [done|]. split; [done|]. unfold imp.
    rewrite conversation_importance_cases. destruct (existsb _ _); lia. }
  rewrite (save_memory_ok _ _ (Some sid) None _ None now d Hv).
  destruct (created_listed_first "session" conversation (Some sid) None imp None now
              (Some "session") (Some sid) None limit d Hnow eq_refl
              (sql_filter_same sid) eq_refl Hl) as [rest Hlist].
  set (row := mkMemoryRow _ _ _ _ _ _ _ _ _ _) in Hlist.
  eexists _, _, (SessionManager.conversation_of (MemoryDB.memory_of_row row)), _.
  split; [reflexivity|]. split; [|done].
  unfold SessionManager.get_conversation_history, bind. rewrite Hlist.
  cbn [ret List.filter map].
  change (MemoryDB.content (MemoryDB.memory_of_row row)) with conversation.
  reflexivity.
Qed.

Lemma conversation_round_trip_witness :
  ∃ id d' c rest,
    SessionManager.save_conversation (lib := example_lib) "s1" "hello" "hi" None 3
      store_v2 = (Ok id, d')
    ∧ SessionManager.get_conversation_history (Some "s1") 10 d' = (Ok (c :: rest), d')
    ∧ SessionManager.c_id c = id
    ∧ SessionManager.c_session_id c = Some "s1"
    ∧ SessionManager.c_user_message c = JStr "hello"
    ∧ SessionManager.c_assistant_response c = JStr "hi".
Proof.
  apply (conversation_round_trip (lib := example_lib) "s1" "hello" "hi" None 3 10
           store_v2).
  - apply (bool_decide_unpack _). vm_compute. exact I.
  - lia.
Defined.

(** X30: the importance scores stay inside their range without the clamp.
    [_calculate_importance] returns a score between 5 and 9, and
    [_calculate_conversation_importance] returns 5 when the message holds one
    of the keywords and 3 otherwise, so [max(0, min(10, .))] never changes
    either score. *)
Theorem importance_scores_in_range context user_message :
  5 ≤ SessionManager._calculate_importance context ≤ 9
  ∧ (SessionManager._calculate_conversation_importance user_message = 5
     ∨ SessionManager._calculate_conversation_importance user_message = 3)
  ∧ (SessionManager._calculate_conversation_importance user_message = 5
     ↔ ∃ keyword, keyword ∈ SessionManager.important_keywords
                  ∧ str_contains keyword user_message = true).
Proof.
  split; [|split].
  - unfold SessionManager._calculate_importance, SessionManager.clamp.
    destruct (SessionManager.truthy_key "important_topics" context),
      (SessionManager.truthy_key "pending_actions" context),
      (SessionManager.truthy_key "mood" context); lia.
  - rewrite conversation_importance_cases. destruct (existsb _ _); auto.
  - rewrite conversation_importance_cases.
    destruct (existsb _ _) eqn:He.
    + split; [|done]. intros _. apply existsb_exists in He as (k & Hk & Hs).
      exists k. by rewrite list_elem_of_In.
    + split; [done|]. intros (k & Hk & Hs).
      assert (existsb (λ keyword, str_contains keyword user_message)
                SessionManager.important_keywords = true) as He'.
      { apply existsb_exists. exists k. by rewrite <- list_elem_of_In. }
      congruence.
Qed.
